(** * live-transcriber: segmentation, dispatch, snapshot and control plane

    A shallow embedding of [src/transcriber.py] (the web-controlled program)
    and of [src/terminal-transcriber.py] (the terminal program), with the
    properties of the segmentation loop, the transcript store and the HTTP
    control surface.

    Conventions.
    - Python [str] values are Rocq strings whose characters stand for the
      code points U+0000..U+00FF.
    - Wall-clock readings ([time.time()]) and audio samples are rationals;
      float rounding is not modelled.
    - Console output, calls of the recognition engine and the successive
      contents of [transcript.json] are recorded in a trace of events. *)

From Stdlib Require Import QArith Qabs.
From Stdlib Require Import String Ascii.
From Stdlib Require Import List Bool Arith NArith ZArith Lia.
From Stdlib Require Import Lqa Sorted.
From stdpp Require Import base option strings gmap.
Import ListNotations.

Local Open Scope string_scope.
Local Open Scope list_scope.

(** ** Python text operations used by the worker *)

Module Text.

(** [str.isspace] on one code point below 256: TAB..CR, FS..US, space,
    NEL (U+0085) and NBSP (U+00A0). *)
Definition is_space (c : ascii) : bool :=
  let n := N_of_ascii c in
  ((9 <=? n) && (n <=? 13) || (28 <=? n) && (n <=? 32)
   || (n =? 133) || (n =? 160))%N.

(** [str.lower] on one code point below 256: A..Z and the Latin-1 capitals
    U+00C0..U+00DE (the multiplication sign U+00D7 apart) move up by 32. *)
Definition lower_char (c : ascii) : ascii :=
  let n := N_of_ascii c in
  if ((65 <=? n) && (n <=? 90)
      || (192 <=? n) && (n <=? 222) && negb (n =? 215))%N
  then ascii_of_N (n + 32) else c.

Fixpoint lower (s : string) : string :=
  match s with
  | EmptyString => EmptyString
  | String c r => String (lower_char c) (lower r)
  end.

Fixpoint all_space (s : string) : bool :=
  match s with
  | EmptyString => true
  | String c r => is_space c && all_space r
  end.

(** [str.isspace]: at least one character and all of them whitespace. *)
Definition isspace (s : string) : bool :=
  match s with
  | EmptyString => false
  | String _ _ => all_space s
  end.

Fixpoint lstrip (s : string) : string :=
  match s with
  | EmptyString => EmptyString
  | String c r => if is_space c then lstrip r else s
  end.

Fixpoint rstrip (s : string) : string :=
  match s with
  | EmptyString => EmptyString
  | String c r =>
      match rstrip r with
      | EmptyString => if is_space c then EmptyString else String c EmptyString
      | r' => String c r'
      end
  end.

(** [str.strip()] with no argument. *)
Definition strip (s : string) : string := rstrip (lstrip s).

(** [sep.join(parts)]. *)
Fixpoint join (sep : string) (parts : list string) : string :=
  match parts with
  | [] => EmptyString
  | [p] => p
  | p :: rest => p +:+ sep +:+ join sep rest
  end.

(** Python truthiness of a string: non-empty. *)
Definition truthy (s : string) : bool :=
  match s with EmptyString => false | String _ _ => true end.

(** [x in xs] for a list of strings. *)
Definition mem (x : string) (xs : list string) : bool :=
  existsb (String.eqb x) xs.

(** Two texts are equal up to case when their lower-cased forms coincide. *)
Definition eq_nocase (a b : string) : Prop := lower a = lower b.

End Text.

(** ** Transcript entries

    [{"time": timestamp, "text": text}], a dict with exactly these two keys. *)

Record Entry : Type := { time : string; text : string }.

(** ** JSON as written by [json.dump] / [json.dumps]

    Python's defaults: item separator [", "], key separator [": "] and
    [ensure_ascii=True]. *)

Module Json.

#[warnings="-register-all"] Inductive value : Type :=
| JBool (b : bool)
| JStr (s : string)
| JArr (items : list value)
| JObj (fields : list (string * value)).

(** The double quote and the backslash. *)
Definition dquote : ascii := ascii_of_N 34.
Definition backslash : ascii := ascii_of_N 92.

Definition hex_digit (n : N) : ascii :=
  if (n <? 10)%N then ascii_of_N (48 + n) else ascii_of_N (87 + n).

(** ['\\u{0:04x}'.format(n)] for a code point below 256. *)
Definition u_escape (c : ascii) : string :=
  let n := N_of_ascii c in
  String backslash (String "u" (String "0" (String "0"
    (String (hex_digit (n / 16)) (String (hex_digit (n mod 16)) EmptyString))))).

(** One character under [ESCAPE_ASCII]: the short escapes of [ESCAPE_DCT],
    the printable range U+0020..U+007E as it is, everything else as
    [\u00xx]. *)
Definition escape_char (c : ascii) : string :=
  let n := N_of_ascii c in
  if (n =? 34)%N then String backslash (String dquote EmptyString)
  else if (n =? 92)%N then String backslash (String backslash EmptyString)
  else if (n =? 8)%N then String backslash "b"
  else if (n =? 12)%N then String backslash "f"
  else if (n =? 10)%N then String backslash "n"
  else if (n =? 13)%N then String backslash "r"
  else if (n =? 9)%N then String backslash "t"
  else if ((32 <=? n) && (n <=? 126))%N then String c EmptyString
  else u_escape c.

Fixpoint escape (s : string) : string :=
  match s with
  | EmptyString => EmptyString
  | String c r => escape_char c +:+ escape r
  end.

Definition quote (s : string) : string :=
  String dquote (escape s +:+ String dquote EmptyString).

(** [sep.join] over already rendered items. *)
Definition commas (items : list string) : string := Text.join ", " items.

Fixpoint dumps (v : value) : string :=
  match v with
  | JBool true => "true"
  | JBool false => "false"
  | JStr s => quote s
  | JArr items => "[" +:+ commas (map dumps items) +:+ "]"
  | JObj fields =>
      "{" +:+ commas (map (fun kv => quote (fst kv) +:+ ": " +:+ dumps (snd kv)) fields)
          +:+ "}"
  end.

(** *** Reading a snapshot back

    The reader of [transcript.json] expects an array of objects with the
    keys ["time"] and ["text"], in that order, both holding strings.  JSON
    whitespace is accepted between tokens; inside a string every escape of
    RFC 8259 is accepted as long as the code point is below 256, and raw
    control characters are rejected. *)

Definition is_ws (c : ascii) : bool :=
  let n := N_of_ascii c in ((n =? 32) || (n =? 9) || (n =? 10) || (n =? 13))%N.

Fixpoint skip_ws (s : string) : string :=
  match s with
  | EmptyString => EmptyString
  | String c r => if is_ws c then skip_ws r else s
  end.

Definition hex_value (c : ascii) : option N :=
  let n := N_of_ascii c in
  if ((48 <=? n) && (n <=? 57))%N then Some (n - 48)%N
  else if ((97 <=? n) && (n <=? 102))%N then Some (n - 87)%N
  else if ((65 <=? n) && (n <=? 70))%N then Some (n - 55)%N
  else None.

Definition hex4 (a b c d : ascii) : option ascii :=
  x3 ← hex_value a; x2 ← hex_value b; x1 ← hex_value c; x0 ← hex_value d;
  let n := (((x3 * 16 + x2) * 16 + x1) * 16 + x0)%N in
  if (n <? 256)%N then Some (ascii_of_N n) else None.

(** The character a two-character escape stands for. *)
Definition short_escape (e : ascii) : option ascii :=
  let n := N_of_ascii e in
  if (n =? 34)%N then Some (ascii_of_N 34)
  else if (n =? 92)%N then Some (ascii_of_N 92)
  else if (n =? 47)%N then Some (ascii_of_N 47)
  else if (n =? 98)%N then Some (ascii_of_N 8)
  else if (n =? 102)%N then Some (ascii_of_N 12)
  else if (n =? 110)%N then Some (ascii_of_N 10)
  else if (n =? 114)%N then Some (ascii_of_N 13)
  else if (n =? 116)%N then Some (ascii_of_N 9)
  else None.

Definition cons_char (c : ascii) (r : option (string * string))
  : option (string * string) :=
  match r with
  | Some (s, rest) => Some (String c s, rest)
  | None => None
  end.

(** The characters of a string literal after its opening quote, up to and
    including the closing quote; returns the decoded text and what follows. *)
Fixpoint parse_string_body (s : string) : option (string * string) :=
  match s with
  | EmptyString => None
  | String c r =>
      if (N_of_ascii c =? 34)%N then Some (EmptyString, r)
      else if (N_of_ascii c =? 92)%N then
        match r with
        | EmptyString => None
        | String e r1 =>
            match short_escape e with
            | Some d => cons_char d (parse_string_body r1)
            | None =>
                if (N_of_ascii e =? 117)%N then
                  match r1 with
                  | String h3 (String h2 (String h1 (String h0 r2))) =>
                      match hex4 h3 h2 h1 h0 with
                      | Some d => cons_char d (parse_string_body r2)
                      | None => None
                      end
                  | _ => None
                  end
                else None
            end
        end
      else if (N_of_ascii c <? 32)%N then None
      else cons_char c (parse_string_body r)
  end.

Definition expect (c : ascii) (s : string) : option string :=
  match s with
  | String d r => if Ascii.eqb c d then Some r else None
  | EmptyString => None
  end.

Definition parse_string (s : string) : option (string * string) :=
  r ← expect dquote s; parse_string_body r.

Definition parse_key (k : string) (s : string) : option string :=
  '(k', r) ← parse_string s;
  if String.eqb k k' then expect ":" (skip_ws r) else None.

Definition parse_entry (s : string) : option (Entry * string) :=
  r ← expect "{" s;
  r ← parse_key "time" (skip_ws r);
  '(t, r) ← parse_string (skip_ws r);
  r ← expect "," (skip_ws r);
  r ← parse_key "text" (skip_ws r);
  '(x, r) ← parse_string (skip_ws r);
  r ← expect "}" (skip_ws r);
  Some ({| time := t; text := x |}, r).

(** The entries of a non-empty array, from its first entry to the closing
    bracket.  [fuel] bounds the number of entries. *)
Fixpoint parse_entries (fuel : nat) (s : string) : option (list Entry * string) :=
  match fuel with
  | O => None
  | S fuel' =>
      '(e, r) ← parse_entry s;
      match skip_ws r with
      | String c r' =>
          if Ascii.eqb c "," then
            '(es, r'') ← parse_entries fuel' (skip_ws r'); Some (e :: es, r'')
          else if Ascii.eqb c "]" then Some ([e], r')
          else None
      | EmptyString => None
      end
  end.

Definition at_end (s : string) : bool :=
  match skip_ws s with EmptyString => true | String _ _ => false end.

(** The whole document: an array of entries and nothing after it. *)
Definition loads_entries (s : string) : option (list Entry) :=
  r ← expect "[" (skip_ws s);
  match expect "]" (skip_ws r) with
  | Some r' => if at_end r' then Some [] else None
  | None =>
      '(es, r') ← parse_entries (String.length s) (skip_ws r);
      if at_end r' then Some es else None
  end.

(** The value handed to [json.dump]: the transcript, a list of dicts. *)
Definition of_entry (e : Entry) : value :=
  JObj [("time", JStr (time e)); ("text", JStr (text e))].

Definition of_transcript (log : list Entry) : value := JArr (map of_entry log).

End Json.

(** ** Vocabulary shared by the two programs *)

Definition Sample : Type := Q.

(** One block delivered by the audio callback: [indata.copy()], an array of
    shape (frames, 1). *)
Definition Chunk : Type := list Sample.

Definition Exn : Type := string.

(** The outcome of a call that may raise. *)
Inductive Result (A : Type) : Type :=
| Ok (a : A)
| Raise (e : Exn).
Arguments Ok {A} a.
Arguments Raise {A} e.

Definition bind {A B} (r : Result A) (k : A → Result B) : Result B :=
  match r with Ok a => k a | Raise e => Raise e end.

(** [try: body / except Exception as e: handler e]. *)
Definition try_except {A} (body : Result A) (handler : Exn → A) : A :=
  match body with Ok a => a | Raise e => handler e end.

(** What the programs print. *)
Inductive Message : Type :=
| MsgMeter (loud : bool) (volume : Q)
| MsgTranscribing (duration : Q)
| MsgEntry (timestamp text : string)
| MsgBlank
| MsgNoSpeech
| MsgTranscriptionError (e : Exn)
| MsgNoTranscript
| MsgSavedTo (filename : string)
| MsgStopped
| MsgError (e : Exn).

(** What a run does to its environment, in order. *)
Inductive Event : Type :=
| Print (m : Message)
| Recognize (audio_data : list Sample)
| OpenW (name : string)
| Wrote (name content : string).

(** The globals both programs share across threads: the transcript list
    and the files of [SCRIPT_DIR], by file name. *)
Record World : Type := { transcript : list Entry; files : gmap string string }.

Definition SAMPLE_RATE : Z := 16000.
Definition SILENCE_DURATION : Q := 3 # 2.
Definition MIN_AUDIO_LENGTH : Q := 3 # 10.
Definition CHUNK_SIZE : nat := 1024.
Definition METER_PERIOD : Q := 3 # 10.

Definition Qlt_bool (a b : Q) : bool := negb (Qle_bool b a).

(** The clock readings of one pass through the loop body: [t_meter] is
    [time.time()] in the meter test, [t_print] the reading stored in
    [last_vol_print], [t_silence] the reading of the silence branch,
    [timestamp] is [datetime.now().strftime("%H:%M:%S")]. *)
Record Clock : Type := {
  t_meter : Q;
  t_print : Q;
  t_silence : Q;
  timestamp : string
}.

(** A pass that obtained a chunk from the queue. *)
Record Tick : Type := { chunk : Chunk; clock : Clock }.

Definition JSON_NAME : string := "transcript.json".

(** [save_transcript_json]: [open(json_path, "w")] empties the file, then
    [json.dump] and the end of the [with] block leave the whole transcript
    in it. *)
Definition save_transcript_json (g : World) : World * list Event :=
  let content := Json.dumps (Json.of_transcript (transcript g)) in
  ({| transcript := transcript g; files := <[JSON_NAME := content]> (files g) |},
   [OpenW JSON_NAME; Wrote JSON_NAME content]).

(** The snapshot holds the transcript as [json.dump] writes it. *)
Definition in_step (g : World) : Prop :=
  files g !! JSON_NAME = Some (Json.dumps (Json.of_transcript (transcript g))).

(** The directory as an outside reader finds it after one more event. *)
Definition apply_event (fs : gmap string string) (ev : Event) : gmap string string :=
  match ev with
  | OpenW name => <[name := EmptyString]> fs
  | Wrote name content => <[name := content]> fs
  | _ => fs
  end.

Definition replay (fs : gmap string string) (evs : list Event) : gmap string string :=
  fold_left apply_event evs fs.

(** What a block does to the world: the transcript grows at its end, the
    snapshot follows it, and the files are what the events replay to. *)
Definition tracks (g : World) (r : World * list Event) : Prop :=
  (in_step g → in_step r.1)
  ∧ (∃ more, transcript r.1 = transcript g ++ more)
  ∧ replay (files g) r.2 = files r.1.

Definition recognized (evs : list Event) : list (list Sample) :=
  flat_map (fun ev => match ev with Recognize a => [a] | _ => [] end) evs.

Definition printed (evs : list Event) : list Message :=
  flat_map (fun ev => match ev with Print m => [m] | _ => [] end) evs.

Definition is_meter (ev : Event) : bool :=
  match ev with Print (MsgMeter _ _) => true | _ => false end.

(** A trace without the volume bar. *)
Definition unmetered (evs : list Event) : list Event :=
  List.filter (fun ev => negb (is_meter ev)) evs.

(** A stand-in for [np.sqrt] in examples: the square root rounded down to
    four decimals. *)
Definition sqrt_floor (q : Q) : Q :=
  Z.sqrt (Qnum q * 100000000 / Zpos (Qden q)) # 10000.

Section Numpy.

(** [np.sqrt] on the value of [np.mean]; float32 arithmetic is outside the
    model, any function serves. *)
Variable np_sqrt : Q → Q.

Definition np_mean (xs : list Q) : Q :=
  (fold_right Qplus 0 xs / inject_Z (Z.of_nat (length xs)))%Q.

(** [get_volume]: [np.sqrt(np.mean(audio**2))]. *)
Definition get_volume (audio : Chunk) : Q :=
  np_sqrt (np_mean (map (fun x => x * x)%Q audio)).

(** [len(audio_data) / SAMPLE_RATE]. *)
Definition duration_of (audio_data : list Sample) : Q :=
  (inject_Z (Z.of_nat (length audio_data)) / inject_Z SAMPLE_RATE)%Q.

End Numpy.

(** ** [src/transcriber.py] *)

Module Web.

Definition SILENCE_THRESHOLD : Q := 3 # 200.

(** The texts the worker refuses to log. *)
Definition NOISE : list string := ["you"; "you."; "the"; "a"; "."].

(** A text worth an entry, in the words of the specification: not empty,
    not made of whitespace only, and equal to no noise token up to case. *)
Definition loggable (text : string) : Prop :=
  text ≠ EmptyString
  ∧ Text.isspace text = false
  ∧ ∀ tok, In tok NOISE → ¬ Text.eq_nocase text tok.

(** The locals of [transcription_worker]. *)
Record Worker : Type := {
  audio_buffer : list Chunk;
  silence_start : option Q;
  last_vol_print : Q;
  heard_speech : bool
}.

(** The part of the locals that decides segmentation. *)
Definition segmentation (w : Worker) : list Chunk * option Q * bool :=
  (audio_buffer w, silence_start w, heard_speech w).

(** The locals as [transcription_worker] initialises them. *)
Definition fresh : Worker :=
  {| audio_buffer := []; silence_start := None; last_vol_print := 0;
     heard_speech := false |}.

Section Worker.

Variable np_sqrt : Q → Q.

(** [model.transcribe(audio_data, beam_size=5, language="en")] with the
    segments read out: the texts of the segments, or the exception. *)
Variable transcribe : list Sample → Result (list string).

(** The volume bar, at most every 0.3 s. *)
Definition meter (w : Worker) (ck : Clock) (volume : Q) : Worker * list Event :=
  if Qlt_bool METER_PERIOD (t_meter ck - last_vol_print w) then
    ({| audio_buffer := audio_buffer w; silence_start := silence_start w;
        last_vol_print := t_print ck; heard_speech := heard_speech w |},
     [Print (MsgMeter (Qle_bool SILENCE_THRESHOLD volume) volume)])
  else (w, []).

(** [text and not text.isspace() and text.lower() not in [...]]. *)
Definition keeps (text : string) : bool :=
  Text.truthy text && negb (Text.isspace text)
  && negb (Text.mem (Text.lower text) NOISE).

(** [" ".join([s.text for s in segments]).strip()]. *)
Definition text_of (segments : list string) : string :=
  Text.strip (Text.join " " segments).

(** The inner [try] block and its handler. *)
Definition attempt (audio_data : list Sample) (g : World) (stamp : string)
  : World * list Event :=
  let '(g', evs) :=
    try_except
      (bind (transcribe audio_data) (fun segments =>
         let text := text_of segments in
         if keeps text then
           let g1 := {| transcript := transcript g ++ [{| time := stamp; text := text |}];
                        files := files g |} in
           let '(g2, evs) := save_transcript_json g1 in
           Ok (g2, evs ++ [Print (MsgEntry stamp text); Print MsgBlank])
         else Ok (g, [Print MsgNoSpeech])))
      (fun e => (g, [Print (MsgTranscriptionError e)])) in
  (g', Recognize audio_data :: evs).

(** The body of [if len(audio_buffer) > 0]. *)
Definition finalize (buffer : list Chunk) (g : World) (stamp : string)
  : World * list Event :=
  let audio_data := concat buffer in
  let duration := duration_of audio_data in
  if Qle_bool MIN_AUDIO_LENGTH duration then
    let '(g', evs) := attempt audio_data g stamp in
    (g', Print (MsgTranscribing duration) :: evs)
  else (g, []).

(** One pass through the loop body with a chunk from the queue. *)
Definition loop_body (w : Worker) (g : World) (tk : Tick)
  : Worker * World * list Event :=
  let volume := get_volume np_sqrt (chunk tk) in
  let '(w, out) := meter w (clock tk) volume in
  if Qle_bool SILENCE_THRESHOLD volume then
    ({| audio_buffer := audio_buffer w ++ [chunk tk]; silence_start := None;
        last_vol_print := last_vol_print w; heard_speech := true |}, g, out)
  else if heard_speech w then
    let buffer := audio_buffer w ++ [chunk tk] in
    match silence_start w with
    | None =>
        ({| audio_buffer := buffer; silence_start := Some (t_silence (clock tk));
            last_vol_print := last_vol_print w; heard_speech := heard_speech w |},
         g, out)
    | Some since =>
        if Qlt_bool SILENCE_DURATION (t_silence (clock tk) - since) then
          let '(g', evs) :=
            if (0 <? length buffer)%nat
            then finalize buffer g (timestamp (clock tk)) else (g, []) in
          ({| audio_buffer := []; silence_start := None;
              last_vol_print := last_vol_print w; heard_speech := false |},
           g', out ++ evs)
        else
          ({| audio_buffer := buffer; silence_start := silence_start w;
              last_vol_print := last_vol_print w; heard_speech := heard_speech w |},
           g, out)
    end
  else (w, g, out).

(** The guards of the loop body, by the branch they select. *)
Inductive Branch : Type :=
| Sound | SilenceBegins | SilenceGoesOn | SilenceOver | Discard.

Definition branch (w : Worker) (tk : Tick) : Branch :=
  if Qle_bool SILENCE_THRESHOLD (get_volume np_sqrt (chunk tk)) then Sound
  else if heard_speech w then
    match silence_start w with
    | None => SilenceBegins
    | Some since =>
        if Qlt_bool SILENCE_DURATION (t_silence (clock tk) - since)
        then SilenceOver else SilenceGoesOn
    end
  else Discard.

(** A chunk whose volume is below the threshold. *)
Definition quiet_chunk (c : Chunk) : Prop :=
  (get_volume np_sqrt c < SILENCE_THRESHOLD)%Q.

Definition quiet (tk : Tick) : Prop := quiet_chunk (chunk tk).

(** The worker loop over the chunks it obtains while [is_recording] holds;
    a timeout of [audio_queue.get] ([queue.Empty]) is a pass without effect
    and does not show here. *)
Fixpoint run (w : Worker) (g : World) (ticks : list Tick)
  : Worker * World * list Event :=
  match ticks with
  | [] => (w, g, [])
  | tk :: rest =>
      let '(w1, g1, evs1) := loop_body w g tk in
      let '(w2, g2, evs2) := run w1 g1 rest in
      (w2, g2, evs1 ++ evs2)
  end.

End Worker.

(** *** Session export *)

(** The two renderings of [datetime.now()] in [save_transcript_md]:
    ["%Y%m%d_%H%M%S"] for the file name, ["%Y-%m-%d %H:%M"] for the header. *)
Record StopClock : Type := { file_stamp : string; date_stamp : string }.

Definition nl : string := String (ascii_of_N 10) EmptyString.

Definition md_block (e : Entry) : string :=
  "**[" +:+ time e +:+ "]** " +:+ text e +:+ nl +:+ nl.

Definition md_document (date : string) (log : list Entry) : string :=
  "# Transcript" +:+ nl +:+ nl
  +:+ "**Date:** " +:+ date +:+ nl +:+ nl
  +:+ "---" +:+ nl +:+ nl
  +:+ String.concat EmptyString (map md_block log).

Definition md_name (ck : StopClock) : string :=
  "transcript_" +:+ file_stamp ck +:+ ".md".

(** [save_transcript_md]: nothing is written for an empty transcript. *)
Definition save_transcript_md (g : World) (ck : StopClock) : World * list Event :=
  match transcript g with
  | [] => (g, [Print MsgNoTranscript])
  | _ :: _ =>
      let content := md_document (date_stamp ck) (transcript g) in
      ({| transcript := transcript g;
          files := <[md_name ck := content]> (files g) |},
       [OpenW (md_name ck); Wrote (md_name ck) content;
        Print (MsgSavedTo (md_name ck))])
  end.

(** *** The HTTP handler *)

(** The [app_state] dict; the two [threading.Event]s by their flag. *)
Record AppState : Type := {
  recording : bool;
  start_event : bool;
  stop_event : bool
}.

(** What a request is answered with.  [LibraryReply dir path] is the answer
    of [SimpleHTTPRequestHandler] over the directory [dir] to a [path] that
    is not worked out here. *)
Inductive Response : Type :=
| JsonReply (status : nat) (body : string)
| FileReply (status : nat) (content : string)
| ErrorReply (status : nat)
| LibraryReply (dir : gmap string string) (path : string).

(** The status line of an answer, where it is worked out. *)
Definition status_of (r : Response) : option nat :=
  match r with
  | JsonReply st _ => Some st
  | FileReply st _ => Some st
  | ErrorReply st => Some st
  | LibraryReply _ _ => None
  end.

(** [send_json]: status 200 and [json.dumps(data)]. *)
Definition send_json (data : Json.value) : Response :=
  JsonReply 200 (Json.dumps data).

(** [s.split(sep, 1)[0]]: what comes before the first [sep]. *)
Fixpoint before (sep : ascii) (s : string) : string :=
  match s with
  | EmptyString => EmptyString
  | String c r => if Ascii.eqb c sep then EmptyString else String c (before sep r)
  end.

(** The characters of a plain file name: letters, digits, [-], [.], [_]. *)
Definition plain_char (c : ascii) : bool :=
  let n := N_of_ascii c in
  ((48 <=? n) && (n <=? 57) || (65 <=? n) && (n <=? 90)
   || (97 <=? n) && (n <=? 122) || (n =? 45) || (n =? 46) || (n =? 95))%N.

Fixpoint all_plain (s : string) : bool :=
  match s with
  | EmptyString => true
  | String c r => plain_char c && all_plain r
  end.

(** A name that [translate_path] takes as it stands: no escape to decode,
    no further slash, and neither [.] nor [..], which it drops. *)
Definition plain_name (name : string) : bool :=
  Text.truthy name && all_plain name
  && negb (String.eqb name ".") && negb (String.eqb name "..").

(** [SimpleHTTPRequestHandler.do_GET] over [SCRIPT_DIR], for a request
    without conditional headers.  [translate_path] cuts the query and the
    fragment off the path; a slash and the plain name of a file of the
    directory is then answered with status 200 and the file.  [dir] holds
    the regular files of the directory: a name without a file may be missing
    (404) or name a subdirectory (a redirect), and is left to the library,
    as are the directory itself and every path that is not a slash and a
    plain name. *)
Definition serve_file (dir : gmap string string) (path : string) : Response :=
  match before "#" (before "?" path) with
  | String c name =>
      if Ascii.eqb c "/" && plain_name name then
        match dir !! name with
        | Some content => FileReply 200 content
        | None => LibraryReply dir path
        end
      else LibraryReply dir path
  | EmptyString => LibraryReply dir path
  end.

Definition do_GET (dir : gmap string string) (app : AppState) (path : string)
  : Response :=
  if String.eqb path "/" || String.eqb path "/index.html" then
    serve_file dir "/viewer.html"
  else if String.eqb path "/api/status" then
    send_json (Json.JObj [("recording", Json.JBool (recording app))])
  else serve_file dir path.

Definition do_POST (app : AppState) (path : string) : AppState * Response :=
  if String.eqb path "/api/start" then
    ({| recording := true; start_event := true; stop_event := stop_event app |},
     send_json (Json.JObj [("status", Json.JStr "started")]))
  else if String.eqb path "/api/stop" then
    ({| recording := false; start_event := start_event app; stop_event := true |},
     send_json (Json.JObj [("status", Json.JStr "stopped")]))
  else (app, ErrorReply 404).

Inductive Method : Type := GET | POST.

(** The handler chosen by the request method. *)
Definition handle (dir : gmap string string) (app : AppState)
    (m : Method) (path : string) : AppState * Response :=
  match m with
  | GET => (app, do_GET dir app path)
  | POST => do_POST app path
  end.

(** *** The process: capture callback, HTTP thread, supervisor, workers *)

Inductive Phase : Type := AwaitStart | AwaitStop.

Inductive Thread : Type := Alive (w : Worker) | Ended.

Record System : Type := {
  app : AppState;
  is_recording : bool;
  world : World;
  audio_queue : list Chunk;
  phase : Phase;
  workers : list Thread;
  replies : list Response;
  trace : list Event
}.

Inductive Action : Type :=
| Capture (c : Chunk)
| Request (m : Method) (path : string)
| Supervise (ck : StopClock)
| Work (i : nat) (ck : Clock).

(** [main] up to the supervisor loop: an empty transcript, written out. *)
Definition boot (dir : gmap string string) : System :=
  let '(g, evs) := save_transcript_json {| transcript := []; files := dir |} in
  {| app := {| recording := false; start_event := false; stop_event := false |};
     is_recording := true; world := g; audio_queue := []; phase := AwaitStart;
     workers := []; replies := []; trace := evs |}.

Section Process.

Variable np_sqrt : Q → Q.
Variable transcribe : list Sample → Result (list string).

(** The next step of the supervisor loop of [main]: past
    [start_event.wait()] when the start flag is up, past the polling of
    [stop_event] when the stop flag is up, otherwise still waiting. *)
Definition supervise (s : System) (ck : StopClock) : System :=
  match phase s with
  | AwaitStart =>
      if start_event (app s) then
        {| app := {| recording := recording (app s); start_event := false;
                     stop_event := stop_event (app s) |};
           is_recording := true; world := world s; audio_queue := audio_queue s;
           phase := AwaitStop; workers := workers s ++ [Alive fresh];
           replies := replies s; trace := trace s |}
      else s
  | AwaitStop =>
      if stop_event (app s) then
        let '(g1, evs1) := save_transcript_md (world s) ck in
        let '(g2, evs2) :=
          save_transcript_json {| transcript := []; files := files g1 |} in
        {| app := {| recording := false; start_event := start_event (app s);
                     stop_event := false |};
           is_recording := false; world := g2; audio_queue := audio_queue s;
           phase := AwaitStart; workers := workers s; replies := replies s;
           trace := trace s ++ [Print MsgStopped] ++ evs1 ++ evs2 |}
      else s
  end.

(** One pass of worker thread [i]: it ends when [is_recording] is down,
    does nothing on an empty queue, and otherwise runs the loop body on the
    oldest chunk. *)
Definition work (s : System) (i : nat) (ck : Clock) : System :=
  match workers s !! i with
  | Some (Alive w) =>
      if is_recording s then
        match audio_queue s with
        | [] => s
        | c :: queue =>
            let '(w', g', evs) :=
              loop_body np_sqrt transcribe w (world s) {| chunk := c; clock := ck |} in
            {| app := app s; is_recording := is_recording s; world := g';
               audio_queue := queue; phase := phase s;
               workers := <[i := Alive w']> (workers s);
               replies := replies s; trace := trace s ++ evs |}
        end
      else
        {| app := app s; is_recording := is_recording s; world := world s;
           audio_queue := audio_queue s; phase := phase s;
           workers := <[i := Ended]> (workers s);
           replies := replies s; trace := trace s |}
  | _ => s
  end.

Definition step (s : System) (a : Action) : System :=
  match a with
  | Capture c =>
      {| app := app s; is_recording := is_recording s; world := world s;
         audio_queue := audio_queue s ++ [c]; phase := phase s;
         workers := workers s; replies := replies s; trace := trace s |}
  | Request m path =>
      let '(app', r) := handle (files (world s)) (app s) m path in
      {| app := app'; is_recording := is_recording s; world := world s;
         audio_queue := audio_queue s; phase := phase s; workers := workers s;
         replies := replies s ++ [r]; trace := trace s |}
  | Supervise ck => supervise s ck
  | Work i ck => work s i ck
  end.

Definition exec (s : System) (acts : list Action) : System :=
  fold_left step acts s.

(** An action that brings neither a request nor speech. *)
Definition calm (a : Action) : Prop :=
  match a with
  | Capture c => quiet_chunk np_sqrt c
  | Request _ _ => False
  | Supervise _ | Work _ _ => True
  end.

Definition unheard (t : Thread) : Prop :=
  match t with Alive w => heard_speech w = false | Ended => True end.

(** The world of a session without an entry: an empty transcript, an empty
    array in the snapshot, the other files of [dir] untouched. *)
Definition idle_world (dir : gmap string string) : World :=
  {| transcript := []; files := <[JSON_NAME := "[]"]> dir |}.

(** Nothing has been heard, recognised or logged since [boot dir]. *)
Definition silent_so_far (dir : gmap string string) (s : System) : Prop :=
  world s = idle_world dir
  ∧ Forall unheard (workers s)
  ∧ Forall (quiet_chunk np_sqrt) (audio_queue s)
  ∧ recognized (trace s) = [].

Definition flags (s : System) : Phase * bool * bool :=
  (phase s, start_event (app s), stop_event (app s)).

(** The supervisor before a start request, between the start and the stop
    request, and from the stop request on. *)
Definition before_start (s : System) : Prop :=
  flags s = (AwaitStart, false, false).

Definition started (s : System) : Prop :=
  flags s = (AwaitStart, true, false) ∨ flags s = (AwaitStop, false, false).

Definition finished (s : System) : Prop :=
  flags s = (AwaitStart, false, false)
  ∧ recording (app s) = false
  ∧ In (Print MsgNoTranscript) (trace s).

Definition stopping (s : System) : Prop :=
  (flags s = (AwaitStart, true, true) ∧ recording (app s) = false)
  ∨ (flags s = (AwaitStop, false, true) ∧ recording (app s) = false)
  ∨ finished s.

End Process.

End Web.

(** ** [src/terminal-transcriber.py] *)

Module Terminal.

Definition SILENCE_THRESHOLD : Q := 1 # 50.

(** The locals of [transcription_worker]; this program has no
    [heard_speech]. *)
Record Worker : Type := {
  audio_buffer : list Chunk;
  silence_start : option Q;
  last_vol_print : Q
}.

Definition fresh : Worker :=
  {| audio_buffer := []; silence_start := None; last_vol_print := 0 |}.

Section Worker.

Variable np_sqrt : Q → Q.
Variable transcribe : list Sample → Result (list string).

Definition meter (w : Worker) (ck : Clock) (volume : Q) : Worker * list Event :=
  if Qlt_bool METER_PERIOD (t_meter ck - last_vol_print w) then
    ({| audio_buffer := audio_buffer w; silence_start := silence_start w;
        last_vol_print := t_print ck |},
     [Print (MsgMeter (Qle_bool SILENCE_THRESHOLD volume) volume)])
  else (w, []).

(** [text and not text.isspace()]. *)
Definition keeps (text : string) : bool :=
  Text.truthy text && negb (Text.isspace text).

Definition text_of (segments : list string) : string :=
  Text.strip (Text.join " " segments).

Definition attempt (audio_data : list Sample) (g : World) (stamp : string)
  : World * list Event :=
  let '(g', evs) :=
    try_except
      (bind (transcribe audio_data) (fun segments =>
         let text := text_of segments in
         if keeps text then
           let g1 := {| transcript := transcript g ++ [{| time := stamp; text := text |}];
                        files := files g |} in
           let '(g2, evs) := save_transcript_json g1 in
           Ok (g2, evs ++ [Print (MsgEntry stamp text); Print MsgBlank])
         else Ok (g, [Print MsgNoSpeech])))
      (fun e => (g, [Print (MsgTranscriptionError e)])) in
  (g', Recognize audio_data :: evs).

Definition finalize (buffer : list Chunk) (g : World) (stamp : string)
  : World * list Event :=
  let audio_data := concat buffer in
  let duration := duration_of audio_data in
  if Qle_bool MIN_AUDIO_LENGTH duration then
    let '(g', evs) := attempt audio_data g stamp in
    (g', Print (MsgTranscribing duration) :: evs)
  else (g, []).

(** One pass through the loop body: the chunk is buffered before anything
    else is looked at. *)
Definition loop_body (w : Worker) (g : World) (tk : Tick)
  : Worker * World * list Event :=
  let buffer := audio_buffer w ++ [chunk tk] in
  let volume := get_volume np_sqrt (chunk tk) in
  let '(w, out) := meter w (clock tk) volume in
  if Qlt_bool volume SILENCE_THRESHOLD then
    match silence_start w with
    | None =>
        ({| audio_buffer := buffer; silence_start := Some (t_silence (clock tk));
            last_vol_print := last_vol_print w |}, g, out)
    | Some since =>
        if Qlt_bool SILENCE_DURATION (t_silence (clock tk) - since) then
          let '(g', evs) :=
            if (0 <? length buffer)%nat
            then finalize buffer g (timestamp (clock tk)) else (g, []) in
          ({| audio_buffer := []; silence_start := None;
              last_vol_print := last_vol_print w |}, g', out ++ evs)
        else
          ({| audio_buffer := buffer; silence_start := silence_start w;
              last_vol_print := last_vol_print w |}, g, out)
    end
  else
    ({| audio_buffer := buffer; silence_start := None;
        last_vol_print := last_vol_print w |}, g, out).

(** A chunk whose volume is below the threshold. *)
Definition quiet (tk : Tick) : Prop :=
  (get_volume np_sqrt (chunk tk) < SILENCE_THRESHOLD)%Q.

Fixpoint run (w : Worker) (g : World) (ticks : list Tick)
  : Worker * World * list Event :=
  match ticks with
  | [] => (w, g, [])
  | tk :: rest =>
      let '(w1, g1, evs1) := loop_body w g tk in
      let '(w2, g2, evs2) := run w1 g1 rest in
      (w2, g2, evs1 ++ evs2)
  end.

End Worker.

End Terminal.

(** ** Sample inputs *)

Module Demo.

Definition at_time (t : Q) (stamp : string) : Clock :=
  {| t_meter := t; t_print := t; t_silence := t; timestamp := stamp |}.

(** [n] samples at full scale, read at time [t]. *)
Definition loud (n : nat) (t : Q) (stamp : string) : Tick :=
  {| chunk := repeat 1%Q n; clock := at_time t stamp |}.

(** [n] samples of digital silence, read at time [t]. *)
Definition hush (n : nat) (t : Q) (stamp : string) : Tick :=
  {| chunk := repeat 0%Q n; clock := at_time t stamp |}.

(** An engine that hears the given segments in any audio. *)
Definition says (segments : list string) : list Sample → Result (list string) :=
  fun _ => Ok segments.

(** An engine that always fails. *)
Definition broken : list Sample → Result (list string) :=
  fun _ => Raise "model failure".

(** The world right after [main] has written the empty snapshot into an
    empty directory. *)
Definition blank : World := {| transcript := []; files := {[ JSON_NAME := "[]" ]} |}.

(** Speech has been heard and silence runs since time 0. *)
Definition pausing (n : nat) : Web.Worker :=
  {| Web.audio_buffer := [repeat 1%Q n]; Web.silence_start := Some 0%Q;
     Web.last_vol_print := 0; Web.heard_speech := true |}.

Definition now : Web.StopClock :=
  {| Web.file_stamp := "20260101_100000"; Web.date_stamp := "2026-01-01 10:00" |}.

Definition later : Web.StopClock :=
  {| Web.file_stamp := "20260101_100005"; Web.date_stamp := "2026-01-01 10:00" |}.

End Demo.

(** ** The ends of the two programs *)

Module Lifecycle.

(** The [finally] block of [main] in [src/transcriber.py]: [is_recording]
    goes down and what is left of the transcript is exported.  Stopping and
    closing the audio stream has no effect on the modelled state. *)
Definition shutdown (s : Web.System) (ck : Web.StopClock) : Web.System :=
  let '(g, evs) := Web.save_transcript_md (Web.world s) ck in
  {| Web.app := Web.app s; Web.is_recording := false; Web.world := g;
     Web.audio_queue := Web.audio_queue s; Web.phase := Web.phase s;
     Web.workers := Web.workers s; Web.replies := Web.replies s;
     Web.trace := Web.trace s ++ evs |}.

(** [QuietHandler.do_GET] of [src/terminal-transcriber.py]: the viewer for
    [/] and [/index.html], otherwise the file of that name. *)
Definition terminal_do_GET (dir : gmap string string) (path : string)
  : Web.Response :=
  if String.eqb path "/" || String.eqb path "/index.html"
  then Web.serve_file dir "/viewer.html"
  else Web.serve_file dir path.

(** [input().strip().lower() == 'q']. *)
Definition quits (line : string) : bool :=
  String.eqb (Text.lower (Text.strip line)) "q".

(** The command loop of the terminal program over the lines typed: the
    lines left unread when a line quits, or [None] when the input ends
    first ([input()] raises). *)
Fixpoint command_loop (lines : list string) : option (list string) :=
  match lines with
  | [] => None
  | line :: rest => if quits line then Some rest else command_loop rest
  end.

Section Terminal.

Variable np_sqrt : Q → Q.
Variable transcribe : list Sample → Result (list string).

(** A whole run of the terminal program: [main] writes the empty snapshot,
    the worker processes the chunks it obtains, the [finally] block
    exports.  [save_transcript_md] is the same function in both files. *)
Definition terminal_session (dir : gmap string string) (ticks : list Tick)
    (ck : Web.StopClock) : World * list Event :=
  let '(g0, e0) := save_transcript_json {| transcript := []; files := dir |} in
  let '(_, g1, e1) := Terminal.run np_sqrt transcribe Terminal.fresh g0 ticks in
  let '(g2, e2) := Web.save_transcript_md g1 ck in
  (g2, e0 ++ e1 ++ e2).

End Terminal.

End Lifecycle.

(** ** [src/tester-scripts/test_mic.py] *)

Module MicTest.

(** What the script reads of one entry of [sd.query_devices()]. *)
Record Device : Type := { name : string; max_input_channels : Z }.

(** The lines of the device list: index, name and whether the line carries
    the default marker, for the devices with an input channel.
    [default_input] is [sd.default.device[0]], an index or -1. *)
Fixpoint listing_from (i : nat) (default_input : Z) (devices : list Device)
  : list (nat * string * bool) :=
  match devices with
  | [] => []
  | d :: rest =>
      let tail := listing_from (S i) default_input rest in
      if (0 <? max_input_channels d)%Z
      then (i, name d, (Z.of_nat i =? default_input)%Z) :: tail
      else tail
  end.

Definition listing (default_input : Z) (devices : list Device)
  : list (nat * string * bool) :=
  listing_from 0 default_input devices.

Definition Qmax (a b : Q) : Q := if Qle_bool a b then b else a.

(** [np.abs(audio).mean()]. *)
Definition volume (audio : list Sample) : Q := np_mean (map Qabs audio).

(** [np.abs(audio).max()]; it raises on an empty recording. *)
Definition peak (audio : list Sample) : option Q :=
  match map Qabs audio with
  | [] => None
  | x :: xs => Some (fold_left Qmax xs x)
  end.

(** The verdict of the script: [peak > 0.01]. *)
Definition working (audio : list Sample) : option bool :=
  p ← peak audio; Some (Qlt_bool (1 # 100) p).

End MicTest.

(** ** Shapes of entries *)

Module Entries.

(** A text as the workers store it: not empty, and with nothing that
    [strip] would take away. *)
Definition trimmed (text : string) : Prop :=
  text ≠ EmptyString ∧ Text.strip text = text.

(** The time stamps of the passes of a run, in order. *)
Definition stamps (ticks : list Tick) : list string :=
  map (fun tk => timestamp (clock tk)) ticks.

End Entries.

(** ** The volume bar *)

Module Meter.

(** Two passes that differ in the clock readings of the volume bar only. *)
Definition same_but_meter (a b : Tick) : Prop :=
  chunk a = chunk b
  ∧ t_silence (clock a) = t_silence (clock b)
  ∧ timestamp (clock a) = timestamp (clock b).

(** The volume bars in a trace. *)
Definition bars (evs : list Event) : list Event := List.filter is_meter evs.

End Meter.

(** ** The store of the web program *)

Module Store.

(** What holds of the world between the steps of the process: the snapshot
    follows the transcript, the entries are well-formed, and the files are
    what the recorded writes make of the initial directory. *)
Definition sound (dir : gmap string string) (s : Web.System) : Prop :=
  in_step (Web.world s)
  ∧ Forall (fun e => Web.loggable (text e) ∧ Entries.trimmed (text e))
      (transcript (Web.world s))
  ∧ replay dir (Web.trace s) = files (Web.world s).

(** What a block of the terminal worker keeps: the other files, and
    entries whose text is trimmed. *)
Definition kept (g g' : World) : Prop :=
  (∀ name, name ≠ JSON_NAME → files g' !! name = files g !! name)
  ∧ (Forall (fun e => Entries.trimmed (text e)) (transcript g) →
     Forall (fun e => Entries.trimmed (text e)) (transcript g')).

End Store.

(** ** Passes as the queue feeds them *)

Module Queue.

(** The passes of a worker that takes the chunks [cs] off the queue with
    the clock readings [cks]. *)
Definition passes (cs : list Chunk) (cks : list Clock) : list Tick :=
  zip_with (fun c ck => {| chunk := c; clock := ck |}) cs cks.

End Queue.

(** ** Printable ASCII *)

Module Printable.

(** The characters U+0020..U+007E. *)
Definition char (c : ascii) : bool :=
  let n := N_of_ascii c in ((32 <=? n) && (n <=? 126))%N.

Fixpoint all (s : string) : bool :=
  match s with
  | EmptyString => true
  | String c r => char c && all r
  end.

End Printable.

(** ** The outer [try] of the worker of [src/transcriber.py] *)

Module Guarded.

(** What [int] raises on a nan. *)
Definition NAN_TO_INT : Exn := "cannot convert float NaN to integer".

Section Pass.

Variable np_sqrt : Q → Q.
Variable transcribe : list Sample → Result (list string).

(** Lines 75-114: the branch of a chunk that is not at or above the
    threshold, after what the volume bar has printed. *)
Definition silence_branch (w : Web.Worker) (g : World) (tk : Tick) (out : list Event)
  : Web.Worker * World * list Event :=
  if Web.heard_speech w then
    let buffer := Web.audio_buffer w ++ [chunk tk] in
    match Web.silence_start w with
    | None =>
        ({| Web.audio_buffer := buffer;
            Web.silence_start := Some (t_silence (clock tk));
            Web.last_vol_print := Web.last_vol_print w;
            Web.heard_speech := Web.heard_speech w |}, g, out)
    | Some since =>
        if Qlt_bool SILENCE_DURATION (t_silence (clock tk) - since) then
          let '(g', evs) :=
            if (0 <? length buffer)%nat
            then Web.finalize transcribe buffer g (timestamp (clock tk))
            else (g, []) in
          ({| Web.audio_buffer := []; Web.silence_start := None;
              Web.last_vol_print := Web.last_vol_print w;
              Web.heard_speech := false |}, g', out ++ evs)
        else
          ({| Web.audio_buffer := buffer; Web.silence_start := Web.silence_start w;
              Web.last_vol_print := Web.last_vol_print w;
              Web.heard_speech := Web.heard_speech w |}, g, out)
    end
  else (w, g, out).

(** One pass with a chunk from the queue, as the [try] statement of lines
    59-120 runs it.  A chunk without frames has no mean: its volume is nan
    (NumPy warns and goes on).  When a bar is due, [int] raises on the nan,
    the handler of line 119 prints the error and the pass is over: the
    chunk is not buffered and no local has changed.  When no bar is due the
    test [volume >= SILENCE_THRESHOLD] fails, as every comparison with a
    nan does, and the chunk is taken for silence.  On a chunk with frames
    the pass is [Web.loop_body]; console output is taken to succeed. *)
Definition pass (w : Web.Worker) (g : World) (tk : Tick)
  : Web.Worker * World * list Event :=
  match chunk tk with
  | [] =>
      if Qlt_bool METER_PERIOD (t_meter (clock tk) - Web.last_vol_print w)
      then (w, g, [Print (MsgError NAN_TO_INT)])
      else silence_branch w g tk []
  | _ :: _ => Web.loop_body np_sqrt transcribe w g tk
  end.

Fixpoint run (w : Web.Worker) (g : World) (ticks : list Tick)
  : Web.Worker * World * list Event :=
  match ticks with
  | [] => (w, g, [])
  | tk :: rest =>
      let '(w1, g1, evs1) := pass w g tk in
      let '(w2, g2, evs2) := run w1 g1 rest in
      (w2, g2, evs1 ++ evs2)
  end.

End Pass.

End Guarded.

(** ** The threads of [src/transcriber.py], with calls that take time

    The process of [Web.System] runs a whole pass of a worker in one piece.
    Here a pass is cut where the worker waits: at the head of its loop, in
    [audio_queue.get], and inside [model.transcribe].  The other threads go
    on meanwhile, and a worker that comes back from the engine appends to
    the transcript it finds then.  What stays in one piece: a request, a
    turn of the supervisor, a pass from the chunk to the call of the engine
    or to its end, and a pass from the return of the engine to its end. *)

Module Inflight.

(** Where a live worker is when it is not at the head of its loop: in
    [audio_queue.get], past the test of [is_recording]; or inside
    [model.transcribe], with the audio it has handed over. *)
Inductive Place : Type :=
| Waiting
| Calling (audio_data : list Sample).

(** The process and the places of its workers.  The locals of a worker
    inside the engine are its locals at the call. *)
Record System : Type := {
  base : Web.System;
  places : gmap nat Place
}.

(** [Test i]: worker [i] tests [is_recording] at the head of its loop.
    [Take i ck]: its [get] ends, with a chunk or with [queue.Empty].
    [Return i stamp]: its call of the engine returns, at time [stamp]. *)
Inductive Action : Type :=
| Capture (c : Chunk)
| Request (m : Web.Method) (path : string)
| Supervise (ck : Web.StopClock)
| Test (i : nat)
| Take (i : nat) (ck : Clock)
| Return (i : nat) (stamp : string).

Definition boot (dir : gmap string string) : System :=
  {| base := Web.boot dir; places := ∅ |}.

Section Process.

Variable np_sqrt : Q → Q.
Variable transcribe : list Sample → Result (list string).

(** The audio a pass hands to the engine, when it gets that far: the
    silence has lasted and the buffer is long enough (lines 83-89). *)
Definition call_of (w : Web.Worker) (tk : Tick) : option (list Sample) :=
  match Web.branch np_sqrt w tk with
  | Web.SilenceOver =>
      let audio_data := concat (Web.audio_buffer w ++ [chunk tk]) in
      if Qle_bool MIN_AUDIO_LENGTH (duration_of audio_data)
      then Some audio_data else None
  | _ => None
  end.

(** Lines 98-109, from the outcome of the call on (the segments read out,
    or the exception): the entry is appended to the transcript as it is
    now. *)
Definition after_call (outcome : Result (list string)) (g : World) (stamp : string)
  : World * list Event :=
  try_except
    (bind outcome (fun segments =>
       let text := Web.text_of segments in
       if Web.keeps text then
         let g1 := {| transcript := transcript g ++ [{| time := stamp; text := text |}];
                      files := files g |} in
         let '(g2, evs) := save_transcript_json g1 in
         Ok (g2, evs ++ [Print (MsgEntry stamp text); Print MsgBlank])
       else Ok (g, [Print MsgNoSpeech])))
    (fun e => (g, [Print (MsgTranscriptionError e)])).

(** [while is_recording:], line 58. *)
Definition test (s : System) (i : nat) : System :=
  match places s !! i, Web.workers (base s) !! i with
  | None, Some (Web.Alive w) =>
      if Web.is_recording (base s) then
        {| base := base s; places := <[i := Waiting]> (places s) |}
      else
        {| base :=
             {| Web.app := Web.app (base s);
                Web.is_recording := Web.is_recording (base s);
                Web.world := Web.world (base s);
                Web.audio_queue := Web.audio_queue (base s);
                Web.phase := Web.phase (base s);
                Web.workers := <[i := Web.Ended]> (Web.workers (base s));
                Web.replies := Web.replies (base s);
                Web.trace := Web.trace (base s) |};
           places := places s |}
  | _, _ => s
  end.

(** The end of [audio_queue.get(timeout=0.1)]: on an empty queue the
    worker is back at the head of its loop; with a chunk it goes through
    the loop body, up to the call of the engine when the pass gets there,
    to the end of the pass otherwise. *)
Definition take (s : System) (i : nat) (ck : Clock) : System :=
  match places s !! i, Web.workers (base s) !! i with
  | Some Waiting, Some (Web.Alive w) =>
      match Web.audio_queue (base s) with
      | [] => {| base := base s; places := delete i (places s) |}
      | c :: queue =>
          let tk := {| chunk := c; clock := ck |} in
          match call_of w tk with
          | Some audio_data =>
              let '(wm, out) := Web.meter w ck (get_volume np_sqrt c) in
              {| base :=
                   {| Web.app := Web.app (base s);
                      Web.is_recording := Web.is_recording (base s);
                      Web.world := Web.world (base s);
                      Web.audio_queue := queue;
                      Web.phase := Web.phase (base s);
                      Web.workers :=
                        <[i := Web.Alive
                                 {| Web.audio_buffer := Web.audio_buffer wm ++ [c];
                                    Web.silence_start := Web.silence_start wm;
                                    Web.last_vol_print := Web.last_vol_print wm;
                                    Web.heard_speech := Web.heard_speech wm |}]>
                          (Web.workers (base s));
                      Web.replies := Web.replies (base s);
                      Web.trace :=
                        Web.trace (base s) ++ out
                        ++ [Print (MsgTranscribing (duration_of audio_data));
                            Recognize audio_data] |};
                 places := <[i := Calling audio_data]> (places s) |}
          | None =>
              let '(w', g', evs) :=
                Web.loop_body np_sqrt transcribe w (Web.world (base s)) tk in
              {| base :=
                   {| Web.app := Web.app (base s);
                      Web.is_recording := Web.is_recording (base s);
                      Web.world := g';
                      Web.audio_queue := queue;
                      Web.phase := Web.phase (base s);
                      Web.workers := <[i := Web.Alive w']> (Web.workers (base s));
                      Web.replies := Web.replies (base s);
                      Web.trace := Web.trace (base s) ++ evs |};
                 places := delete i (places s) |}
          end
      end
  | _, _ => s
  end.

(** The return of [model.transcribe] and the rest of the pass, lines
    98-114. *)
Definition return_ (s : System) (i : nat) (stamp : string) : System :=
  match places s !! i, Web.workers (base s) !! i with
  | Some (Calling audio_data), Some (Web.Alive w) =>
      let '(g', evs) :=
        after_call (transcribe audio_data) (Web.world (base s)) stamp in
      {| base :=
           {| Web.app := Web.app (base s);
              Web.is_recording := Web.is_recording (base s);
              Web.world := g';
              Web.audio_queue := Web.audio_queue (base s);
              Web.phase := Web.phase (base s);
              Web.workers :=
                <[i := Web.Alive
                         {| Web.audio_buffer := []; Web.silence_start := None;
                            Web.last_vol_print := Web.last_vol_print w;
                            Web.heard_speech := false |}]>
                  (Web.workers (base s));
              Web.replies := Web.replies (base s);
              Web.trace := Web.trace (base s) ++ evs |};
         places := delete i (places s) |}
  | _, _ => s
  end.

(** The callback, a request and a turn of the supervisor are those of
    [Web.step]. *)
Definition lift (s : System) (a : Web.Action) : System :=
  {| base := Web.step np_sqrt transcribe (base s) a; places := places s |}.

Definition step (s : System) (a : Action) : System :=
  match a with
  | Capture c => lift s (Web.Capture c)
  | Request m path => lift s (Web.Request m path)
  | Supervise ck => lift s (Web.Supervise ck)
  | Test i => test s i
  | Take i ck => take s i ck
  | Return i stamp => return_ s i stamp
  end.

Definition exec (s : System) (acts : list Action) : System :=
  fold_left step acts s.

(** A pass of worker [i] with nothing in between: the test, the chunk and,
    where the pass calls the engine, its return. *)
Definition whole_pass (s : System) (i : nat) (ck : Clock) : System :=
  return_ (take (test s i) i ck) i (timestamp ck).

End Process.

(** An action that is no request to start a session. *)
Definition no_start (a : Action) : Prop :=
  match a with
  | Request Web.POST path => path ≠ "/api/start"
  | _ => True
  end.

(** The [finally] block of [main]. *)
Definition shutdown (s : System) (ck : Web.StopClock) : System :=
  {| base := Lifecycle.shutdown (base s) ck; places := places s |}.

(** A process at rest: no session runs and none is asked for, every worker
    is at the head of its loop or has ended, the transcript is empty. *)
Definition settled (s : System) : Prop :=
  places s = ∅
  ∧ Web.is_recording (base s) = false
  ∧ Web.phase (base s) = Web.AwaitStart
  ∧ Web.start_event (Web.app (base s)) = false
  ∧ transcript (Web.world (base s)) = [].

(** The steps that make up a step of [Web.step]. *)
Definition refine (a : Web.Action) : list Action :=
  match a with
  | Web.Capture c => [Capture c]
  | Web.Request m path => [Request m path]
  | Web.Supervise ck => [Supervise ck]
  | Web.Work i ck => [Test i; Take i ck; Return i (timestamp ck)]
  end.

End Inflight.

(** ** More sample inputs *)

Module Cases.

(** The same pass with a clock of the volume bar that never moves. *)
Definition never_metered (tk : Tick) : Tick :=
  {| chunk := chunk tk;
     clock := {| t_meter := 0; t_print := 0; t_silence := t_silence (clock tk);
                 timestamp := timestamp (clock tk) |} |}.

(** An utterance: 0.3 s of speech, then a pause of three seconds. *)
Definition utterance : list Tick :=
  [Demo.loud 4800 0 "10:00:00"; Demo.hush 1024 1 "10:00:01";
   Demo.hush 1024 3 "10:00:03"].

Definition hello : Entry := {| time := "10:00:03"; text := "Hello" |}.

(** A world with one entry logged and saved. *)
Definition one_entry : World :=
  {| transcript := [hello];
     files := {[ JSON_NAME := Json.dumps (Json.of_transcript [hello]) ]} |}.

(** A session that runs, with a stop requested, a worker in the middle of
    an utterance and a chunk waiting in the queue. *)
Definition stopping_session : Web.System :=
  {| Web.app := {| Web.recording := false; Web.start_event := false;
                   Web.stop_event := true |};
     Web.is_recording := true; Web.world := one_entry;
     Web.audio_queue := [repeat 1%Q 1024]; Web.phase := Web.AwaitStop;
     Web.workers := [Web.Alive (Demo.pausing 4800)]; Web.replies := [];
     Web.trace := [] |}.

(** A session that runs with a fresh worker and nothing requested. *)
Definition running_session (queue : list Chunk) : Web.System :=
  {| Web.app := {| Web.recording := true; Web.start_event := false;
                   Web.stop_event := false |};
     Web.is_recording := true; Web.world := Demo.blank;
     Web.audio_queue := queue; Web.phase := Web.AwaitStop;
     Web.workers := [Web.Alive Web.fresh]; Web.replies := [];
     Web.trace := [] |}.

(** The session of [running_session] up to the call of the engine on its
    first utterance, and a request to stop while the call lasts. *)
Definition in_flight : Inflight.System :=
  Inflight.exec sqrt_floor (Demo.says [" Hello"])
    {| Inflight.base := running_session (map chunk utterance);
       Inflight.places := ∅ |}
    [Inflight.Test 0; Inflight.Take 0 (Demo.at_time 0 "10:00:00");
     Inflight.Test 0; Inflight.Take 0 (Demo.at_time 1 "10:00:01");
     Inflight.Test 0; Inflight.Take 0 (Demo.at_time 3 "10:00:03");
     Inflight.Request Web.POST "/api/stop"].

(** [stopping_session] with its worker at the head of the loop. *)
Definition at_rest : Inflight.System :=
  {| Inflight.base := stopping_session; Inflight.places := ∅ |}.

Definition devices : list MicTest.Device :=
  [ {| MicTest.name := "Speakers"; MicTest.max_input_channels := 0 |};
    {| MicTest.name := "Built-in Microphone"; MicTest.max_input_channels := 2 |};
    {| MicTest.name := "USB Audio"; MicTest.max_input_channels := 1 |} ].

End Cases.

(** * Properties *)

Example strip_ex : Text.strip "  you. " = "you.".
Proof. reflexivity. Qed.

Example join_ex : Text.join " " [" Hello"; " world."] = " Hello  world.".
Proof. reflexivity. Qed.

Example dumps_status : Json.dumps (Json.JObj [("recording", Json.JBool false)])
                       = "{" +:+ Json.quote "recording" +:+ ": false}".
Proof. reflexivity. Qed.

Example escape_ex :
  Json.escape (String (ascii_of_N 233) (String "a" (String Json.dquote "b")))
  = String Json.backslash "u00e9a" +:+ String Json.backslash (String Json.dquote "b").
Proof. reflexivity. Qed.

Example loads_ex :
  Json.loads_entries
    ("[{" +:+ Json.quote "time" +:+ ": " +:+ Json.quote "10:00:01" +:+ ", "
     +:+ Json.quote "text" +:+ ": "
     +:+ String Json.dquote ("caf" +:+ String Json.backslash "u00E9 "
                             +:+ String Json.backslash "/ok")
     +:+ String Json.dquote "} ,{" +:+ Json.quote "time" +:+ ":"
     +:+ Json.quote "10:00:09" +:+ "," +:+ Json.quote "text" +:+ ":"
     +:+ Json.quote "b" +:+ "} ]")
  = Some [ {| time := "10:00:01";
              text := String "c" (String "a" (String "f"
                        (String (ascii_of_N 233) " /ok"))) |};
           {| time := "10:00:09"; text := "b" |} ].
Proof. reflexivity. Qed.

(** ** Comparisons on rationals *)

Lemma Qle_bool_true (a b : Q) : Qle_bool a b = true ↔ (a <= b)%Q.
Proof. apply Qle_bool_iff. Qed.

Lemma Qle_bool_false (a b : Q) : Qle_bool a b = false ↔ (b < a)%Q.
Proof.
  split; intros H.
  - apply Qnot_le_lt. intros Hle. apply Qle_bool_iff in Hle. congruence.
  - destruct (Qle_bool a b) eqn:E; [|reflexivity].
    apply Qle_bool_iff in E. exfalso. exact (Qlt_not_le _ _ H E).
Qed.

Lemma Qlt_bool_true (a b : Q) : Qlt_bool a b = true ↔ (a < b)%Q.
Proof.
  unfold Qlt_bool. rewrite negb_true_iff. apply Qle_bool_false.
Qed.

Lemma Qlt_bool_false (a b : Q) : Qlt_bool a b = false ↔ (b <= a)%Q.
Proof.
  unfold Qlt_bool. rewrite negb_false_iff. apply Qle_bool_true.
Qed.

(** ** The segmentation loop of [src/transcriber.py] *)

Section WebWorker.

Variable np_sqrt : Q → Q.
Variable transcribe : list Sample → Result (list string).

Local Abbreviation loop_body := (Web.loop_body np_sqrt transcribe).
Local Abbreviation finalize := (Web.finalize transcribe).
Local Abbreviation attempt := (Web.attempt transcribe).
Local Abbreviation run := (Web.run np_sqrt transcribe).
Local Abbreviation volume_of := (get_volume np_sqrt).

Lemma meter_segmentation w ck v :
  Web.segmentation (Web.meter w ck v).1 = Web.segmentation w.
Proof. unfold Web.meter. destruct (Qlt_bool _ _); reflexivity. Qed.

Lemma meter_unmetered w ck v : unmetered (Web.meter w ck v).2 = [].
Proof. unfold Web.meter. destruct (Qlt_bool _ _); reflexivity. Qed.

Lemma meter_fields w ck v wm out :
  Web.meter w ck v = (wm, out) →
  Web.audio_buffer wm = Web.audio_buffer w
  ∧ Web.silence_start wm = Web.silence_start w
  ∧ Web.heard_speech wm = Web.heard_speech w
  ∧ unmetered out = [].
Proof.
  unfold Web.meter. destruct (Qlt_bool _ _); intros [= <- <-]; auto.
Qed.

Lemma unmetered_app (a b : list Event) :
  unmetered (a ++ b) = unmetered a ++ unmetered b.
Proof. unfold unmetered. apply List.filter_app. Qed.

Lemma attempt_unmetered audio g stamp :
  unmetered (attempt audio g stamp).2 = (attempt audio g stamp).2.
Proof.
  unfold Web.attempt, try_except, bind.
  destruct (transcribe audio) as [segs|e]; [|reflexivity].
  destruct (Web.keeps _); reflexivity.
Qed.

Lemma finalize_unmetered buffer g stamp :
  unmetered (finalize buffer g stamp).2 = (finalize buffer g stamp).2.
Proof.
  unfold Web.finalize. destruct (Qle_bool _ _); [|reflexivity].
  pose proof (attempt_unmetered (concat buffer) g stamp) as H.
  destruct (attempt _ _ _) as [g' evs]. simpl in *.
  unfold unmetered in *. simpl. now rewrite H.
Qed.

Lemma meter_recognized w ck v : recognized (Web.meter w ck v).2 = [].
Proof. unfold Web.meter. destruct (Qlt_bool _ _); reflexivity. Qed.

Lemma recognized_app (a b : list Event) :
  recognized (a ++ b) = recognized a ++ recognized b.
Proof. unfold recognized. apply flat_map_app. Qed.

Lemma attempt_recognized audio g stamp :
  recognized (attempt audio g stamp).2 = [audio].
Proof.
  unfold Web.attempt, try_except, bind.
  destruct (transcribe audio) as [segs|e]; [|reflexivity].
  destruct (Web.keeps _); reflexivity.
Qed.

Lemma finalize_recognized buffer g stamp :
  (MIN_AUDIO_LENGTH <= duration_of (concat buffer))%Q →
  recognized (finalize buffer g stamp).2 = [concat buffer].
Proof.
  intros Hd. unfold Web.finalize.
  apply Qle_bool_true in Hd. rewrite Hd.
  pose proof (attempt_recognized (concat buffer) g stamp) as H.
  destruct (attempt _ _ _) as [g' evs]. exact H.
Qed.

(** The shape of one pass, with the meter set aside: the four branches of
    the loop body by their guards. *)
Lemma loop_body_sound w g tk :
  (Web.SILENCE_THRESHOLD <= volume_of (chunk tk))%Q →
  ∃ w' out,
    loop_body w g tk = (w', g, out)
    ∧ Web.segmentation w' = (Web.audio_buffer w ++ [chunk tk], None, true)
    ∧ unmetered out = [] ∧ recognized out = [].
Proof.
  intros Hv. apply Qle_bool_true in Hv.
  unfold Web.loop_body. rewrite Hv.
  pose proof (meter_recognized w (clock tk) (volume_of (chunk tk))) as Hr.
  destruct (Web.meter _ _ _) as [wm out] eqn:Hm.
  apply meter_fields in Hm as (Hb & _ & _ & Hu).
  eexists _, _. split; [reflexivity|].
  split; [unfold Web.segmentation; simpl; congruence | auto].
Qed.

Lemma loop_body_discard w g tk :
  (volume_of (chunk tk) < Web.SILENCE_THRESHOLD)%Q →
  Web.heard_speech w = false →
  ∃ w' out,
    loop_body w g tk = (w', g, out)
    ∧ Web.segmentation w' = Web.segmentation w
    ∧ unmetered out = [] ∧ recognized out = [].
Proof.
  intros Hv Hh. apply Qle_bool_false in Hv.
  unfold Web.loop_body. rewrite Hv.
  pose proof (meter_recognized w (clock tk) (volume_of (chunk tk))) as Hr.
  destruct (Web.meter _ _ _) as [wm out] eqn:Hm.
  apply meter_fields in Hm as (Hb & Hs & Hh' & Hu). cbv beta iota zeta.
  rewrite Hh', Hh.
  eexists _, _. split; [reflexivity|].
  split; [unfold Web.segmentation; congruence | auto].
Qed.

Lemma loop_body_silence_begins w g tk :
  (volume_of (chunk tk) < Web.SILENCE_THRESHOLD)%Q →
  Web.heard_speech w = true →
  Web.silence_start w = None →
  ∃ w' out,
    loop_body w g tk = (w', g, out)
    ∧ Web.segmentation w'
      = (Web.audio_buffer w ++ [chunk tk], Some (t_silence (clock tk)), true)
    ∧ unmetered out = [] ∧ recognized out = [].
Proof.
  intros Hv Hh Hn. apply Qle_bool_false in Hv.
  unfold Web.loop_body. rewrite Hv.
  pose proof (meter_recognized w (clock tk) (volume_of (chunk tk))) as Hr.
  destruct (Web.meter _ _ _) as [wm out] eqn:Hm.
  apply meter_fields in Hm as (Hb & Hs & Hh' & Hu). cbv beta iota zeta.
  rewrite Hh', Hh, Hs, Hn.
  eexists _, _. split; [reflexivity|].
  split; [unfold Web.segmentation; simpl; congruence | auto].
Qed.

Lemma loop_body_silence_goes_on w g tk since :
  (volume_of (chunk tk) < Web.SILENCE_THRESHOLD)%Q →
  Web.heard_speech w = true →
  Web.silence_start w = Some since →
  (t_silence (clock tk) - since <= SILENCE_DURATION)%Q →
  ∃ w' out,
    loop_body w g tk = (w', g, out)
    ∧ Web.segmentation w' = (Web.audio_buffer w ++ [chunk tk], Some since, true)
    ∧ unmetered out = [] ∧ recognized out = [].
Proof.
  intros Hv Hh Hn Ht. apply Qle_bool_false in Hv. apply Qlt_bool_false in Ht.
  unfold Web.loop_body. rewrite Hv.
  pose proof (meter_recognized w (clock tk) (volume_of (chunk tk))) as Hr.
  destruct (Web.meter _ _ _) as [wm out] eqn:Hm.
  apply meter_fields in Hm as (Hb & Hs & Hh' & Hu). cbv beta iota zeta.
  rewrite Hh', Hh, Hs, Hn, Ht.
  eexists _, _. split; [reflexivity|].
  split; [unfold Web.segmentation; simpl; congruence | auto].
Qed.

Lemma loop_body_silence_over w g tk since :
  (volume_of (chunk tk) < Web.SILENCE_THRESHOLD)%Q →
  Web.heard_speech w = true →
  Web.silence_start w = Some since →
  (SILENCE_DURATION < t_silence (clock tk) - since)%Q →
  ∃ w' out,
    loop_body w g tk
    = (w', (finalize (Web.audio_buffer w ++ [chunk tk]) g (timestamp (clock tk))).1,
       out ++ (finalize (Web.audio_buffer w ++ [chunk tk]) g (timestamp (clock tk))).2)
    ∧ Web.segmentation w' = Web.segmentation Web.fresh
    ∧ unmetered out = [] ∧ recognized out = [].
Proof.
  intros Hv Hh Hn Ht. apply Qle_bool_false in Hv. apply Qlt_bool_true in Ht.
  unfold Web.loop_body. rewrite Hv.
  pose proof (meter_recognized w (clock tk) (volume_of (chunk tk))) as Hr.
  destruct (Web.meter _ _ _) as [wm out] eqn:Hm.
  apply meter_fields in Hm as (Hb & Hs & Hh' & Hu). cbv beta iota zeta.
  rewrite Hh', Hh, Hs, Hn, Ht, Hb.
  replace (0 <? length (Web.audio_buffer w ++ [chunk tk]))%nat with true.
  2:{ symmetry. apply Nat.ltb_lt. rewrite length_app. simpl. lia. }
  destruct (finalize _ _ _) as [g' evs].
  eexists _, _. split; [reflexivity|]. auto.
Qed.

(** C1.  After speech has been observed ([heard_speech] is set), one pass
    of the loop of [src/transcriber.py] does the following, the volume bar
    apart.  A chunk at or above the threshold is appended to the buffer and
    clears the silence timer.  A chunk below the threshold is appended to
    the buffer as well; it starts the timer when none runs, and leaves a
    running timer as it is while the elapsed silence is at most 1.5 s.
    Once the elapsed silence exceeds 1.5 s the buffer, with this chunk, is
    handed to the finalization block (which calls the recognition engine on
    the flattened buffer when it lasts 0.3 s or more), and the locals are
    reset: empty buffer, no timer, no speech observed. *)
Theorem trailing_silence_machine (w : Web.Worker) (g : World) (tk : Tick) :
  Web.heard_speech w = true →
  let buffer := Web.audio_buffer w ++ [chunk tk] in
  let now := t_silence (clock tk) in
  let w' := (loop_body w g tk).1.1 in
  let g' := (loop_body w g tk).1.2 in
  let evs := (loop_body w g tk).2 in
  ((Web.SILENCE_THRESHOLD <= volume_of (chunk tk))%Q →
     Web.segmentation w' = (buffer, None, true) ∧ g' = g ∧ unmetered evs = [])
  ∧ ((volume_of (chunk tk) < Web.SILENCE_THRESHOLD)%Q →
     Web.silence_start w = None →
     Web.segmentation w' = (buffer, Some now, true) ∧ g' = g ∧ unmetered evs = [])
  ∧ (∀ since,
     (volume_of (chunk tk) < Web.SILENCE_THRESHOLD)%Q →
     Web.silence_start w = Some since →
     (now - since <= SILENCE_DURATION)%Q →
     Web.segmentation w' = (buffer, Some since, true) ∧ g' = g ∧ unmetered evs = [])
  ∧ (∀ since,
     (volume_of (chunk tk) < Web.SILENCE_THRESHOLD)%Q →
     Web.silence_start w = Some since →
     (SILENCE_DURATION < now - since)%Q →
     Web.segmentation w' = ([], None, false)
     ∧ (g', unmetered evs) = finalize buffer g (timestamp (clock tk))
     ∧ ((MIN_AUDIO_LENGTH <= duration_of (concat buffer))%Q →
        recognized evs = [concat buffer])).
Proof.
  intros Hh buffer now w' g' evs. subst w' g' evs.
  split; [|split; [|split]].
  - intros Hv.
    destruct (loop_body_sound w g tk Hv) as (w1 & out & -> & Hseg & Hu & _).
    auto.
  - intros Hv Hn.
    destruct (loop_body_silence_begins w g tk Hv Hh Hn)
      as (w1 & out & -> & Hseg & Hu & _).
    auto.
  - intros since Hv Hs Ht.
    destruct (loop_body_silence_goes_on w g tk since Hv Hh Hs Ht)
      as (w1 & out & -> & Hseg & Hu & _).
    auto.
  - intros since Hv Hs Ht.
    destruct (loop_body_silence_over w g tk since Hv Hh Hs Ht)
      as (w1 & out & -> & Hseg & Hu & Hr).
    cbn [fst snd]. fold buffer.
    split; [exact Hseg|]. split.
    + rewrite unmetered_app, Hu, finalize_unmetered. simpl.
      now destruct (finalize buffer g _).
    + intros Hd. rewrite recognized_app, Hr. simpl.
      now apply finalize_recognized.
Qed.

Local Abbreviation branch := (Web.branch np_sqrt).
Local Abbreviation quiet := (Web.quiet np_sqrt).

(** What the guards say in each branch. *)
Lemma branch_guards w tk :
  match branch w tk with
  | Web.Sound => (Web.SILENCE_THRESHOLD <= volume_of (chunk tk))%Q
  | Web.SilenceBegins =>
      quiet tk ∧ Web.heard_speech w = true ∧ Web.silence_start w = None
  | Web.SilenceGoesOn =>
      quiet tk ∧ Web.heard_speech w = true
      ∧ ∃ since, Web.silence_start w = Some since
                 ∧ (t_silence (clock tk) - since <= SILENCE_DURATION)%Q
  | Web.SilenceOver =>
      quiet tk ∧ Web.heard_speech w = true
      ∧ ∃ since, Web.silence_start w = Some since
                 ∧ (SILENCE_DURATION < t_silence (clock tk) - since)%Q
  | Web.Discard => quiet tk ∧ Web.heard_speech w = false
  end.
Proof.
  unfold Web.branch, Web.quiet.
  destruct (Qle_bool _ _) eqn:Hv.
  { now apply Qle_bool_true. }
  apply Qle_bool_false in Hv.
  destruct (Web.heard_speech w) eqn:Hh; [|auto].
  destruct (Web.silence_start w) as [since|] eqn:Hs; [|auto].
  destruct (Qlt_bool _ _) eqn:Ht.
  - apply Qlt_bool_true in Ht. eauto.
  - apply Qlt_bool_false in Ht. eauto.
Qed.

(** One pass, branch by branch, the volume bar apart. *)
Lemma loop_body_by_branch w g tk :
  let buffer := Web.audio_buffer w ++ [chunk tk] in
  ∃ w' out,
    unmetered out = [] ∧ recognized out = []
    ∧ match branch w tk with
      | Web.Sound =>
          loop_body w g tk = (w', g, out)
          ∧ Web.segmentation w' = (buffer, None, true)
      | Web.SilenceBegins =>
          loop_body w g tk = (w', g, out)
          ∧ Web.segmentation w' = (buffer, Some (t_silence (clock tk)), true)
      | Web.SilenceGoesOn =>
          loop_body w g tk = (w', g, out)
          ∧ Web.segmentation w' = (buffer, Web.silence_start w, true)
      | Web.SilenceOver =>
          loop_body w g tk
          = (w', (finalize buffer g (timestamp (clock tk))).1,
             out ++ (finalize buffer g (timestamp (clock tk))).2)
          ∧ Web.segmentation w' = ([], None, false)
      | Web.Discard =>
          loop_body w g tk = (w', g, out)
          ∧ Web.segmentation w' = Web.segmentation w
      end.
Proof.
  intros buffer. pose proof (branch_guards w tk) as H.
  destruct (branch w tk).
  - destruct (loop_body_sound w g tk H) as (w' & out & ? & ? & ? & ?). eauto 10.
  - destruct H as (Hv & Hh & Hs).
    destruct (loop_body_silence_begins w g tk Hv Hh Hs)
      as (w' & out & ? & ? & ? & ?). eauto 10.
  - destruct H as (Hv & Hh & since & Hs & Ht).
    destruct (loop_body_silence_goes_on w g tk since Hv Hh Hs Ht)
      as (w' & out & ? & ? & ? & ?). rewrite Hs. eauto 10.
  - destruct H as (Hv & Hh & since & Hs & Ht).
    destruct (loop_body_silence_over w g tk since Hv Hh Hs Ht)
      as (w' & out & ? & ? & ? & ?). eauto 10.
  - destruct H as (Hv & Hh).
    destruct (loop_body_discard w g tk Hv Hh) as (w' & out & ? & ? & ? & ?).
    eauto 10.
Qed.

Lemma branch_segmentation w1 w2 tk :
  Web.segmentation w1 = Web.segmentation w2 → branch w1 tk = branch w2 tk.
Proof.
  unfold Web.segmentation, Web.branch. intros [= Hb Hs Hh].
  now rewrite Hs, Hh.
Qed.

(** Two workers that differ in [last_vol_print] only go through the same
    pass: same world, same events but for the volume bar, same buffer,
    timer and flag afterwards. *)
Lemma loop_body_congruent w1 w2 g tk :
  Web.segmentation w1 = Web.segmentation w2 →
  Web.segmentation (loop_body w1 g tk).1.1 = Web.segmentation (loop_body w2 g tk).1.1
  ∧ (loop_body w1 g tk).1.2 = (loop_body w2 g tk).1.2
  ∧ unmetered (loop_body w1 g tk).2 = unmetered (loop_body w2 g tk).2.
Proof.
  intros Hseg.
  pose proof (branch_segmentation w1 w2 tk Hseg) as Hbr.
  destruct (loop_body_by_branch w1 g tk) as (w1' & o1 & Hu1 & _ & H1).
  destruct (loop_body_by_branch w2 g tk) as (w2' & o2 & Hu2 & _ & H2).
  rewrite Hbr in H1.
  pose proof Hseg as Hseg'. unfold Web.segmentation in Hseg'.
  injection Hseg' as Hb Hs Hh. rewrite Hb, ?Hs in H1.
  destruct (branch w2 tk); destruct H1 as [-> S1]; destruct H2 as [-> S2];
    cbn [fst snd]; rewrite ?unmetered_app, ?Hu1, ?Hu2;
    repeat split; congruence.
Qed.

Lemma run_app w g a b :
  run w g (a ++ b)
  = let '(w1, g1, evs1) := run w g a in
    let '(w2, g2, evs2) := run w1 g1 b in
    (w2, g2, evs1 ++ evs2).
Proof.
  revert w g. induction a as [|tk a IH]; intros w g; simpl.
  - now destruct (run w g b) as [[w2 g2] evs2].
  - destruct (loop_body w g tk) as [[w1 g1] evs1]. rewrite IH.
    destruct (run w1 g1 a) as [[w2 g2] evs2].
    destruct (run w2 g2 b) as [[w3 g3] evs3].
    now rewrite app_assoc.
Qed.

Lemma run_congruent ticks : ∀ w1 w2 g,
  Web.segmentation w1 = Web.segmentation w2 →
  Web.segmentation (run w1 g ticks).1.1 = Web.segmentation (run w2 g ticks).1.1
  ∧ (run w1 g ticks).1.2 = (run w2 g ticks).1.2
  ∧ unmetered (run w1 g ticks).2 = unmetered (run w2 g ticks).2.
Proof.
  induction ticks as [|tk rest IH]; intros w1 w2 g Hseg; simpl.
  - auto.
  - destruct (loop_body_congruent w1 w2 g tk Hseg) as (Hs & Hg & Hu).
    destruct (loop_body w1 g tk) as [[w1' g1] e1].
    destruct (loop_body w2 g tk) as [[w2' g2] e2].
    cbn [fst snd] in *. subst g2.
    destruct (IH w1' w2' g1 Hs) as (Hs' & Hg' & Hu').
    destruct (run w1' g1 rest) as [[w1'' g1'] e1'].
    destruct (run w2' g1 rest) as [[w2'' g2'] e2'].
    cbn [fst snd] in *. rewrite !unmetered_app. repeat split; congruence.
Qed.

(** A pass over a quiet chunk before any speech leaves everything as it
    was. *)
Lemma run_quiet ticks : ∀ w g,
  Forall quiet ticks →
  Web.heard_speech w = false →
  Web.segmentation (run w g ticks).1.1 = Web.segmentation w
  ∧ (run w g ticks).1.2 = g
  ∧ unmetered (run w g ticks).2 = []
  ∧ recognized (run w g ticks).2 = [].
Proof.
  induction ticks as [|tk rest IH]; intros w g Hq Hh; simpl.
  - auto.
  - inversion Hq as [|? ? Hq1 Hq2]; subst.
    destruct (loop_body_discard w g tk Hq1 Hh) as (w1 & out & -> & Hs & Hu & Hr).
    assert (Hh1 : Web.heard_speech w1 = false).
    { unfold Web.segmentation in Hs. congruence. }
    destruct (IH w1 g Hq2 Hh1) as (Hs' & Hg' & Hu' & Hr').
    destruct (run w1 g rest) as [[w2 g2] e2]. cbn [fst snd] in *.
    rewrite unmetered_app, recognized_app, Hu, Hr, Hu', Hr'.
    repeat split; congruence.
Qed.

Lemma recognized_unmetered (evs : list Event) :
  recognized (unmetered evs) = recognized evs.
Proof.
  induction evs as [|ev evs IH]; [reflexivity|].
  destruct ev as [m| | |]; simpl; try (now rewrite IH).
  destruct m; simpl; now rewrite ?IH.
Qed.

(** C3 (as amended: [src/transcriber.py]).  When every chunk the worker
    obtains in a session is below the silence threshold, the transcript
    stays empty, the recognition engine is never called, nothing is
    buffered, and the world (transcript and files) is left as it was; the
    worker prints nothing but the volume bar. *)
Theorem all_silence_session (ticks : list Tick) (g : World) :
  Forall quiet ticks →
  transcript g = [] →
  transcript (run Web.fresh g ticks).1.2 = []
  ∧ recognized (run Web.fresh g ticks).2 = []
  ∧ (run Web.fresh g ticks).1.2 = g
  ∧ Web.audio_buffer (run Web.fresh g ticks).1.1 = []
  ∧ unmetered (run Web.fresh g ticks).2 = [].
Proof.
  intros Hq Hg.
  destruct (run_quiet ticks Web.fresh g Hq eq_refl) as (Hs & Hw & Hu & Hr).
  rewrite Hw. repeat split; auto.
  unfold Web.segmentation in Hs. simpl in Hs. congruence.
Qed.

(** C2 (as amended: [src/transcriber.py]).  Chunks below the threshold
    that arrive before any speech are not buffered: after them the buffer
    is still empty, and whatever follows, the session goes on exactly as if
    they had never arrived: same calls of the recognition engine on the
    same audio, same transcript and files, same output but for the volume
    bar. *)
Theorem leading_silence_is_dropped (pre rest : list Tick) (g : World) :
  Forall quiet pre →
  Web.audio_buffer (run Web.fresh g pre).1.1 = []
  ∧ recognized (run Web.fresh g (pre ++ rest)).2
    = recognized (run Web.fresh g rest).2
  ∧ (run Web.fresh g (pre ++ rest)).1.2 = (run Web.fresh g rest).1.2
  ∧ unmetered (run Web.fresh g (pre ++ rest)).2
    = unmetered (run Web.fresh g rest).2
  ∧ Web.segmentation (run Web.fresh g (pre ++ rest)).1.1
    = Web.segmentation (run Web.fresh g rest).1.1.
Proof.
  intros Hq.
  destruct (run_quiet pre Web.fresh g Hq eq_refl) as (Hs & Hw & Hu & Hr).
  rewrite run_app.
  destruct (run Web.fresh g pre) as [[w1 g1] e1]. cbn [fst snd] in *. subst g1.
  destruct (run_congruent rest w1 Web.fresh g Hs) as (Hs' & Hg' & Hu').
  destruct (run w1 g rest) as [[w2 g2] e2]. cbn [fst snd] in *.
  split. { unfold Web.segmentation in Hs. simpl in Hs. congruence. }
  assert (Hun : unmetered (e1 ++ e2) = unmetered (run Web.fresh g rest).2).
  { now rewrite unmetered_app, Hu. }
  split. { now rewrite <- recognized_unmetered, Hun, recognized_unmetered. }
  auto.
Qed.

(** Whenever speech has been observed something is buffered. *)
Lemma loop_body_keeps_buffer w g tk :
  (Web.heard_speech w = true → Web.audio_buffer w ≠ []) →
  Web.heard_speech (loop_body w g tk).1.1 = true →
  Web.audio_buffer (loop_body w g tk).1.1 ≠ [].
Proof.
  intros Hinv.
  destruct (loop_body_by_branch w g tk) as (w' & out & _ & _ & H).
  destruct (branch w tk); destruct H as [-> Hs]; cbn [fst snd];
    unfold Web.segmentation in Hs; injection Hs as Hb Ht Hh;
    rewrite Hb, Hh; intros Hh'; try discriminate;
    try (intros E; now apply app_eq_nil in E as [_ E]).
  now apply Hinv.
Qed.

Lemma run_keeps_buffer ticks : ∀ w g,
  (Web.heard_speech w = true → Web.audio_buffer w ≠ []) →
  Web.heard_speech (run w g ticks).1.1 = true →
  Web.audio_buffer (run w g ticks).1.1 ≠ [].
Proof.
  induction ticks as [|tk rest IH]; intros w g Hinv; simpl; [exact Hinv|].
  pose proof (loop_body_keeps_buffer w g tk Hinv) as H1.
  destruct (loop_body w g tk) as [[w1 g1] e1]. cbn [fst snd] in H1.
  specialize (IH w1 g1 H1).
  now destruct (run w1 g1 rest) as [[w2 g2] e2].
Qed.

(** The four ways the finalization block can end. *)
Lemma finalize_outcomes buffer g stamp :
  let audio := concat buffer in
  let d := duration_of audio in
  ((d < MIN_AUDIO_LENGTH)%Q ∧ finalize buffer g stamp = (g, []))
  ∨ ((MIN_AUDIO_LENGTH <= d)%Q ∧ ∃ e,
       transcribe audio = Raise e
       ∧ finalize buffer g stamp
         = (g, [Print (MsgTranscribing d); Recognize audio;
                Print (MsgTranscriptionError e)]))
  ∨ ((MIN_AUDIO_LENGTH <= d)%Q ∧ ∃ segments,
       transcribe audio = Ok segments
       ∧ Web.keeps (Web.text_of segments) = false
       ∧ finalize buffer g stamp
         = (g, [Print (MsgTranscribing d); Recognize audio; Print MsgNoSpeech]))
  ∨ ((MIN_AUDIO_LENGTH <= d)%Q ∧ ∃ segments,
       transcribe audio = Ok segments
       ∧ Web.keeps (Web.text_of segments) = true
       ∧ let text := Web.text_of segments in
         let log := transcript g ++ [{| time := stamp; text := text |}] in
         let content := Json.dumps (Json.of_transcript log) in
         finalize buffer g stamp
         = ({| transcript := log; files := <[JSON_NAME := content]> (files g) |},
            [Print (MsgTranscribing d); Recognize audio;
             OpenW JSON_NAME; Wrote JSON_NAME content;
             Print (MsgEntry stamp text); Print MsgBlank])).
Proof.
  intros audio d. unfold Web.finalize. fold audio. fold d.
  destruct (Qle_bool MIN_AUDIO_LENGTH d) eqn:Hd.
  2:{ left. apply Qle_bool_false in Hd. auto. }
  apply Qle_bool_true in Hd. right.
  unfold Web.attempt, try_except, bind.
  destruct (transcribe audio) as [segments|e] eqn:Htr.
  2:{ left. eauto. }
  right. destruct (Web.keeps (Web.text_of segments)) eqn:Hk.
  - right. split; [exact Hd|]. exists segments. auto.
  - left. split; [exact Hd|]. exists segments. auto.
Qed.

(** C10.  In every state the worker of [src/transcriber.py] reaches from
    its initial locals: the buffer is non-empty whenever [heard_speech] is
    set; the next pass reaches the finalization site only on a chunk below
    the threshold with [heard_speech] set, and the guard
    [len(audio_buffer) > 0] holds there; and after the finalization block,
    however it ends (too short, recognition error, filtered, or logged),
    the locals are reset to an empty buffer, no timer and no speech
    observed.  In every other branch the transcript and the files are left
    alone and nothing but the volume bar is printed. *)
Theorem worker_invariant (ticks : list Tick) (g0 : World) :
  let w := (run Web.fresh g0 ticks).1.1 in
  (Web.heard_speech w = true → Web.audio_buffer w ≠ [])
  ∧ ∀ g tk,
      let buffer := Web.audio_buffer w ++ [chunk tk] in
      match branch w tk with
      | Web.SilenceOver =>
          quiet tk ∧ Web.heard_speech w = true
          ∧ (0 <? length buffer)%nat = true
          ∧ ∃ w' out,
              loop_body w g tk
              = (w', (finalize buffer g (timestamp (clock tk))).1,
                 out ++ (finalize buffer g (timestamp (clock tk))).2)
              ∧ unmetered out = []
              ∧ Web.segmentation w' = ([], None, false)
      | _ =>
          (loop_body w g tk).1.2 = g ∧ unmetered (loop_body w g tk).2 = []
      end.
Proof.
  intros w. split.
  - apply run_keeps_buffer. discriminate.
  - intros g tk buffer.
    pose proof (branch_guards w tk) as Hg.
    destruct (loop_body_by_branch w g tk) as (w' & out & Hu & _ & H).
    destruct (branch w tk); try (destruct H as [-> _]; now cbn [fst snd]).
    destruct Hg as (Hq & Hh & _). destruct H as [Hl Hs].
    repeat split; auto.
    + apply Nat.ltb_lt. unfold buffer. rewrite length_app. simpl. lia.
    + eauto.
Qed.

(** *** The text filter *)

Lemma truthy_nonempty (s : string) : Text.truthy s = true ↔ s ≠ EmptyString.
Proof. destruct s; simpl; split; congruence. Qed.

Lemma mem_In (x : string) (xs : list string) : Text.mem x xs = true ↔ In x xs.
Proof.
  unfold Text.mem. rewrite existsb_exists. split.
  - intros (y & Hy & E). apply String.eqb_eq in E. now subst.
  - intros H. exists x. split; [exact H | apply String.eqb_refl].
Qed.

Lemma noise_is_lower tok : In tok Web.NOISE → Text.lower tok = tok.
Proof.
  unfold Web.NOISE. simpl.
  intros [<-|[<-|[<-|[<-|[<-|[]]]]]]; reflexivity.
Qed.

(** The test of the code is the test of the specification. *)
Lemma keeps_loggable (text : string) :
  Web.keeps text = true ↔ Web.loggable text.
Proof.
  unfold Web.keeps, Web.loggable.
  rewrite !andb_true_iff, !negb_true_iff, truthy_nonempty.
  split.
  - intros [[Hne Hsp] Hm]. repeat split; auto.
    intros tok Hin Heq. unfold Text.eq_nocase in Heq.
    rewrite (noise_is_lower tok Hin) in Heq.
    assert (Text.mem (Text.lower text) Web.NOISE = true) as E; [|congruence].
    apply mem_In. now rewrite Heq.
  - intros (Hne & Hsp & Hn). repeat split; auto.
    destruct (Text.mem (Text.lower text) Web.NOISE) eqn:E; [|reflexivity].
    apply mem_In in E. exfalso. apply (Hn _ E).
    unfold Text.eq_nocase. now rewrite (noise_is_lower _ E).
Qed.

(** C5 (as amended: [src/transcriber.py]).  The finalization block appends
    an entry exactly when the buffer lasts 0.3 s or more, the recognition
    engine returns, and the text of its segments, joined by single spaces
    and stripped, is not empty, not whitespace only and equal to no noise
    token up to case; the entry carries that text.  In every other case
    the transcript is left as it was. *)
Theorem entry_only_for_loggable_text (buffer : list Chunk) (g : World) (stamp : string) :
  let audio := concat buffer in
  let log' := transcript (finalize buffer g stamp).1 in
  (∀ segments,
     (MIN_AUDIO_LENGTH <= duration_of audio)%Q →
     transcribe audio = Ok segments →
     Web.loggable (Text.strip (Text.join " " segments)) →
     log' = transcript g
            ++ [{| time := stamp; text := Text.strip (Text.join " " segments) |}])
  ∧ ((¬ ∃ segments,
        (MIN_AUDIO_LENGTH <= duration_of audio)%Q
        ∧ transcribe audio = Ok segments
        ∧ Web.loggable (Text.strip (Text.join " " segments))) →
     log' = transcript g).
Proof.
  intros audio log'. subst log' audio.
  destruct (finalize_outcomes buffer g stamp)
    as [[Hd ->]|[(Hd & e & Htr & ->)|[(Hd & segs & Htr & Hk & ->)
       |(Hd & segs & Htr & Hk & ->)]]]; cbn [fst transcript].
  - split; [|reflexivity]. intros segs Hd'. exfalso. exact (Qlt_not_le _ _ Hd Hd').
  - split; [|reflexivity]. intros segs _ Htr'. congruence.
  - split; [|reflexivity]. intros segs' _ Htr' Hl.
    assert (segs' = segs) by congruence. subst segs'.
    apply keeps_loggable in Hl. unfold Web.text_of in Hk. congruence.
  - split.
    + intros segs' _ Htr' _. assert (segs' = segs) by congruence. now subst.
    + intros Hno. exfalso. apply Hno. exists segs.
      split; [exact Hd|]. split; [exact Htr|]. now apply keeps_loggable.
Qed.

(** C4 (as amended).  A finalized buffer that lasts less than 0.3 s is
    dropped without a word: the recognition engine is not called, the
    transcript and the files are left as they were, and nothing is printed
    for it, neither "(no speech detected)" nor an error.  The pass that
    finalizes it still resets the locals. *)
Theorem short_utterance_dropped_silently (buffer : list Chunk) (g : World) (stamp : string) :
  (duration_of (concat buffer) < MIN_AUDIO_LENGTH)%Q →
  finalize buffer g stamp = (g, [])
  ∧ ∀ w tk,
      Web.audio_buffer w ++ [chunk tk] = buffer →
      timestamp (clock tk) = stamp →
      branch w tk = Web.SilenceOver →
      (loop_body w g tk).1.2 = g
      ∧ unmetered (loop_body w g tk).2 = []
      ∧ recognized (loop_body w g tk).2 = []
      ∧ Web.segmentation (loop_body w g tk).1.1 = ([], None, false).
Proof.
  intros Hd.
  assert (Hf : finalize buffer g stamp = (g, [])).
  { unfold Web.finalize. apply Qle_bool_false in Hd. now rewrite Hd. }
  split; [exact Hf|].
  intros w tk Hb Hst Hbr.
  destruct (loop_body_by_branch w g tk) as (w' & out & Hu & Hr & H).
  rewrite Hbr, Hb, Hst, Hf in H. destruct H as [-> Hs]. cbn [fst snd].
  rewrite app_nil_r. auto.
Qed.

(** C6.  When the recognition engine raises on an utterance, the pass that
    finalized it prints the error and nothing else of note, leaves the
    transcript and the files (the snapshot among them) exactly as they
    were, resets the locals to an empty buffer with no timer and no speech
    observed, and the loop goes on with the chunks that follow. *)
Theorem recognition_failure_is_contained
    (w : Web.Worker) (g : World) (tk : Tick) (rest : list Tick) (e : Exn) :
  let buffer := Web.audio_buffer w ++ [chunk tk] in
  let audio := concat buffer in
  branch w tk = Web.SilenceOver →
  (MIN_AUDIO_LENGTH <= duration_of audio)%Q →
  transcribe audio = Raise e →
  ∃ w' out,
    loop_body w g tk
    = (w', g, out ++ [Print (MsgTranscribing (duration_of audio));
                      Recognize audio; Print (MsgTranscriptionError e)])
    ∧ unmetered out = []
    ∧ Web.segmentation w' = ([], None, false)
    ∧ run w g (tk :: rest)
      = let '(w2, g2, evs2) := run w' g rest in
        (w2, g2, (out ++ [Print (MsgTranscribing (duration_of audio));
                          Recognize audio; Print (MsgTranscriptionError e)])
                 ++ evs2).
Proof.
  intros buffer audio Hbr Hd Htr.
  destruct (loop_body_by_branch w g tk) as (w' & out & Hu & Hr & H).
  rewrite Hbr in H. fold buffer in H. destruct H as [Hl Hs].
  assert (Hf : finalize buffer g (timestamp (clock tk))
               = (g, [Print (MsgTranscribing (duration_of audio));
                      Recognize audio; Print (MsgTranscriptionError e)])).
  { unfold Web.finalize. fold audio. apply Qle_bool_true in Hd. rewrite Hd.
    unfold Web.attempt, try_except, bind. now rewrite Htr. }
  rewrite Hf in Hl. cbn [fst snd] in Hl.
  exists w', out. repeat split; auto.
  simpl. now rewrite Hl.
Qed.

End WebWorker.

(** ** The snapshot format round-trips *)

Section JsonFacts.

Local Arguments String.append !s1 s2 : simpl nomatch.

Lemma append_assoc (a b c : string) : (a +:+ b) +:+ c = a +:+ (b +:+ c).
Proof. induction a as [|x a IH]; simpl; [reflexivity|now rewrite IH]. Qed.

Lemma append_length (a b : string) :
  String.length (a +:+ b) = (String.length a + String.length b)%nat.
Proof. induction a as [|x a IH]; simpl; [reflexivity|now rewrite IH]. Qed.

(** One escaped character reads back as that character. *)
Lemma parse_escape_char (c : ascii) (rest : string) :
  Json.parse_string_body (Json.escape_char c +:+ rest)
  = Json.cons_char c (Json.parse_string_body rest).
Proof.
  destruct c as [[] [] [] [] [] [] [] []]; reflexivity.
Qed.

Lemma parse_escape (s rest : string) :
  Json.parse_string_body (Json.escape s +:+ String Json.dquote rest)
  = Some (s, rest).
Proof.
  induction s as [|c s IH].
  - reflexivity.
  - cbn [Json.escape]. rewrite append_assoc, parse_escape_char, IH.
    reflexivity.
Qed.

Lemma quote_shape (s rest : string) :
  Json.quote s +:+ rest
  = String Json.dquote (Json.escape s +:+ String Json.dquote rest).
Proof.
  unfold Json.quote. simpl. now rewrite append_assoc.
Qed.

Lemma parse_quote (s rest : string) :
  Json.parse_string (Json.quote s +:+ rest) = Some (s, rest).
Proof.
  rewrite quote_shape. unfold Json.parse_string. simpl.
  apply parse_escape.
Qed.

Lemma skip_ws_quote (s rest : string) :
  Json.skip_ws (Json.quote s +:+ rest) = Json.quote s +:+ rest.
Proof. rewrite quote_shape. reflexivity. Qed.

Lemma entry_shape (e : Entry) (rest : string) :
  Json.dumps (Json.of_entry e) +:+ rest
  = "{" +:+ Json.quote "time" +:+ ": " +:+ Json.quote (time e)
      +:+ ", " +:+ Json.quote "text" +:+ ": " +:+ Json.quote (text e)
      +:+ String "}" rest.
Proof.
  unfold Json.of_entry. cbn [Json.dumps map fst snd Json.commas Text.join].
  rewrite !append_assoc. reflexivity.
Qed.

Lemma parse_time_key (r : string) :
  Json.parse_key "time" (Json.skip_ws (Json.quote "time" +:+ ": " +:+ r))
  = Some (" " +:+ r).
Proof. reflexivity. Qed.

Lemma parse_comma (r : string) :
  Json.expect "," (Json.skip_ws (", " +:+ Json.quote "text" +:+ ": " +:+ r))
  = Some (" " +:+ Json.quote "text" +:+ ": " +:+ r).
Proof. reflexivity. Qed.

Lemma parse_text_key (r : string) :
  Json.parse_key "text" (Json.skip_ws (" " +:+ Json.quote "text" +:+ ": " +:+ r))
  = Some (" " +:+ r).
Proof. reflexivity. Qed.

Lemma parse_spaced_quote (s r : string) :
  Json.parse_string (Json.skip_ws (" " +:+ Json.quote s +:+ r)) = Some (s, r).
Proof.
  change (Json.skip_ws (" " +:+ Json.quote s +:+ r))
    with (Json.skip_ws (Json.quote s +:+ r)).
  rewrite skip_ws_quote. apply parse_quote.
Qed.

(** One dumped entry reads back as that entry. *)
Lemma parse_dumped_entry (e : Entry) (rest : string) :
  Json.parse_entry (Json.dumps (Json.of_entry e) +:+ rest) = Some (e, rest).
Proof.
  rewrite entry_shape. unfold Json.parse_entry.
  change (Json.expect "{" ("{" +:+ ?r)) with (Some r).
  cbn [mbind option_bind]. rewrite parse_time_key.
  cbn [mbind option_bind]. rewrite parse_spaced_quote.
  cbn [mbind option_bind]. rewrite parse_comma.
  cbn [mbind option_bind]. rewrite parse_text_key.
  cbn [mbind option_bind]. rewrite parse_spaced_quote.
  cbn [mbind option_bind]. 
  change (Json.expect "}" (Json.skip_ws (String "}" rest))) with (Some rest).
  cbn [mbind option_bind]. now destruct e.
Qed.

Lemma skip_ws_entry (e : Entry) (rest : string) :
  Json.skip_ws (Json.dumps (Json.of_entry e) +:+ rest)
  = Json.dumps (Json.of_entry e) +:+ rest.
Proof. rewrite entry_shape. reflexivity. Qed.

Lemma expect_bracket_entry (e : Entry) (rest : string) :
  Json.expect "]" (Json.dumps (Json.of_entry e) +:+ rest) = None.
Proof. rewrite entry_shape. reflexivity. Qed.

Local Abbreviation render es :=
  (Json.commas (map Json.dumps (map Json.of_entry es))).

Lemma render_cons (e e' : Entry) (es : list Entry) :
  render (e :: e' :: es)
  = Json.dumps (Json.of_entry e) +:+ ", " +:+ render (e' :: es).
Proof. reflexivity. Qed.

Lemma skip_ws_render (e : Entry) (es : list Entry) (rest : string) :
  Json.skip_ws (render (e :: es) +:+ rest) = render (e :: es) +:+ rest.
Proof.
  destruct es as [|e' es].
  - apply skip_ws_entry.
  - rewrite render_cons, append_assoc. apply skip_ws_entry.
Qed.

Lemma expect_bracket_render (e : Entry) (es : list Entry) (rest : string) :
  Json.expect "]" (render (e :: es) +:+ rest) = None.
Proof.
  destruct es as [|e' es].
  - apply expect_bracket_entry.
  - rewrite render_cons, append_assoc. apply expect_bracket_entry.
Qed.

(** The entries of a dumped non-empty array read back, given fuel for each
    of them. *)
Lemma parse_dumped_entries (es : list Entry) : ∀ (e : Entry) (fuel : nat) (rest : string),
  (length es < fuel)%nat →
  Json.parse_entries fuel (render (e :: es) +:+ String "]" rest)
  = Some (e :: es, rest).
Proof.
  induction es as [|e' es IH]; intros e fuel rest Hf;
    (destruct fuel as [|fuel]; [simpl in Hf; lia|]).
  - change (render [e]) with (Json.dumps (Json.of_entry e)).
    cbn [Json.parse_entries]. rewrite parse_dumped_entry. reflexivity.
  - rewrite render_cons, !append_assoc.
    cbn [Json.parse_entries]. rewrite parse_dumped_entry.
    cbn [mbind option_bind].
    change (Json.skip_ws (", " +:+ ?r)) with (String "," (String " " r)).
    cbv beta iota.
    change (Ascii.eqb "," ",") with true. cbv iota.
    change (Json.skip_ws (String " " ?r)) with (Json.skip_ws r).
    rewrite skip_ws_render, IH; [reflexivity|].
    simpl in Hf. lia.
Qed.

Lemma render_length (es : list Entry) :
  (length es ≤ String.length (render es))%nat.
Proof.
  induction es as [|e es IH]; [simpl; lia|].
  assert (1 ≤ String.length (Json.dumps (Json.of_entry e)))%nat as He.
  { assert (∃ r, Json.dumps (Json.of_entry e) = String "{" r) as [r ->].
    { eexists. reflexivity. }
    simpl. lia. }
  destruct es as [|e' es].
  - change (render [e]) with (Json.dumps (Json.of_entry e)). simpl length. lia.
  - rewrite render_cons, !append_length. simpl length in *. lia.
Qed.

(** Round trip: what [json.dump] writes for a transcript reads back as
    that transcript. *)
Lemma loads_dumps (log : list Entry) :
  Json.loads_entries (Json.dumps (Json.of_transcript log)) = Some log.
Proof.
  destruct log as [|e es]; [reflexivity|].
  unfold Json.loads_entries, Json.of_transcript.
  cbn [Json.dumps].
  change (Json.skip_ws ("[" +:+ ?r)) with ("[" +:+ r).
  change (Json.expect "[" ("[" +:+ ?r)) with (Some r).
  cbn [mbind option_bind].
  rewrite skip_ws_render, expect_bracket_render.
  rewrite parse_dumped_entries; [reflexivity|].
  pose proof (render_length (e :: es)) as Hl.
  change (String.length ("[" +:+ ?r)) with (S (String.length r)).
  rewrite append_length. simpl length in *. lia.
Qed.

End JsonFacts.

(** ** The transcript store of [src/transcriber.py] *)

Section WebStore.

Variable np_sqrt : Q → Q.
Variable transcribe : list Sample → Result (list string).

Local Abbreviation loop_body := (Web.loop_body np_sqrt transcribe).
Local Abbreviation finalize := (Web.finalize transcribe).
Local Abbreviation run := (Web.run np_sqrt transcribe).
Local Abbreviation branch := (Web.branch np_sqrt).

Lemma save_in_step (g : World) : in_step (save_transcript_json g).1.
Proof. unfold in_step, save_transcript_json. simpl. apply lookup_insert_eq. Qed.

Lemma tracks_same g evs :
  replay (files g) evs = files g → tracks g (g, evs).
Proof.
  intros H. repeat split; simpl; auto. exists []. now rewrite app_nil_r.
Qed.

Lemma finalize_tracks buffer g stamp : tracks g (finalize buffer g stamp).
Proof.
  destruct (finalize_outcomes transcribe buffer g stamp)
    as [[_ ->]|[(_ & e & _ & ->)|[(_ & segs & _ & _ & ->)
       |(_ & segs & _ & _ & ->)]]]; try (now apply tracks_same).
  repeat split; cbn [fst snd transcript files].
  - intros _. unfold in_step. cbn [files transcript]. apply lookup_insert_eq.
  - eauto.
  - simpl. now rewrite insert_insert_eq.
Qed.

Lemma meter_replay fs w ck v : replay fs (Web.meter w ck v).2 = fs.
Proof. unfold Web.meter. destruct (Qlt_bool _ _); reflexivity. Qed.

Lemma replay_app fs a b : replay fs (a ++ b) = replay (replay fs a) b.
Proof. unfold replay. apply fold_left_app. Qed.

Lemma loop_body_tracks w g tk :
  tracks g ((loop_body w g tk).1.2, (loop_body w g tk).2).
Proof.
  unfold Web.loop_body.
  pose proof (meter_replay (files g) w (clock tk)
                (get_volume np_sqrt (chunk tk))) as Hm.
  destruct (Web.meter _ _ _) as [wm out]. cbn [snd] in Hm.
  destruct (Qle_bool _ _); [now apply tracks_same|].
  destruct (Web.heard_speech wm); [|now apply tracks_same].
  destruct (Web.silence_start wm); [|now apply tracks_same].
  destruct (Qlt_bool _ _); [|now apply tracks_same].
  destruct (0 <? _)%nat.
  - pose proof (finalize_tracks (Web.audio_buffer wm ++ [chunk tk]) g
                  (timestamp (clock tk))) as (H1 & H2 & H3).
    destruct (finalize _ _ _) as [g' evs]. cbn [fst snd] in *.
    split; [exact H1|]. split; [exact H2|].
    cbn [fst snd]. now rewrite replay_app, Hm.
  - cbn [fst snd]. rewrite app_nil_r. now apply tracks_same.
Qed.

Lemma run_tracks ticks : ∀ w g,
  tracks g ((run w g ticks).1.2, (run w g ticks).2).
Proof.
  induction ticks as [|tk rest IH]; intros w g; simpl.
  - now apply tracks_same.
  - pose proof (loop_body_tracks w g tk) as (A1 & [m1 A2] & A3).
    destruct (loop_body w g tk) as [[w1 g1] e1]. cbn [fst snd] in *.
    pose proof (IH w1 g1) as (B1 & [m2 B2] & B3).
    destruct (run w1 g1 rest) as [[w2 g2] e2]. cbn [fst snd] in *.
    split; [auto|]. split.
    + exists (m1 ++ m2). cbn [fst]. now rewrite B2, A2, app_assoc.
    + cbn [fst snd]. now rewrite replay_app, A3.
Qed.

(** C7 (as amended).  Between passes of the worker the snapshot file
    holds the whole transcript as one JSON array of [{time, text}] records:
    if it did when the session started, then after any number of passes it
    holds exactly what [json.dump] writes for the transcript so far, it
    reads back as that very list of entries, in order, the entries so far
    extend the transcript the session started with, and they are a prefix
    of the transcript after any further passes.  The files are what the
    recorded writes replay to.  (What a reader meets while a rewrite is
    under way is not covered: [open(..., "w")] empties the file first.) *)
Theorem snapshot_follows_transcript
    (w : Web.Worker) (g : World) (t1 t2 : list Tick) :
  in_step g →
  let g1 := (run w g t1).1.2 in
  let g2 := (run w g (t1 ++ t2)).1.2 in
  ∃ content,
    files g1 !! JSON_NAME = Some content
    ∧ content = Json.dumps (Json.of_transcript (transcript g1))
    ∧ Json.loads_entries content = Some (transcript g1)
    ∧ (∃ sofar, transcript g1 = transcript g ++ sofar)
    ∧ (∃ more, transcript g2 = transcript g1 ++ more)
    ∧ replay (files g) (run w g t1).2 !! JSON_NAME = Some content.
Proof.
  intros Hg g1 g2. subst g1 g2.
  rewrite (run_app np_sqrt transcribe).
  pose proof (run_tracks t1 w g) as (A1 & A2 & A3).
  destruct (run w g t1) as [[w1 g1] e1]. cbn [fst snd] in *.
  pose proof (run_tracks t2 w1 g1) as (_ & B2 & _).
  destruct (run w1 g1 t2) as [[w2 g2] e2]. cbn [fst snd] in *.
  exists (Json.dumps (Json.of_transcript (transcript g1))).
  specialize (A1 Hg). unfold in_step in A1.
  repeat split; auto using loads_dumps.
  now rewrite A3.
Qed.

End WebStore.

(** ** The process of [src/transcriber.py]: control surface and sessions *)

Section WebProcess.

Variable np_sqrt : Q → Q.
Variable transcribe : list Sample → Result (list string).

Local Abbreviation step := (Web.step np_sqrt transcribe).
Local Abbreviation exec := (Web.exec np_sqrt transcribe).
Local Abbreviation work := (Web.work np_sqrt transcribe).
Local Abbreviation calm := (Web.calm np_sqrt).
Local Abbreviation silent_so_far := (Web.silent_so_far np_sqrt).

Lemma boot_world dir : Web.world (Web.boot dir) = Web.idle_world dir.
Proof. reflexivity. Qed.

Lemma boot_silent dir : silent_so_far dir (Web.boot dir).
Proof. repeat split; constructor. Qed.

Lemma boot_before_start dir : Web.before_start (Web.boot dir).
Proof. reflexivity. Qed.

Lemma exec_app s a b : exec s (a ++ b) = exec (exec s a) b.
Proof. unfold Web.exec. apply fold_left_app. Qed.

(** A worker pass leaves the supervisor and the flags alone and only adds
    to the trace. *)
Lemma work_frame s i ck :
  Web.phase (work s i ck) = Web.phase s
  ∧ Web.app (work s i ck) = Web.app s
  ∧ ∃ evs, Web.trace (work s i ck) = Web.trace s ++ evs.
Proof.
  unfold Web.work.
  destruct (Web.workers s !! i) as [[w|]|];
    try (repeat split; auto; exists []; now rewrite app_nil_r).
  destruct (Web.is_recording s);
    [|repeat split; auto; exists []; now rewrite app_nil_r].
  destruct (Web.audio_queue s) as [|c q];
    [repeat split; auto; exists []; now rewrite app_nil_r|].
  destruct (Web.loop_body _ _ _ _ _) as [[w' g'] evs]. simpl. eauto.
Qed.

Lemma idle_export dir ck :
  Web.save_transcript_md (Web.idle_world dir) ck
  = (Web.idle_world dir, [Print MsgNoTranscript]).
Proof. reflexivity. Qed.

Lemma idle_rewrite dir :
  save_transcript_json {| transcript := []; files := files (Web.idle_world dir) |}
  = (Web.idle_world dir, [OpenW JSON_NAME; Wrote JSON_NAME "[]"]).
Proof.
  unfold save_transcript_json, Web.idle_world. cbn [transcript files].
  change (Json.dumps (Json.of_transcript [])) with "[]".
  now rewrite insert_insert_eq.
Qed.

(** Without speech the world stays idle, whatever the threads do. *)
Lemma step_silent dir s a :
  silent_so_far dir s →
  match a with Web.Capture c => Web.quiet_chunk np_sqrt c | _ => True end →
  silent_so_far dir (step s a).
Proof.
  intros (Hw & Hws & Hq & Hr) Ha.
  destruct a as [c|m path|ck|i ck]; simpl.
  - repeat split; auto. cbn [Web.audio_queue].
    apply Forall_app; auto.
  - destruct (Web.handle _ _ _ _) as [app' r]. repeat split; auto.
  - unfold Web.supervise. destruct (Web.phase s).
    + destruct (Web.start_event _); [|repeat split; auto].
      repeat split; auto. cbn [Web.workers].
      apply Forall_app; split; auto. constructor; [reflexivity|constructor].
    + destruct (Web.stop_event _); [|repeat split; auto].
      rewrite Hw, idle_export.
      change (files (Web.idle_world dir, [Print MsgNoTranscript]).1)
        with (files (Web.idle_world dir)).
      rewrite idle_rewrite. repeat split; auto.
      cbn [Web.trace]. rewrite recognized_app, Hr. reflexivity.
  - unfold Web.work.
    destruct (Web.workers s !! i) as [[w|]|] eqn:Hi;
      [|now repeat split|now repeat split].
    assert (Hh : Web.heard_speech w = false).
    { apply (Forall_lookup_1 _ _ _ _ Hws Hi). }
    destruct (Web.is_recording s).
    2:{ repeat split; auto. cbn [Web.workers].
        apply Forall_insert; [exact Hws|exact I]. }
    destruct (Web.audio_queue s) as [|c q] eqn:Hqu.
    { repeat split; auto. now rewrite Hqu. }
    inversion Hq as [|? ? Hc Hq']; subst.
    destruct (loop_body_discard np_sqrt transcribe w (Web.world s)
                {| chunk := c; clock := ck |} Hc Hh)
      as (w' & out & -> & Hs & Hu & Hro).
    repeat split; auto; cbn [Web.workers Web.trace].
    + apply Forall_insert; [exact Hws|].
      unfold Web.segmentation in Hs. simpl. congruence.
    + now rewrite recognized_app, Hr, Hro.
Qed.

Lemma calm_silent dir s a :
  silent_so_far dir s → calm a → silent_so_far dir (step s a).
Proof.
  intros Hs Ha. apply step_silent; [exact Hs|]. now destruct a.
Qed.

Lemma calm_before_start s a :
  Web.before_start s → calm a → Web.before_start (step s a).
Proof.
  unfold Web.before_start, Web.flags. intros [= Hp Hs Ht] Ha.
  destruct a as [c|m path|ck|i ck]; simpl; try contradiction.
  - congruence.
  - unfold Web.supervise. rewrite Hp, Hs. congruence.
  - destruct (work_frame s i ck) as (-> & -> & _). congruence.
Qed.

Lemma calm_started s a : Web.started s → calm a → Web.started (step s a).
Proof.
  unfold Web.started, Web.flags. intros H Ha.
  destruct a as [c|m path|ck|i ck]; simpl; try contradiction.
  - exact H.
  - unfold Web.supervise.
    destruct H as [[= Hp Hs Ht]|[= Hp Hs Ht]]; rewrite Hp, ?Hs, ?Ht; simpl.
    + right. congruence.
    + right. congruence.
  - destruct (work_frame s i ck) as (-> & -> & _). exact H.
Qed.

Lemma calm_stopping dir s a :
  silent_so_far dir s → Web.stopping s → calm a → Web.stopping (step s a).
Proof.
  unfold Web.stopping, Web.finished, Web.flags. intros (Hw & _) H Ha.
  destruct a as [c|m path|ck|i ck]; simpl; try contradiction.
  - exact H.
  - unfold Web.supervise.
    destruct H as [[[= Hp Hs Ht] Hrec]|[[[= Hp Hs Ht] Hrec]|([= Hp Hs Ht] & Hrec & Hin)]];
      rewrite Hp, ?Hs, ?Ht.
    + right. left. simpl. auto.
    + right. right. rewrite Hw, idle_export.
      change (files (Web.idle_world dir, [Print MsgNoTranscript]).1)
        with (files (Web.idle_world dir)).
      rewrite idle_rewrite. cbn [Web.phase Web.app Web.start_event Web.stop_event
                                 Web.recording Web.trace].
      repeat split.
      apply in_or_app. right. simpl. auto.
    + right. right. repeat split; auto. congruence.
  - destruct (work_frame s i ck) as (-> & -> & evs & ->).
    destruct H as [H|[H|(Hf & Hrec & Hin)]]; auto.
    right. right. repeat split; auto. apply in_or_app. auto.
Qed.

(** A property that calm steps keep is kept along a calm schedule. *)
Lemma exec_calm (dir : gmap string string) (P : Web.System → Prop) :
  (∀ s a, silent_so_far dir s → P s → calm a → P (step s a)) →
  ∀ acts s,
    Forall calm acts → silent_so_far dir s → P s →
    silent_so_far dir (exec s acts) ∧ P (exec s acts).
Proof.
  intros Hstep acts. induction acts as [|a acts IH]; intros s Hc Hs HP.
  - auto.
  - inversion Hc as [|? ? Ha Hc']; subst. simpl.
    apply IH; auto using calm_silent.
Qed.

Lemma request_start s :
  Web.before_start s → Web.started (step s (Web.Request Web.POST "/api/start")).
Proof.
  unfold Web.before_start, Web.started, Web.flags. intros [= Hp Hs Ht].
  left. simpl. congruence.
Qed.

Lemma request_stop s :
  Web.started s → Web.stopping (step s (Web.Request Web.POST "/api/stop")).
Proof.
  unfold Web.started, Web.stopping, Web.flags.
  intros [[= Hp Hs Ht]|[= Hp Hs Ht]]; simpl.
  - left. split; [congruence|reflexivity].
  - right. left. split; [congruence|reflexivity].
Qed.

Lemma supervise_takes_start s ck :
  Web.flags s = (Web.AwaitStart, true, true) →
  Web.recording (Web.app s) = false →
  Web.flags (Web.supervise s ck) = (Web.AwaitStop, false, true)
  ∧ Web.recording (Web.app (Web.supervise s ck)) = false.
Proof.
  unfold Web.flags, Web.supervise. intros [= Hp Hs Ht] Hr.
  rewrite Hp, Hs. simpl. split; congruence.
Qed.

Lemma supervise_takes_stop dir s ck :
  silent_so_far dir s →
  Web.flags s = (Web.AwaitStop, false, true) →
  Web.finished (Web.supervise s ck).
Proof.
  unfold Web.finished, Web.flags, Web.supervise. intros (Hw & _) [= Hp Hs Ht].
  rewrite Hp, Ht, Hw, idle_export.
  change (files (Web.idle_world dir, [Print MsgNoTranscript]).1)
    with (files (Web.idle_world dir)).
  rewrite idle_rewrite. simpl. repeat split; [congruence|].
  apply in_or_app. right. simpl. auto.
Qed.

Lemma supervise_finished s ck : Web.finished s → Web.supervise s ck = s.
Proof.
  unfold Web.finished, Web.flags, Web.supervise. intros ([= Hp Hs Ht] & _).
  now rewrite Hp, Hs.
Qed.

(** Two turns of the supervisor are enough to finish a stop. *)
Lemma supervise_twice dir s ck1 ck2 :
  silent_so_far dir s → Web.stopping s →
  Web.finished (exec s [Web.Supervise ck1; Web.Supervise ck2]).
Proof.
  intros Hs H.
  change (exec s [Web.Supervise ck1; Web.Supervise ck2])
    with (Web.supervise (Web.supervise s ck1) ck2).
  pose proof (calm_silent dir s (Web.Supervise ck1) Hs I) as Hs1.
  change (step s (Web.Supervise ck1)) with (Web.supervise s ck1) in Hs1.
  destruct H as [[Hf Hr]|[[Hf Hr]|Hf]].
  - destruct (supervise_takes_start s ck1 Hf Hr) as [Hf1 _].
    now apply (supervise_takes_stop dir).
  - pose proof (supervise_takes_stop dir s ck1 Hs Hf) as H1.
    now rewrite (supervise_finished _ ck2 H1).
  - now rewrite (supervise_finished s ck1 Hf), (supervise_finished s ck2 Hf).
Qed.


(** *** Static files *)

Local Arguments String.append !s1 s2 : simpl nomatch.

Lemma append_nil_r (s : string) : s +:+ EmptyString = s.
Proof. induction s as [|c s IH]; simpl; [reflexivity|now rewrite IH]. Qed.

(** Cutting at a character that is not plain leaves a plain name whole. *)
Lemma before_plain (sep : ascii) (name rest : string) :
  Web.all_plain name = true → Web.plain_char sep = false →
  Web.before sep (name +:+ rest) = name +:+ Web.before sep rest.
Proof.
  intros Hn Hs. induction name as [|c name IH]; simpl; [reflexivity|].
  simpl in Hn. apply andb_prop in Hn as [Hc Hn].
  destruct (Ascii.eqb c sep) eqn:E.
  - apply Ascii.eqb_eq in E. subst c. congruence.
  - now rewrite IH.
Qed.

Lemma plain_name_all (name : string) :
  Web.plain_name name = true → Web.all_plain name = true.
Proof.
  unfold Web.plain_name. intros H.
  apply andb_prop in H as [H _]. apply andb_prop in H as [H _].
  now apply andb_prop in H as [_ H].
Qed.

(** What is left of a path after its query and fragment are cut off. *)
Lemma cut_plain (name rest : string) :
  Web.plain_name name = true →
  rest = EmptyString ∨ (∃ tail, rest = String "?" tail) ∨ (∃ tail, rest = String "#" tail) →
  Web.before "#" (Web.before "?" (String "/" (name +:+ rest))) = String "/" name.
Proof.
  intros Hp Hr. apply plain_name_all in Hp.
  cbn [Web.before]. change (Ascii.eqb "/" "?") with false.
  change (Ascii.eqb "/" "#") with false. cbv iota.
  rewrite (before_plain "?" name rest Hp eq_refl).
  cbn [Web.before]. change (Ascii.eqb "/" "#") with false. cbv iota. f_equal.
  destruct Hr as [->|[[tail ->]|[tail ->]]].
  - cbn [Web.before]. rewrite append_nil_r.
    rewrite <- (append_nil_r name) at 1.
    rewrite (before_plain "#" name EmptyString Hp eq_refl).
    cbn [Web.before]. apply append_nil_r.
  - cbn [Web.before]. change (Ascii.eqb "?" "?") with true. cbv iota.
    rewrite (before_plain "#" name EmptyString Hp eq_refl).
    cbn [Web.before]. apply append_nil_r.
  - cbn [Web.before]. change (Ascii.eqb "#" "?") with false. cbv iota.
    rewrite (before_plain "#" name _ Hp eq_refl).
    cbn [Web.before]. change (Ascii.eqb "#" "#") with true. cbv iota.
    apply append_nil_r.
Qed.

(** A file of the directory under its plain name, with or without a query
    or a fragment behind it. *)
Lemma serve_plain_file (dir : gmap string string) (name content rest : string) :
  Web.plain_name name = true →
  dir !! name = Some content →
  rest = EmptyString ∨ (∃ tail, rest = String "?" tail) ∨ (∃ tail, rest = String "#" tail) →
  Web.serve_file dir (String "/" (name +:+ rest)) = Web.FileReply 200 content.
Proof.
  intros Hp Hd Hr. unfold Web.serve_file. rewrite (cut_plain name rest Hp Hr).
  change (Ascii.eqb "/" "/") with true. rewrite Hp. cbn [andb]. now rewrite Hd.
Qed.

Lemma serve_snapshot (dir : gmap string string) (content : string) :
  dir !! JSON_NAME = Some content →
  Web.serve_file dir "/transcript.json" = Web.FileReply 200 content.
Proof.
  intros H.
  exact (serve_plain_file dir "transcript.json" content EmptyString eq_refl H
           (or_introl eq_refl)).
Qed.


End WebProcess.

(** ** The segmentation loop of [src/terminal-transcriber.py] *)

Section TerminalWorker.

Variable np_sqrt : Q → Q.
Variable transcribe : list Sample → Result (list string).

Local Abbreviation loop_body := (Terminal.loop_body np_sqrt transcribe).
Local Abbreviation finalize := (Terminal.finalize transcribe).
Local Abbreviation run := (Terminal.run np_sqrt transcribe).
Local Abbreviation volume_of := (get_volume np_sqrt).

Lemma terminal_meter_fields w ck v wm out :
  Terminal.meter w ck v = (wm, out) →
  Terminal.audio_buffer wm = Terminal.audio_buffer w
  ∧ Terminal.silence_start wm = Terminal.silence_start w
  ∧ unmetered out = [] ∧ recognized out = [] ∧ ∀ fs, replay fs out = fs.
Proof.
  unfold Terminal.meter. destruct (Qlt_bool _ _); intros [= <- <-]; auto.
Qed.

(** The ways the finalization block of the terminal program can end; a
    text is logged as soon as it is not empty. *)
Lemma terminal_finalize_outcomes buffer g stamp :
  let audio := concat buffer in
  let d := duration_of audio in
  ((d < MIN_AUDIO_LENGTH)%Q ∧ finalize buffer g stamp = (g, []))
  ∨ ((MIN_AUDIO_LENGTH <= d)%Q ∧ ∃ e,
       transcribe audio = Raise e
       ∧ finalize buffer g stamp
         = (g, [Print (MsgTranscribing d); Recognize audio;
                Print (MsgTranscriptionError e)]))
  ∨ ((MIN_AUDIO_LENGTH <= d)%Q ∧ ∃ segments,
       transcribe audio = Ok segments
       ∧ Terminal.keeps (Terminal.text_of segments) = false
       ∧ finalize buffer g stamp
         = (g, [Print (MsgTranscribing d); Recognize audio; Print MsgNoSpeech]))
  ∨ ((MIN_AUDIO_LENGTH <= d)%Q ∧ ∃ segments,
       transcribe audio = Ok segments
       ∧ Terminal.keeps (Terminal.text_of segments) = true
       ∧ let text := Terminal.text_of segments in
         let log := transcript g ++ [{| time := stamp; text := text |}] in
         let content := Json.dumps (Json.of_transcript log) in
         finalize buffer g stamp
         = ({| transcript := log; files := <[JSON_NAME := content]> (files g) |},
            [Print (MsgTranscribing d); Recognize audio;
             OpenW JSON_NAME; Wrote JSON_NAME content;
             Print (MsgEntry stamp text); Print MsgBlank])).
Proof.
  intros audio d. unfold Terminal.finalize. fold audio. fold d.
  destruct (Qle_bool MIN_AUDIO_LENGTH d) eqn:Hd.
  2:{ left. apply Qle_bool_false in Hd. auto. }
  apply Qle_bool_true in Hd. right.
  unfold Terminal.attempt, try_except, bind.
  destruct (transcribe audio) as [segments|e] eqn:Htr.
  2:{ left. eauto. }
  right. destruct (Terminal.keeps (Terminal.text_of segments)) eqn:Hk.
  - right. split; [exact Hd|]. exists segments. auto.
  - left. split; [exact Hd|]. exists segments. auto.
Qed.

Lemma terminal_finalize_unmetered buffer g stamp :
  unmetered (finalize buffer g stamp).2 = (finalize buffer g stamp).2.
Proof.
  destruct (terminal_finalize_outcomes buffer g stamp)
    as [[_ ->]|[(_ & e & _ & ->)|[(_ & segs & _ & _ & ->)
       |(_ & segs & _ & _ & ->)]]]; reflexivity.
Qed.

(** The terminal program goes through the same cycle as the web program
    does once speech has been observed, on every chunk: a chunk at or above
    the threshold is buffered and clears the timer; a chunk below it is
    buffered and starts the timer or leaves it running; once more than
    1.5 s of silence have elapsed the buffer is finalized and the locals
    are reset. *)
Lemma terminal_silence_machine (w : Terminal.Worker) (g : World) (tk : Tick) :
  let buffer := Terminal.audio_buffer w ++ [chunk tk] in
  let now := t_silence (clock tk) in
  let w' := (loop_body w g tk).1.1 in
  let g' := (loop_body w g tk).1.2 in
  let evs := (loop_body w g tk).2 in
  ((Terminal.SILENCE_THRESHOLD <= volume_of (chunk tk))%Q →
     Terminal.audio_buffer w' = buffer ∧ Terminal.silence_start w' = None
     ∧ g' = g ∧ unmetered evs = [])
  ∧ ((volume_of (chunk tk) < Terminal.SILENCE_THRESHOLD)%Q →
     Terminal.silence_start w = None →
     Terminal.audio_buffer w' = buffer ∧ Terminal.silence_start w' = Some now
     ∧ g' = g ∧ unmetered evs = [])
  ∧ (∀ since,
     (volume_of (chunk tk) < Terminal.SILENCE_THRESHOLD)%Q →
     Terminal.silence_start w = Some since →
     (now - since <= SILENCE_DURATION)%Q →
     Terminal.audio_buffer w' = buffer ∧ Terminal.silence_start w' = Some since
     ∧ g' = g ∧ unmetered evs = [])
  ∧ (∀ since,
     (volume_of (chunk tk) < Terminal.SILENCE_THRESHOLD)%Q →
     Terminal.silence_start w = Some since →
     (SILENCE_DURATION < now - since)%Q →
     Terminal.audio_buffer w' = [] ∧ Terminal.silence_start w' = None
     ∧ (g', unmetered evs) = finalize buffer g (timestamp (clock tk))).
Proof.
  intros buffer now w' g' evs. subst w' g' evs buffer now.
  unfold Terminal.loop_body.
  destruct (Terminal.meter _ _ _) as [wm out] eqn:Hm.
  apply terminal_meter_fields in Hm as (Hb & Hs & Hu & _ & _).
  cbv beta iota zeta.
  split; [|split; [|split]].
  - intros Hv. apply Qlt_bool_false in Hv. rewrite Hv. simpl. auto.
  - intros Hv Hn. apply Qlt_bool_true in Hv. rewrite Hv, Hs, Hn. simpl. auto.
  - intros since Hv Hn Ht. apply Qlt_bool_true in Hv. apply Qlt_bool_false in Ht.
    rewrite Hv, Hs, Hn, Ht. simpl. auto.
  - intros since Hv Hn Ht. apply Qlt_bool_true in Hv. apply Qlt_bool_true in Ht.
    rewrite Hv, Hs, Hn, Ht.
    replace (0 <? length (Terminal.audio_buffer w ++ [chunk tk]))%nat with true.
    2:{ symmetry. apply Nat.ltb_lt. rewrite length_app. simpl. lia. }
    pose proof (terminal_finalize_unmetered
                  (Terminal.audio_buffer w ++ [chunk tk]) g (timestamp (clock tk)))
      as Hf.
    destruct (finalize _ _ _) as [gf ef]. cbn [fst snd] in *.
    rewrite unmetered_app, Hu, Hf. auto.
Qed.

(** In the terminal program too, a finalized buffer shorter than 0.3 s is
    dropped without a word. *)
Lemma terminal_short_utterance buffer g stamp :
  (duration_of (concat buffer) < MIN_AUDIO_LENGTH)%Q →
  finalize buffer g stamp = (g, []).
Proof.
  intros Hd. unfold Terminal.finalize.
  apply Qle_bool_false in Hd. now rewrite Hd.
Qed.

(** In the terminal program too, a failure of the engine is printed and
    changes nothing. *)
Lemma terminal_recognition_failure buffer g stamp e :
  (MIN_AUDIO_LENGTH <= duration_of (concat buffer))%Q →
  transcribe (concat buffer) = Raise e →
  finalize buffer g stamp
  = (g, [Print (MsgTranscribing (duration_of (concat buffer)));
         Recognize (concat buffer); Print (MsgTranscriptionError e)]).
Proof.
  intros Hd Htr. unfold Terminal.finalize.
  apply Qle_bool_true in Hd. rewrite Hd.
  unfold Terminal.attempt, try_except, bind. now rewrite Htr.
Qed.

Lemma terminal_finalize_tracks buffer g stamp : tracks g (finalize buffer g stamp).
Proof.
  destruct (terminal_finalize_outcomes buffer g stamp)
    as [[_ ->]|[(_ & e & _ & ->)|[(_ & segs & _ & _ & ->)
       |(_ & segs & _ & _ & ->)]]]; try (now apply tracks_same).
  repeat split; cbn [fst snd transcript files].
  - intros _. unfold in_step. cbn [files transcript]. apply lookup_insert_eq.
  - eauto.
  - simpl. now rewrite insert_insert_eq.
Qed.

Lemma terminal_loop_body_tracks w g tk :
  tracks g ((loop_body w g tk).1.2, (loop_body w g tk).2).
Proof.
  unfold Terminal.loop_body.
  destruct (Terminal.meter _ _ _) as [wm out] eqn:Hm.
  apply terminal_meter_fields in Hm as (_ & _ & _ & _ & Hr).
  cbv beta iota zeta.
  destruct (Qlt_bool _ _); [|now apply tracks_same].
  destruct (Terminal.silence_start wm); [|now apply tracks_same].
  destruct (Qlt_bool _ _); [|now apply tracks_same].
  destruct (0 <? _)%nat.
  - pose proof (terminal_finalize_tracks (Terminal.audio_buffer w ++ [chunk tk]) g
                  (timestamp (clock tk))) as (H1 & H2 & H3).
    destruct (finalize _ _ _) as [g' evs]. cbn [fst snd] in *.
    split; [exact H1|]. split; [exact H2|].
    cbn [fst snd]. now rewrite replay_app, Hr.
  - cbn [fst snd]. rewrite app_nil_r. now apply tracks_same.
Qed.

(** In the terminal program too the snapshot follows the transcript from
    pass to pass. *)
Lemma terminal_run_tracks ticks : ∀ w g,
  tracks g ((run w g ticks).1.2, (run w g ticks).2).
Proof.
  induction ticks as [|tk rest IH]; intros w g; simpl.
  - now apply tracks_same.
  - pose proof (terminal_loop_body_tracks w g tk) as (A1 & [m1 A2] & A3).
    destruct (loop_body w g tk) as [[w1 g1] e1]. cbn [fst snd] in *.
    pose proof (IH w1 g1) as (B1 & [m2 B2] & B3).
    destruct (run w1 g1 rest) as [[w2 g2] e2]. cbn [fst snd] in *.
    split; [auto|]. split.
    + exists (m1 ++ m2). cbn [fst]. now rewrite B2, A2, app_assoc.
    + cbn [fst snd]. now rewrite replay_app, A3.
Qed.

End TerminalWorker.

(** ** The theorems at sample inputs *)

(** C1 at a worker that pauses since time 0 with 0.3 s of speech buffered:
    a silent chunk read at time 2 finalizes the buffer and resets. *)
Lemma trailing_silence_machine_witness :
  Web.heard_speech (Demo.pausing 4800) = true
  ∧ Web.segmentation
      (Web.loop_body sqrt_floor (Demo.says [" Hello"]) (Demo.pausing 4800)
         Demo.blank (Demo.hush 1024 2 "10:00:02")).1.1
    = ([], None, false).
Proof.
  split; [reflexivity|].
  pose proof (trailing_silence_machine sqrt_floor (Demo.says [" Hello"])
                (Demo.pausing 4800) Demo.blank (Demo.hush 1024 2 "10:00:02")
                eq_refl) as H.
  cbv zeta in H. destruct H as (_ & _ & _ & H).
  refine (proj1 (H 0%Q _ eq_refl _)); vm_compute; reflexivity.
Defined.

(** C2 at two silent chunks followed by speech and a long pause. *)
Lemma leading_silence_is_dropped_witness :
  Forall (Web.quiet sqrt_floor)
    [Demo.hush 1024 0 "10:00:00"; Demo.hush 1024 2 "10:00:02"]
  ∧ recognized
      (Web.run sqrt_floor (Demo.says [" Hello"]) Web.fresh Demo.blank
         ([Demo.hush 1024 0 "10:00:00"; Demo.hush 1024 2 "10:00:02"]
          ++ [Demo.loud 4800 3 "10:00:03"; Demo.hush 1024 4 "10:00:04";
              Demo.hush 1024 6 "10:00:06"])).2
    = [repeat 1%Q 4800 ++ repeat 0%Q 2048].
Proof.
  assert (Hq : Forall (Web.quiet sqrt_floor)
                 [Demo.hush 1024 0 "10:00:00"; Demo.hush 1024 2 "10:00:02"]).
  { repeat constructor. }
  split; [exact Hq|].
  destruct (leading_silence_is_dropped sqrt_floor (Demo.says [" Hello"])
              [Demo.hush 1024 0 "10:00:00"; Demo.hush 1024 2 "10:00:02"]
              [Demo.loud 4800 3 "10:00:03"; Demo.hush 1024 4 "10:00:04";
               Demo.hush 1024 6 "10:00:06"] Demo.blank Hq) as (_ & -> & _).
  vm_compute. reflexivity.
Defined.

(** C3 at three silent chunks spread over four seconds. *)
Lemma all_silence_session_witness :
  Forall (Web.quiet sqrt_floor)
    [Demo.hush 4800 0 "10:00:00"; Demo.hush 4800 2 "10:00:02";
     Demo.hush 4800 4 "10:00:04"]
  ∧ transcript
      (Web.run sqrt_floor (Demo.says [" Thank you."]) Web.fresh Demo.blank
         [Demo.hush 4800 0 "10:00:00"; Demo.hush 4800 2 "10:00:02";
          Demo.hush 4800 4 "10:00:04"]).1.2 = []
  ∧ recognized
      (Web.run sqrt_floor (Demo.says [" Thank you."]) Web.fresh Demo.blank
         [Demo.hush 4800 0 "10:00:00"; Demo.hush 4800 2 "10:00:02";
          Demo.hush 4800 4 "10:00:04"]).2 = [].
Proof.
  assert (Hq : Forall (Web.quiet sqrt_floor)
                 [Demo.hush 4800 0 "10:00:00"; Demo.hush 4800 2 "10:00:02";
                  Demo.hush 4800 4 "10:00:04"]).
  { repeat constructor. }
  split; [exact Hq|].
  destruct (all_silence_session sqrt_floor (Demo.says [" Thank you."]) _
              Demo.blank Hq eq_refl) as (H1 & H2 & _).
  split; assumption.
Defined.

(** C4 at a buffer of three samples. *)
Lemma short_utterance_dropped_silently_witness :
  (duration_of (concat [[1%Q]; [0%Q]; [0%Q]]) < MIN_AUDIO_LENGTH)%Q
  ∧ Web.finalize (Demo.says [" Hello"]) [[1%Q]; [0%Q]; [0%Q]] Demo.blank "10:00:02"
    = (Demo.blank, []).
Proof.
  assert (Hd : (duration_of (concat [[1%Q]; [0%Q]; [0%Q]]) < MIN_AUDIO_LENGTH)%Q).
  { vm_compute. reflexivity. }
  split; [exact Hd|].
  exact (proj1 (short_utterance_dropped_silently sqrt_floor (Demo.says [" Hello"])
                  [[1%Q]; [0%Q]; [0%Q]] Demo.blank "10:00:02" Hd)).
Defined.

(** C5 at an engine that returns two segments. *)
Lemma entry_only_for_loggable_text_witness :
  Web.loggable "Hello  world."
  ∧ transcript
      (Web.finalize (Demo.says [" Hello"; " world."]) [repeat 1%Q 4800]
         Demo.blank "10:00:02").1
    = [{| time := "10:00:02"; text := "Hello  world." |}].
Proof.
  assert (Hl : Web.loggable "Hello  world.").
  { apply keeps_loggable. reflexivity. }
  split; [exact Hl|].
  refine (proj1 (entry_only_for_loggable_text (Demo.says [" Hello"; " world."])
                   [repeat 1%Q 4800] Demo.blank "10:00:02")
            [" Hello"; " world."] _ eq_refl Hl).
  vm_compute. discriminate.
Defined.

(** C6 at an engine that fails: the next utterance is still processed. *)
Lemma recognition_failure_is_contained_witness :
  Web.branch sqrt_floor (Demo.pausing 4800) (Demo.hush 1024 2 "10:00:02")
  = Web.SilenceOver
  ∧ ∃ w' out,
      Web.loop_body sqrt_floor Demo.broken (Demo.pausing 4800) Demo.blank
        (Demo.hush 1024 2 "10:00:02")
      = (w', Demo.blank,
         out ++ [Print (MsgTranscribing
                          (duration_of (repeat 1%Q 4800 ++ repeat 0%Q 1024)));
                 Recognize (repeat 1%Q 4800 ++ repeat 0%Q 1024);
                 Print (MsgTranscriptionError "model failure")])
      ∧ Web.segmentation w' = ([], None, false).
Proof.
  split; [reflexivity|].
  destruct (recognition_failure_is_contained sqrt_floor Demo.broken
              (Demo.pausing 4800) Demo.blank (Demo.hush 1024 2 "10:00:02")
              [] "model failure" eq_refl)
    as (w' & out & H1 & _ & H3 & _).
  - vm_compute. discriminate.
  - reflexivity.
  - exists w', out. split; [exact H1|exact H3].
Defined.

(** C7 at a session with one utterance: the snapshot reads back as the one
    entry. *)
Lemma snapshot_follows_transcript_witness :
  in_step Demo.blank
  ∧ ∃ content,
      files (Web.run sqrt_floor (Demo.says [" Hello"]) Web.fresh Demo.blank
               [Demo.loud 4800 0 "10:00:00"; Demo.hush 1024 1 "10:00:01";
                Demo.hush 1024 3 "10:00:03"]).1.2 !! JSON_NAME = Some content
      ∧ Json.loads_entries content
        = Some [{| time := "10:00:03"; text := "Hello" |}].
Proof.
  assert (Hg : in_step Demo.blank) by reflexivity.
  split; [exact Hg|].
  destruct (snapshot_follows_transcript sqrt_floor (Demo.says [" Hello"])
              Web.fresh Demo.blank
              [Demo.loud 4800 0 "10:00:00"; Demo.hush 1024 1 "10:00:01";
               Demo.hush 1024 3 "10:00:03"] [] Hg)
    as (content & H1 & _ & H3 & _).
  exists content. split; [exact H1|].
  rewrite H3. vm_compute. reflexivity.
Defined.



(** ** Where the specification says more than the programs do *)

(** C2, the terminal program: silence that comes first is buffered and
    reaches the recognition engine. *)
Lemma terminal_buffers_leading_silence :
  ¬ (∀ (np_sqrt : Q → Q) (transcribe : list Sample → Result (list string))
       (pre rest : list Tick) (g : World),
       Forall (Terminal.quiet np_sqrt) pre →
       Terminal.audio_buffer
         (Terminal.run np_sqrt transcribe Terminal.fresh g pre).1.1 = []
       ∧ recognized (Terminal.run np_sqrt transcribe Terminal.fresh g (pre ++ rest)).2
         = recognized (Terminal.run np_sqrt transcribe Terminal.fresh g rest).2).
Proof.
  intros H.
  specialize (H sqrt_floor (Demo.says [" Hello"])
                [Demo.hush 4800 0 "10:00:00"; Demo.hush 1024 2 "10:00:02"]
                [Demo.loud 1024 3 "10:00:03"] Demo.blank).
  destruct H as [_ H]; [repeat constructor|].
  vm_compute in H. discriminate H.
Qed.

(** C3, the terminal program: a session of silence calls the recognition
    engine, and what the engine makes of the silence is logged. *)
Lemma terminal_dispatches_silence :
  ¬ (∀ (np_sqrt : Q → Q) (transcribe : list Sample → Result (list string))
       (ticks : list Tick) (g : World),
       Forall (Terminal.quiet np_sqrt) ticks →
       transcript g = [] →
       transcript (Terminal.run np_sqrt transcribe Terminal.fresh g ticks).1.2 = []
       ∧ recognized (Terminal.run np_sqrt transcribe Terminal.fresh g ticks).2 = []).
Proof.
  intros H.
  specialize (H sqrt_floor (Demo.says [" Thank you."])
                [Demo.hush 4800 0 "10:00:00"; Demo.hush 1024 2 "10:00:02"]
                Demo.blank).
  destruct H as [H _]; [repeat constructor|reflexivity|].
  vm_compute in H. discriminate H.
Qed.

(** C4: a buffer shorter than 0.3 s is not reported as "(no speech
    detected)"; nothing is printed for it. *)
Lemma short_utterance_not_reported :
  ¬ (∀ (transcribe : list Sample → Result (list string))
       (buffer : list Chunk) (g : World) (stamp : string),
       (duration_of (concat buffer) < MIN_AUDIO_LENGTH)%Q →
       In (Print MsgNoSpeech) (Web.finalize transcribe buffer g stamp).2).
Proof.
  intros H.
  specialize (H (Demo.says []) [[1%Q]; [0%Q]; [0%Q]] Demo.blank "10:00:02").
  apply H. vm_compute. reflexivity.
Qed.

(** C5, the terminal program: the word "You" is logged. *)
Lemma terminal_logs_noise_token :
  ¬ (∀ (transcribe : list Sample → Result (list string))
       (buffer : list Chunk) (g : World) (stamp : string) (segments : list string),
       (MIN_AUDIO_LENGTH <= duration_of (concat buffer))%Q →
       transcribe (concat buffer) = Ok segments →
       ¬ Web.loggable (Text.strip (Text.join " " segments)) →
       transcript (Terminal.finalize transcribe buffer g stamp).1 = transcript g).
Proof.
  intros H.
  specialize (H (Demo.says [" You"]) [repeat 0%Q 4800] Demo.blank "10:00:02"
                [" You"]).
  assert (E : transcript
                (Terminal.finalize (Demo.says [" You"]) [repeat 0%Q 4800]
                   Demo.blank "10:00:02").1 = transcript Demo.blank).
  { apply H.
    - vm_compute. discriminate.
    - reflexivity.
    - intros (_ & _ & Hn). apply (Hn "you"); [simpl; auto|reflexivity]. }
  vm_compute in E. discriminate E.
Qed.

(** C7: while an entry is being saved there is a moment at which the
    snapshot file is empty and does not read back as any array. *)
Lemma snapshot_unreadable_during_rewrite :
  ¬ (∀ (np_sqrt : Q → Q) (transcribe : list Sample → Result (list string))
       (w : Web.Worker) (g : World) (ticks : list Tick) (pre post : list Event),
       in_step g →
       (Web.run np_sqrt transcribe w g ticks).2 = pre ++ post →
       ∃ content log,
         replay (files g) pre !! JSON_NAME = Some content
         ∧ Json.loads_entries content = Some log).
Proof.
  intros H.
  set (evs := (Web.run sqrt_floor (Demo.says [" Hello"]) (Demo.pausing 4800)
                 Demo.blank [Demo.hush 1024 2 "10:00:02"]).2).
  specialize (H sqrt_floor (Demo.says [" Hello"]) (Demo.pausing 4800) Demo.blank
                [Demo.hush 1024 2 "10:00:02"] (firstn 4 evs) (skipn 4 evs)
                eq_refl).
  destruct H as (content & log & H1 & H2).
  { symmetry. apply firstn_skipn. }
  vm_compute in H1. injection H1 as <-.
  vm_compute in H2. discriminate H2.
Qed.



(** ** Utterances as the worker of [src/transcriber.py] cuts them *)

Section WebUtterance.

Variable np_sqrt : Q → Q.
Variable transcribe : list Sample → Result (list string).

Local Abbreviation loop_body := (Web.loop_body np_sqrt transcribe).
Local Abbreviation finalize := (Web.finalize transcribe).
Local Abbreviation run := (Web.run np_sqrt transcribe).
Local Abbreviation quiet := (Web.quiet np_sqrt).
Local Abbreviation loud :=
  (λ tk : Tick, (Web.SILENCE_THRESHOLD <= get_volume np_sqrt (chunk tk))%Q).

(** Chunks at or above the threshold pile up in the buffer. *)
Lemma run_speech ticks : ∀ w g,
  Forall loud ticks →
  (run w g ticks).1.2 = g
  ∧ unmetered (run w g ticks).2 = []
  ∧ recognized (run w g ticks).2 = []
  ∧ Web.audio_buffer (run w g ticks).1.1 = Web.audio_buffer w ++ map chunk ticks
  ∧ (ticks ≠ [] →
     Web.silence_start (run w g ticks).1.1 = None
     ∧ Web.heard_speech (run w g ticks).1.1 = true).
Proof.
  induction ticks as [|tk rest IH]; intros w g Hl; simpl.
  - rewrite app_nil_r. repeat split; auto; congruence.
  - inversion Hl as [|? ? H1 H2]; subst.
    destruct (loop_body_sound np_sqrt transcribe w g tk H1)
      as (w1 & out & -> & Hs & Hu & Hr).
    unfold Web.segmentation in Hs. injection Hs as Hb Ht Hh.
    destruct (IH w1 g H2) as (Hg & Hu' & Hr' & Hb' & Hne).
    destruct (run w1 g rest) as [[w2 g2] e2] eqn:E. cbn [fst snd] in *.
    rewrite unmetered_app, recognized_app, Hu, Hr, Hu', Hr', Hb', Hb.
    rewrite <- app_assoc.
    split; [exact Hg|]. split; [reflexivity|]. split; [reflexivity|].
    split; [reflexivity|]. intros _.
    destruct rest as [|tk' rest'].
    + simpl in E. injection E as <- _ _. auto.
    + now apply Hne.
Qed.

(** While the pause lasts no longer than 1.5 s, silent chunks pile up in
    the buffer too and the timer keeps its start. *)
Lemma run_pause ticks : ∀ w g since,
  Web.heard_speech w = true →
  Web.silence_start w = Some since →
  Forall (λ tk, quiet tk
                ∧ (t_silence (clock tk) - since <= SILENCE_DURATION)%Q) ticks →
  (run w g ticks).1.2 = g
  ∧ unmetered (run w g ticks).2 = []
  ∧ recognized (run w g ticks).2 = []
  ∧ Web.segmentation (run w g ticks).1.1
    = (Web.audio_buffer w ++ map chunk ticks, Some since, true).
Proof.
  induction ticks as [|tk rest IH]; intros w g since Hh Hs Hp; simpl.
  - rewrite app_nil_r. unfold Web.segmentation. repeat split; congruence.
  - inversion Hp as [|? ? [Hq Ht] Hp']; subst.
    destruct (loop_body_silence_goes_on np_sqrt transcribe w g tk since Hq Hh Hs Ht)
      as (w1 & out & -> & Hseg & Hu & Hr).
    unfold Web.segmentation in Hseg. injection Hseg as Hb Hs1 Hh1.
    destruct (IH w1 g since Hh1 Hs1 Hp') as (Hg & Hu' & Hr' & Hseg').
    destruct (run w1 g rest) as [[w2 g2] e2]. cbn [fst snd] in *.
    rewrite unmetered_app, recognized_app, Hu, Hr, Hu', Hr', Hseg', Hb.
    now rewrite <- app_assoc.
Qed.

(** X1.  Speech without a pause is never dispatched: as long as every chunk
    is at or above the threshold the recognition engine is not called, the
    transcript and the files stay as they are, and every chunk is kept in
    the buffer, which grows without bound. *)
Theorem continuous_speech_is_never_dispatched
    (ticks : list Tick) (w : Web.Worker) (g : World) :
  Forall loud ticks →
  (run w g ticks).1.2 = g
  ∧ recognized (run w g ticks).2 = []
  ∧ unmetered (run w g ticks).2 = []
  ∧ Web.audio_buffer (run w g ticks).1.1 = Web.audio_buffer w ++ map chunk ticks.
Proof.
  intros Hl. destruct (run_speech ticks w g Hl) as (H1 & H2 & H3 & H4 & _).
  auto.
Qed.

(** X2.  Speech followed by a pause of more than 1.5 s is one utterance.
    From the start of a session: chunks of speech, then a first silent
    chunk that starts the timer, then silent chunks read no later than
    1.5 s after it, then a silent chunk read later than that.  The last
    pass finalizes one buffer made of all these chunks in order, silence
    included, with the timestamp of the last pass; nothing was finalized
    before, and the locals are reset. *)
Theorem speech_then_pause_is_one_utterance
    (speech pause : list Tick) (first last : Tick) (g : World) :
  speech ≠ [] →
  Forall loud speech →
  quiet first →
  Forall (λ tk, quiet tk
                ∧ (t_silence (clock tk) - t_silence (clock first)
                   <= SILENCE_DURATION)%Q) pause →
  quiet last →
  (SILENCE_DURATION < t_silence (clock last) - t_silence (clock first))%Q →
  let all := speech ++ first :: pause ++ [last] in
  let r := run Web.fresh g all in
  (r.1.2, unmetered r.2) = finalize (map chunk all) g (timestamp (clock last))
  ∧ Web.segmentation r.1.1 = ([], None, false)
  ∧ ((MIN_AUDIO_LENGTH <= duration_of (concat (map chunk all)))%Q →
     recognized r.2 = [concat (map chunk all)])
  ∧ ((duration_of (concat (map chunk all)) < MIN_AUDIO_LENGTH)%Q →
     recognized r.2 = []).
Proof.
  intros Hne Hl Hf Hp Hq Ht all r. subst r all.
  rewrite (run_app np_sqrt transcribe).
  destruct (run_speech speech Web.fresh g Hl) as (A1 & A2 & A3 & A4 & A5).
  destruct (A5 Hne) as [A6 A7].
  destruct (run Web.fresh g speech) as [[w1 g1] e1]. cbn [fst snd] in *.
  subst g1. simpl in A4.
  cbn [Web.run].
  destruct (loop_body_silence_begins np_sqrt transcribe w1 g first Hf A7 A6)
    as (w2 & o2 & -> & Hs2 & Hu2 & Hr2).
  unfold Web.segmentation in Hs2. injection Hs2 as B1 B2 B3.
  rewrite (run_app np_sqrt transcribe).
  destruct (run_pause pause w2 g _ B3 B2 Hp) as (C1 & C2 & C3 & C4).
  destruct (run w2 g pause) as [[w3 g3] e3]. cbn [fst snd] in *. subst g3.
  unfold Web.segmentation in C4. injection C4 as D1 D2 D3.
  cbn [Web.run].
  destruct (loop_body_silence_over np_sqrt transcribe w3 g last _ Hq D3 D2 Ht)
    as (w4 & o4 & -> & Hs4 & Hu4 & Hr4).
  assert (Hbuf : Web.audio_buffer w3 ++ [chunk last]
                 = map chunk (speech ++ first :: pause ++ [last])).
  { rewrite D1, B1, A4. rewrite !map_app. simpl. rewrite map_app. simpl.
    now rewrite <- !app_assoc. }
  rewrite Hbuf.
  set (fin := finalize _ g (timestamp (clock last))).
  pose proof (finalize_unmetered transcribe
                (map chunk (speech ++ first :: pause ++ [last])) g
                (timestamp (clock last))) as Hfu. fold fin in Hfu.
  cbn [fst snd]. rewrite !app_nil_r.
  rewrite !unmetered_app, !recognized_app, A2, A3, Hu2, Hr2, C2, C3, Hu4, Hr4, Hfu.
  cbn [app]. repeat split.
  - now destruct fin.
  - exact Hs4.
  - intros Hd. now apply finalize_recognized.
  - intros Hd. unfold fin, Web.finalize.
    apply Qle_bool_false in Hd. now rewrite Hd.
Qed.

End WebUtterance.

(** ** What [strip] leaves *)

Section TextFacts.

Local Arguments String.append !s1 s2 : simpl nomatch.

Lemma rstrip_idempotent (s : string) : Text.rstrip (Text.rstrip s) = Text.rstrip s.
Proof.
  induction s as [|c r IH]; [reflexivity|].
  simpl. destruct (Text.rstrip r) as [|c' r'] eqn:E.
  - destruct (Text.is_space c) eqn:Ec; [reflexivity|].
    simpl. now rewrite Ec.
  - simpl in *. now rewrite IH.
Qed.

(** What [lstrip] returns is empty or begins with a character that is not
    whitespace. *)
Lemma lstrip_head (s : string) :
  match Text.lstrip s with
  | EmptyString => True
  | String c _ => Text.is_space c = false
  end.
Proof.
  induction s as [|c r IH]; [exact I|].
  simpl. destruct (Text.is_space c) eqn:Ec; [exact IH|exact Ec].
Qed.

Lemma rstrip_keeps_head (c : ascii) (r : string) :
  Text.is_space c = false → ∃ r', Text.rstrip (String c r) = String c r'.
Proof.
  intros Hc. simpl. destruct (Text.rstrip r); rewrite ?Hc; eauto.
Qed.

Lemma strip_head (s : string) :
  match Text.strip s with
  | EmptyString => True
  | String c _ => Text.is_space c = false
  end.
Proof.
  unfold Text.strip. pose proof (lstrip_head s) as H.
  destruct (Text.lstrip s) as [|c r]; [exact I|].
  destruct (rstrip_keeps_head c r H) as [r' ->]. exact H.
Qed.

Lemma lstrip_fixed (s : string) :
  match s with EmptyString => True | String c _ => Text.is_space c = false end →
  Text.lstrip s = s.
Proof. destruct s as [|c r]; [reflexivity|]. simpl. now intros ->. Qed.

Lemma strip_idempotent (s : string) : Text.strip (Text.strip s) = Text.strip s.
Proof.
  unfold Text.strip at 1.
  rewrite (lstrip_fixed _ (strip_head s)).
  unfold Text.strip. apply rstrip_idempotent.
Qed.

(** X3.  After [strip()] the test [not text.isspace()] of both workers can
    never fail: a stripped text is never made of whitespace only.  So the
    web program logs a text exactly when it is not empty and not a noise
    token, and the terminal program exactly when it is not empty. *)
Theorem isspace_test_is_redundant (segments : list string) :
  Text.isspace (Web.text_of segments) = false
  ∧ Web.keeps (Web.text_of segments)
    = Text.truthy (Web.text_of segments)
      && negb (Text.mem (Text.lower (Web.text_of segments)) Web.NOISE)
  ∧ Terminal.keeps (Terminal.text_of segments)
    = Text.truthy (Terminal.text_of segments).
Proof.
  assert (H : ∀ s, Text.isspace (Text.strip s) = false).
  { intros s. pose proof (strip_head s) as Hh.
    destruct (Text.strip s) as [|c r]; [reflexivity|].
    simpl. now rewrite Hh. }
  unfold Web.keeps, Terminal.keeps, Web.text_of, Terminal.text_of.
  rewrite !H. simpl. rewrite !andb_true_r. auto.
Qed.

(** [lstrip] and [rstrip] take away whitespace only. *)
Lemma lstrip_split (s : string) :
  ∃ pre, s = pre +:+ Text.lstrip s ∧ Text.all_space pre = true.
Proof.
  induction s as [|c r (pre & E & Hp)].
  - now exists EmptyString.
  - simpl. destruct (Text.is_space c) eqn:Ec.
    + exists (String c pre). simpl. rewrite Ec, Hp. split; [congruence|reflexivity].
    + now exists EmptyString.
Qed.

Lemma rstrip_split (s : string) :
  ∃ post, s = Text.rstrip s +:+ post ∧ Text.all_space post = true.
Proof.
  induction s as [|c r (post & E & Hp)].
  - now exists EmptyString.
  - simpl. destruct (Text.rstrip r) as [|c' r'] eqn:Er.
    + simpl in E. destruct (Text.is_space c) eqn:Ec.
      * exists (String c post). simpl. rewrite Ec, Hp. split; [congruence|reflexivity].
      * exists post. simpl. split; [congruence|exact Hp].
    + exists post. simpl in *. split; [congruence|exact Hp].
Qed.

(** [strip] only takes whitespace away, from both ends, and leaves
    nothing more to take: the text is the stripped text between two runs of
    whitespace, and stripping again changes nothing. *)
Theorem strip_takes_whitespace_only (s : string) :
  (∃ pre post,
     s = pre +:+ Text.strip s +:+ post
     ∧ Text.all_space pre = true ∧ Text.all_space post = true)
  ∧ Text.strip (Text.strip s) = Text.strip s
  ∧ Text.isspace (Text.strip s) = false.
Proof.
  split; [|split; [apply strip_idempotent|]].
  - destruct (lstrip_split s) as (pre & E1 & H1).
    destruct (rstrip_split (Text.lstrip s)) as (post & E2 & H2).
    exists pre, post. unfold Text.strip. now rewrite <- E2.
  - pose proof (strip_head s) as Hh.
    destruct (Text.strip s) as [|c r]; [reflexivity|].
    simpl. now rewrite Hh.
Qed.

End TextFacts.

(** ** How the transcript grows *)

Section WebGrowth.

Variable np_sqrt : Q → Q.
Variable transcribe : list Sample → Result (list string).

Local Abbreviation loop_body := (Web.loop_body np_sqrt transcribe).
Local Abbreviation finalize := (Web.finalize transcribe).
Local Abbreviation run := (Web.run np_sqrt transcribe).

Lemma text_of_trimmed (segments : list string) :
  Web.keeps (Web.text_of segments) = true →
  Web.loggable (Web.text_of segments) ∧ Entries.trimmed (Web.text_of segments).
Proof.
  intros Hk. pose proof (proj1 (keeps_loggable _) Hk) as Hl.
  split; [exact Hl|]. split; [exact (proj1 Hl)|].
  unfold Web.text_of. apply strip_idempotent.
Qed.

(** The finalization block adds at most one entry, stamped as asked, and
    only after a call of the engine. *)
Lemma finalize_growth buffer g stamp :
  ∃ more,
    transcript (finalize buffer g stamp).1 = transcript g ++ more
    ∧ (more = []
       ∨ ∃ text, more = [{| time := stamp; text := text |}]
                 ∧ Web.loggable text ∧ Entries.trimmed text)
    ∧ (length more ≤ length (recognized (finalize buffer g stamp).2))%nat
    ∧ (length (recognized (finalize buffer g stamp).2) ≤ 1)%nat.
Proof.
  destruct (finalize_outcomes transcribe buffer g stamp)
    as [[_ ->]|[(_ & e & _ & ->)|[(_ & segs & _ & _ & ->)
       |(_ & segs & _ & Hk & ->)]]]; cbn [fst snd transcript].
  - exists []. rewrite app_nil_r. simpl. auto.
  - exists []. rewrite app_nil_r. simpl. auto.
  - exists []. rewrite app_nil_r. simpl. auto.
  - eexists. split; [reflexivity|]. split; [|simpl; lia].
    right. eexists. split; [reflexivity|]. now apply text_of_trimmed.
Qed.

Lemma loop_body_growth w g tk :
  ∃ more,
    transcript (loop_body w g tk).1.2 = transcript g ++ more
    ∧ (more = []
       ∨ ∃ text, more = [{| time := timestamp (clock tk); text := text |}]
                 ∧ Web.loggable text ∧ Entries.trimmed text)
    ∧ (length more ≤ length (recognized (loop_body w g tk).2))%nat
    ∧ (length (recognized (loop_body w g tk).2) ≤ 1)%nat.
Proof.
  destruct (loop_body_by_branch np_sqrt transcribe w g tk)
    as (w' & out & _ & Hr & H).
  destruct (Web.branch np_sqrt w tk);
    try (destruct H as [-> _]; cbn [fst snd]; rewrite Hr;
         exists []; rewrite app_nil_r; simpl; auto).
  destruct H as [-> _]. cbn [fst snd]. rewrite recognized_app, Hr.
  apply finalize_growth.
Qed.

(** X4.  The entries a run of the web worker adds are well-formed and stamped by
    passes of the run, in the order of the passes; there are no more of
    them than calls of the recognition engine, and no more such calls than
    passes. *)
Theorem transcript_growth (ticks : list Tick) (w : Web.Worker) (g : World) :
  ∃ more,
    transcript (run w g ticks).1.2 = transcript g ++ more
    ∧ Forall (λ e, Web.loggable (text e) ∧ Entries.trimmed (text e)) more
    ∧ map time more `sublist_of` Entries.stamps ticks
    ∧ (length more ≤ length (recognized (run w g ticks).2))%nat
    ∧ (length (recognized (run w g ticks).2) ≤ length ticks)%nat.
Proof.
  revert w g. induction ticks as [|tk rest IH]; intros w g; simpl.
  - exists []. rewrite app_nil_r. repeat split; auto; try constructor.
  - destruct (loop_body_growth w g tk) as (m1 & E1 & S1 & L1 & L1').
    destruct (loop_body w g tk) as [[w1 g1] e1]. cbn [fst snd] in *.
    destruct (IH w1 g1) as (m2 & E2 & F2 & S2 & L2 & L2').
    destruct (run w1 g1 rest) as [[w2 g2] e2]. cbn [fst snd] in *.
    exists (m1 ++ m2). rewrite recognized_app, !length_app.
    split; [now rewrite E2, E1, app_assoc|].
    split; [|split; [|split; lia]].
    + apply Forall_app. split; [|exact F2].
      destruct S1 as [->|(text & -> & Hl & Ht)]; [constructor|].
      constructor; [now split|constructor].
    + rewrite map_app. unfold Entries.stamps. cbn [map].
      destruct S1 as [->|(text & -> & Hl & Ht)]; simpl.
      * now apply sublist_cons.
      * now apply sublist_skip.
Qed.

End WebGrowth.

(** ** The volume bar of [src/transcriber.py] *)

Section WebMeter.

Variable np_sqrt : Q → Q.
Variable transcribe : list Sample → Result (list string).

Local Abbreviation loop_body := (Web.loop_body np_sqrt transcribe).
Local Abbreviation run := (Web.run np_sqrt transcribe).

Lemma branch_same_but_meter w1 w2 tk1 tk2 :
  Meter.same_but_meter tk1 tk2 →
  Web.segmentation w1 = Web.segmentation w2 →
  Web.branch np_sqrt w1 tk1 = Web.branch np_sqrt w2 tk2.
Proof.
  intros (Hc & Ht & _). unfold Web.segmentation, Web.branch.
  intros [= Hb Hs Hh]. now rewrite Hc, Ht, Hs, Hh.
Qed.

Lemma loop_body_same_but_meter w1 w2 g tk1 tk2 :
  Meter.same_but_meter tk1 tk2 →
  Web.segmentation w1 = Web.segmentation w2 →
  Web.segmentation (loop_body w1 g tk1).1.1 = Web.segmentation (loop_body w2 g tk2).1.1
  ∧ (loop_body w1 g tk1).1.2 = (loop_body w2 g tk2).1.2
  ∧ unmetered (loop_body w1 g tk1).2 = unmetered (loop_body w2 g tk2).2.
Proof.
  intros Hm Hseg.
  pose proof (branch_same_but_meter w1 w2 tk1 tk2 Hm Hseg) as Hbr.
  destruct Hm as (Hc & Ht & Hst).
  destruct (loop_body_by_branch np_sqrt transcribe w1 g tk1)
    as (w1' & o1 & Hu1 & _ & H1).
  destruct (loop_body_by_branch np_sqrt transcribe w2 g tk2)
    as (w2' & o2 & Hu2 & _ & H2).
  rewrite Hbr in H1.
  pose proof Hseg as Hseg'. unfold Web.segmentation in Hseg'.
  injection Hseg' as Hb Hs Hh. rewrite Hb, Hc, Ht, Hst, ?Hs in H1.
  destruct (Web.branch np_sqrt w2 tk2);
    destruct H1 as [-> S1]; destruct H2 as [-> S2];
    cbn [fst snd]; rewrite ?unmetered_app, ?Hu1, ?Hu2;
    repeat split; congruence.
Qed.

Lemma run_same_but_meter (ticks1 ticks2 : list Tick) :
  Forall2 Meter.same_but_meter ticks1 ticks2 →
  ∀ w1 w2 g,
    Web.segmentation w1 = Web.segmentation w2 →
    Web.segmentation (run w1 g ticks1).1.1 = Web.segmentation (run w2 g ticks2).1.1
    ∧ (run w1 g ticks1).1.2 = (run w2 g ticks2).1.2
    ∧ unmetered (run w1 g ticks1).2 = unmetered (run w2 g ticks2).2.
Proof.
  induction 1 as [|tk1 tk2 r1 r2 Hm HF IH]; intros w1 w2 g Hseg; simpl.
  - auto.
  - destruct (loop_body_same_but_meter w1 w2 g tk1 tk2 Hm Hseg) as (Hs & Hg & Hu).
    destruct (loop_body w1 g tk1) as [[w1' g1] e1].
    destruct (loop_body w2 g tk2) as [[w2' g2] e2].
    cbn [fst snd] in *. subst g2.
    destruct (IH w1' w2' g1 Hs) as (Hs' & Hg' & Hu').
    destruct (run w1' g1 r1) as [[w1'' g1'] e1'].
    destruct (run w2' g1 r2) as [[w2'' g2'] e2'].
    cbn [fst snd] in *. rewrite !unmetered_app. repeat split; congruence.
Qed.

Local Abbreviation pass := (Guarded.pass np_sqrt transcribe).
Local Abbreviation guarded_run := (Guarded.run np_sqrt transcribe).

(** On chunks with frames the [try] statement runs the loop body to its
    end. *)
Lemma guarded_run_delivered (ticks : list Tick) : ∀ w g,
  Forall (λ tk, chunk tk ≠ []) ticks →
  guarded_run w g ticks = run w g ticks.
Proof.
  induction ticks as [|tk rest IH]; intros w g HF; [reflexivity|].
  inversion HF as [|? ? Hc HF']; subst. cbn [Guarded.run Web.run].
  unfold Guarded.pass. destruct (chunk tk) as [|x c] eqn:E; [congruence|].
  destruct (loop_body w g tk) as [[w1 g1] e1]. now rewrite IH.
Qed.

Lemma same_but_meter_delivered (ticks1 ticks2 : list Tick) :
  Forall2 Meter.same_but_meter ticks1 ticks2 →
  Forall (λ tk, chunk tk ≠ []) ticks1 →
  Forall (λ tk, chunk tk ≠ []) ticks2.
Proof.
  induction 1 as [|tk1 tk2 r1 r2 Hm HF IH]; intros Hne; [constructor|].
  inversion Hne as [|? ? H1 H2]; subst. destruct Hm as (Hc & _).
  constructor; [congruence|auto].
Qed.

(** With speech heard, the branch of silence moves the buffer, the timer or
    the flag. *)
Lemma silence_branch_moves w g tk out :
  Web.heard_speech w = true →
  Web.segmentation (Guarded.silence_branch transcribe w g tk out).1.1
  ≠ Web.segmentation w.
Proof.
  intros Hh. unfold Guarded.silence_branch, Web.segmentation. rewrite Hh.
  destruct (Web.silence_start w) as [since|] eqn:Hs.
  - destruct (Qlt_bool _ _).
    + destruct (if (0 <? _)%nat then _ else _) as [g' evs]. cbn [fst snd].
      cbn [Web.audio_buffer Web.silence_start Web.heard_speech]. congruence.
    + cbn [fst snd Web.audio_buffer Web.silence_start Web.heard_speech].
      intros E. apply (f_equal (λ t, length t.1.1)) in E.
      cbn [fst] in E. rewrite length_app in E. simpl in E. lia.
  - cbn [fst snd Web.audio_buffer Web.silence_start Web.heard_speech].
    congruence.
Qed.

(** X5.  On chunks with frames, as the stream delivers them, the volume bar is
    observation only: two runs of the worker's [try] statement over the
    same chunks with the same readings of the silence clock and the same
    time stamps, from workers with the same buffer, timer and flag, end
    with the same buffer, timer and flag, the same transcript and files and
    the same output but for the bar, whatever the clock of the bar reads
    and whenever a bar was last printed.  A chunk without frames is where
    the bar decides: with speech heard, a bar that is due raises on the nan
    volume, the error is printed and the pass ends with the locals and the
    world as they were, the chunk unbuffered; with no bar due the chunk is
    taken for silence and the buffer, the timer or the flag moves. *)
Theorem volume_bar_observes_delivered_chunks
    (ticks1 ticks2 : list Tick) (w1 w2 : Web.Worker) (g : World) :
  Forall2 Meter.same_but_meter ticks1 ticks2 →
  Forall (λ tk, chunk tk ≠ []) ticks1 →
  Web.segmentation w1 = Web.segmentation w2 →
  (Web.segmentation (guarded_run w1 g ticks1).1.1
   = Web.segmentation (guarded_run w2 g ticks2).1.1
   ∧ (guarded_run w1 g ticks1).1.2 = (guarded_run w2 g ticks2).1.2
   ∧ unmetered (guarded_run w1 g ticks1).2 = unmetered (guarded_run w2 g ticks2).2)
  ∧ ∀ w tk,
      chunk tk = [] → Web.heard_speech w = true →
      ((METER_PERIOD < t_meter (clock tk) - Web.last_vol_print w)%Q →
         pass w g tk = (w, g, [Print (MsgError Guarded.NAN_TO_INT)]))
      ∧ ((t_meter (clock tk) - Web.last_vol_print w <= METER_PERIOD)%Q →
         Web.segmentation (pass w g tk).1.1 ≠ Web.segmentation w).
Proof.
  intros HF Hne Hseg. split.
  - pose proof (same_but_meter_delivered _ _ HF Hne) as Hne2.
    rewrite !guarded_run_delivered by assumption.
    now apply run_same_but_meter.
  - intros w tk Hc Hh. unfold Guarded.pass. rewrite Hc. split; intros Ht.
    + apply Qlt_bool_true in Ht. now rewrite Ht.
    + apply Qlt_bool_false in Ht. rewrite Ht.
      now apply silence_branch_moves.
Qed.

Lemma bars_app (a b : list Event) : Meter.bars (a ++ b) = Meter.bars a ++ Meter.bars b.
Proof. unfold Meter.bars. apply List.filter_app. Qed.

Lemma bars_of_unmetered (evs : list Event) : unmetered evs = evs → Meter.bars evs = [].
Proof.
  unfold unmetered, Meter.bars. induction evs as [|ev evs IH]; [reflexivity|].
  simpl. destruct (is_meter ev) eqn:E; simpl.
  - intros H. exfalso.
    assert (Hin : In ev (List.filter (λ ev, negb (is_meter ev)) evs)).
    { rewrite H. now left. }
    apply filter_In in Hin as [_ Hn]. rewrite E in Hn. discriminate.
  - intros [= H]. auto.
Qed.

(** One pass: the bar is printed exactly when more than 0.3 s have passed
    since [last_vol_print], which then takes the reading [t_print]. *)
Lemma loop_body_bar w g tk :
  let v := get_volume np_sqrt (chunk tk) in
  ((METER_PERIOD < t_meter (clock tk) - Web.last_vol_print w)%Q →
     Meter.bars (loop_body w g tk).2
     = [Print (MsgMeter (Qle_bool Web.SILENCE_THRESHOLD v) v)]
     ∧ Web.last_vol_print (loop_body w g tk).1.1 = t_print (clock tk))
  ∧ ((t_meter (clock tk) - Web.last_vol_print w <= METER_PERIOD)%Q →
     Meter.bars (loop_body w g tk).2 = []
     ∧ Web.last_vol_print (loop_body w g tk).1.1 = Web.last_vol_print w).
Proof.
  intros v.
  assert (Hshape : ∀ wm out,
            Web.meter w (clock tk) v = (wm, out) →
            Meter.bars (loop_body w g tk).2 = out
            ∧ Web.last_vol_print (loop_body w g tk).1.1 = Web.last_vol_print wm).
  { intros wm out Hm. unfold Web.loop_body. fold v. rewrite Hm.
    assert (Hout : Meter.bars out = out).
    { unfold Web.meter in Hm. destruct (Qlt_bool _ _); injection Hm as <- <-;
        reflexivity. }
    destruct (Qle_bool _ _); [now split|].
    destruct (Web.heard_speech wm); [|now split].
    destruct (Web.silence_start wm); [|now split].
    destruct (Qlt_bool _ _); [|now split].
    destruct (0 <? _)%nat.
    - pose proof (finalize_unmetered transcribe
                    (Web.audio_buffer wm ++ [chunk tk]) g (timestamp (clock tk)))
        as Hf.
      destruct (Web.finalize _ _ _ _) as [g' evs]. cbn [fst snd] in *.
      rewrite bars_app, Hout, (bars_of_unmetered _ Hf), app_nil_r. now split.
    - cbn [fst snd]. rewrite app_nil_r. now split. }
  split; intros H.
  - apply Qlt_bool_true in H.
    destruct (Hshape _ _ ltac:(unfold Web.meter; rewrite H; reflexivity))
      as [H1 H2].
    auto.
  - apply Qlt_bool_false in H.
    destruct (Hshape w [] ltac:(unfold Web.meter; now rewrite H)) as [H1 H2].
    auto.
Qed.

(** X6.  The volume bar is printed at most every 0.3 s: as long as the clock of
    the bar reads no more than 0.3 s past [last_vol_print], no bar is
    printed, however many chunks pass; and a run never prints more bars
    than it has passes. *)
Theorem volume_bar_is_rate_limited (ticks : list Tick) (w : Web.Worker) (g : World) :
  (Forall (λ tk, (t_meter (clock tk) - Web.last_vol_print w <= METER_PERIOD)%Q) ticks →
     Meter.bars (run w g ticks).2 = []
     ∧ Web.last_vol_print (run w g ticks).1.1 = Web.last_vol_print w)
  ∧ (length (Meter.bars (run w g ticks).2) ≤ length ticks)%nat.
Proof.
  split.
  - revert w g. induction ticks as [|tk rest IH]; intros w g HF; simpl; [auto|].
    inversion HF as [|? ? H1 H2]; subst.
    destruct (proj2 (loop_body_bar w g tk) H1) as [B1 B2].
    destruct (loop_body w g tk) as [[w1 g1] e1]. cbn [fst snd] in *.
    rewrite <- B2 in H2. destruct (IH w1 g1 H2) as [C1 C2].
    destruct (run w1 g1 rest) as [[w2 g2] e2]. cbn [fst snd] in *.
    rewrite bars_app, B1, C1. split; [reflexivity|congruence].
  - revert w g. induction ticks as [|tk rest IH]; intros w g; simpl; [lia|].
    pose proof (loop_body_bar w g tk) as [P1 P2].
    assert (Hone : (length (Meter.bars (loop_body w g tk).2) ≤ 1)%nat).
    { destruct (Qlt_le_dec METER_PERIOD (t_meter (clock tk) - Web.last_vol_print w))
        as [H|H].
      - destruct (P1 H) as [-> _]. simpl. lia.
      - destruct (P2 H) as [-> _]. simpl. lia. }
    destruct (loop_body w g tk) as [[w1 g1] e1]. cbn [fst snd] in *.
    specialize (IH w1 g1).
    destruct (run w1 g1 rest) as [[w2 g2] e2]. cbn [fst snd] in *.
    rewrite bars_app, length_app. lia.
Qed.

End WebMeter.

(** ** Session exports *)

Section Exports.

Local Arguments String.append !s1 s2 : simpl nomatch.

Lemma append_cancel_r (a b s : string) : a +:+ s = b +:+ s → a = b.
Proof.
  revert b. induction a as [|x a IH]; intros [|y b] E; simpl in E.
  - reflexivity.
  - exfalso. apply (f_equal String.length) in E.
    simpl in E. rewrite append_length in E. lia.
  - exfalso. apply (f_equal String.length) in E.
    simpl in E. rewrite append_length in E. lia.
  - injection E as -> E. f_equal. now apply IH.
Qed.

(** An export never goes by the name of the snapshot. *)
Lemma md_name_not_json (ck : Web.StopClock) : Web.md_name ck ≠ JSON_NAME.
Proof. unfold Web.md_name, JSON_NAME. simpl. discriminate. Qed.

(** Exports have the same name exactly when their stamps agree. *)
Lemma md_name_inj (ck1 ck2 : Web.StopClock) :
  Web.md_name ck1 = Web.md_name ck2 ↔ Web.file_stamp ck1 = Web.file_stamp ck2.
Proof.
  unfold Web.md_name. split; [|now intros ->].
  simpl. intros [= E]. now apply append_cancel_r in E.
Qed.

(** What [save_transcript_md] does to the world. *)
Lemma export_effects (g : World) (ck : Web.StopClock) :
  let g' := (Web.save_transcript_md g ck).1 in
  transcript g' = transcript g
  ∧ files g' !! JSON_NAME = files g !! JSON_NAME
  ∧ (∀ name, name ≠ Web.md_name ck → files g' !! name = files g !! name)
  ∧ (transcript g ≠ [] →
     files g' !! Web.md_name ck
     = Some (Web.md_document (Web.date_stamp ck) (transcript g)))
  ∧ (transcript g = [] →
     Web.save_transcript_md g ck = (g, [Print MsgNoTranscript]))
  ∧ replay (files g) (Web.save_transcript_md g ck).2 = files g'.
Proof.
  unfold Web.save_transcript_md.
  destruct (transcript g) as [|e log] eqn:E; cbn [fst snd transcript files].
  - repeat split; auto. congruence.
  - split; [reflexivity|]. split.
    { apply lookup_insert_ne. apply md_name_not_json. }
    split. { intros name Hn. now apply lookup_insert_ne. }
    split. { intros _. apply lookup_insert_eq. }
    split; [discriminate|].
    simpl. now rewrite insert_insert_eq.
Qed.

(** X7.  [save_transcript_md] with entries to save writes one file, the export
    document of the whole transcript, under the name of its stamp, and
    touches nothing else: the transcript, the snapshot and every other file
    stay as they were.  Without entries it writes nothing at all. *)
Theorem export_writes_one_file (g : World) (ck : Web.StopClock) :
  let g' := (Web.save_transcript_md g ck).1 in
  transcript g' = transcript g
  ∧ files g' !! JSON_NAME = files g !! JSON_NAME
  ∧ (∀ name, name ≠ Web.md_name ck → files g' !! name = files g !! name)
  ∧ (transcript g ≠ [] →
     files g' !! Web.md_name ck
     = Some (Web.md_document (Web.date_stamp ck) (transcript g)))
  ∧ (transcript g = [] →
     Web.save_transcript_md g ck = (g, [Print MsgNoTranscript]))
  ∧ replay (files g) (Web.save_transcript_md g ck).2 = files g'.
Proof.
  intros g'. subst g'.
  destruct (export_effects g ck) as (H1 & H2 & H3 & H4 & H5 & H6).
  split; [exact H1|]. split; [exact H2|]. split; [exact H3|].
  split; [exact H4|]. split; [exact H5|exact H6].
Qed.

(** X8.  Two exports written one after the other: the first survives the second
    exactly when their stamps differ; with the same stamp (two sessions
    that end within the same second) the second export replaces the
    first. *)
Theorem exports_collide_on_equal_stamps
    (g : World) (log2 : list Entry) (ck1 ck2 : Web.StopClock) :
  transcript g ≠ [] →
  log2 ≠ [] →
  let g1 := (Web.save_transcript_md g ck1).1 in
  let g2 := (Web.save_transcript_md
               {| transcript := log2; files := files g1 |} ck2).1 in
  files g2 !! Web.md_name ck2 = Some (Web.md_document (Web.date_stamp ck2) log2)
  ∧ (Web.file_stamp ck1 ≠ Web.file_stamp ck2 →
     files g2 !! Web.md_name ck1
     = Some (Web.md_document (Web.date_stamp ck1) (transcript g)))
  ∧ (Web.file_stamp ck1 = Web.file_stamp ck2 →
     files g2 !! Web.md_name ck1 = Some (Web.md_document (Web.date_stamp ck2) log2)).
Proof.
  intros H1 H2 g1 g2.
  destruct (export_effects g ck1) as (_ & _ & _ & A & _).
  destruct (export_effects {| transcript := log2; files := files g1 |} ck2)
    as (_ & _ & B1 & B2 & _).
  cbn [transcript files] in B1, B2. fold g1 in A. fold g2 in B1, B2.
  specialize (A H1). specialize (B2 H2).
  split; [exact B2|]. split.
  - intros Hne. rewrite B1; [exact A|].
    intros E. apply md_name_inj in E. auto.
  - intros He. apply md_name_inj in He. now rewrite He.
Qed.

End Exports.

(** ** Sessions of [src/transcriber.py] from start to stop *)

Section WebSessions.

Variable np_sqrt : Q → Q.
Variable transcribe : list Sample → Result (list string).

Local Abbreviation step := (Web.step np_sqrt transcribe).
Local Abbreviation exec := (Web.exec np_sqrt transcribe).
Local Abbreviation work := (Web.work np_sqrt transcribe).
Local Abbreviation run := (Web.run np_sqrt transcribe).
Local Abbreviation loop_body := (Web.loop_body np_sqrt transcribe).

Lemma stop_empties_transcript (s : Web.System) (ck : Web.StopClock) :
  Web.phase s = Web.AwaitStop →
  Web.stop_event (Web.app s) = true →
  transcript (Web.world (Web.supervise s ck)) = [].
Proof.
  intros Hp Hs. unfold Web.supervise. rewrite Hp, Hs.
  now destruct (Web.save_transcript_md (Web.world s) ck).
Qed.

(** X9.  The supervisor past a stop signal, in any state of the session: it goes
    back to waiting for a start, takes [is_recording] and the [recording]
    flag down, exports the transcript when it has entries, empties it and
    rewrites the snapshot to the empty array.  A pending start signal is
    kept.  The worker threads are not retired and the queue is not
    emptied: both are left as they are. *)
Theorem stop_ends_the_session (s : Web.System) (ck : Web.StopClock) :
  Web.phase s = Web.AwaitStop →
  Web.stop_event (Web.app s) = true →
  let s' := Web.supervise s ck in
  Web.phase s' = Web.AwaitStart
  ∧ Web.is_recording s' = false
  ∧ Web.app s' = {| Web.recording := false;
                    Web.start_event := Web.start_event (Web.app s);
                    Web.stop_event := false |}
  ∧ transcript (Web.world s') = []
  ∧ files (Web.world s') !! JSON_NAME = Some "[]"
  ∧ (transcript (Web.world s) ≠ [] →
     files (Web.world s') !! Web.md_name ck
     = Some (Web.md_document (Web.date_stamp ck) (transcript (Web.world s))))
  ∧ (∀ name, name ≠ JSON_NAME → name ≠ Web.md_name ck →
     files (Web.world s') !! name = files (Web.world s) !! name)
  ∧ Web.workers s' = Web.workers s
  ∧ Web.audio_queue s' = Web.audio_queue s.
Proof.
  intros Hp Hs s'. subst s'. unfold Web.supervise. rewrite Hp, Hs.
  destruct (export_effects (Web.world s) ck) as (_ & _ & E3 & E4 & _).
  destruct (Web.save_transcript_md (Web.world s) ck) as [g1 e1].
  cbn [fst snd] in *.
  unfold save_transcript_json. cbn [transcript files Web.phase Web.is_recording
    Web.app Web.world Web.workers Web.audio_queue].
  repeat split.
  - apply lookup_insert_eq.
  - intros Hne. rewrite lookup_insert_ne; [now apply E4|].
    intros E. symmetry in E. now apply md_name_not_json in E.
  - intros name H1 H2. rewrite lookup_insert_ne by congruence. now apply E3.
Qed.

Lemma boot_sound dir : Store.sound dir (Web.boot dir).
Proof.
  split; [|split].
  - unfold in_step. apply lookup_insert_eq.
  - constructor.
  - unfold Web.boot, save_transcript_json, replay.
    cbn [Web.trace Web.world files transcript fold_left apply_event].
    apply insert_insert_eq.
Qed.

Lemma step_sound dir s a : Store.sound dir s → Store.sound dir (step s a).
Proof.
  unfold Store.sound. intros (H1 & H2 & H3).
  destruct a as [c|m path|ck|i ck]; simpl.
  - now repeat split.
  - destruct (Web.handle _ _ _ _) as [app' r]. now repeat split.
  - unfold Web.supervise. destruct (Web.phase s).
    + destruct (Web.start_event _); now repeat split.
    + destruct (Web.stop_event _); [|now repeat split].
      destruct (export_effects (Web.world s) ck) as (_ & _ & _ & _ & _ & E).
      destruct (Web.save_transcript_md (Web.world s) ck) as [g1 e1].
      cbn [fst snd] in E.
      unfold save_transcript_json.
      cbn [transcript files Web.world Web.trace].
      split; [|split].
      * unfold in_step. cbn [transcript files]. apply lookup_insert_eq.
      * constructor.
      * rewrite !replay_app, H3. simpl. rewrite E. simpl.
        now rewrite insert_insert_eq.
  - unfold Web.work.
    destruct (Web.workers s !! i) as [[w|]|]; [|now repeat split|now repeat split].
    destruct (Web.is_recording s); [|now repeat split].
    destruct (Web.audio_queue s) as [|c q]; [now repeat split|].
    pose proof (loop_body_tracks np_sqrt transcribe w (Web.world s)
                  {| chunk := c; clock := ck |}) as (T1 & _ & T3).
    pose proof (loop_body_growth np_sqrt transcribe w (Web.world s)
                  {| chunk := c; clock := ck |}) as (more & G1 & G2 & _).
    destruct (Web.loop_body _ _ _ _ _) as [[w' g'] evs].
    cbn [fst snd Web.world Web.trace] in *.
    split; [auto|]. split.
    + rewrite G1. apply Forall_app. split; [exact H2|].
      destruct G2 as [->|(text & -> & Hl & Ht)]; [constructor|].
      constructor; [now split|constructor].
    + now rewrite replay_app, H3.
Qed.

Lemma exec_sound dir acts : Store.sound dir (exec (Web.boot dir) acts).
Proof.
  generalize (boot_sound dir). generalize (Web.boot dir).
  induction acts as [|a acts IH]; intros s0 H0; simpl; [exact H0|].
  apply IH. now apply step_sound.
Qed.

(** X11.  A worker thread alone at the queue takes the chunks in the order
    they were captured: as many of its passes as chunks are queued do what
    the worker loop does over these chunks in order, and leave in the queue
    what was captured after them.  It does not matter when the chunks were
    captured: what was queued before the session started is processed
    first.  On an empty queue a pass changes nothing. *)
Theorem single_worker_is_fifo (cs : list Chunk) :
  ∀ (cks : list Clock) (s : Web.System) (i : nat) (w : Web.Worker)
    (later : list Chunk),
    length cks = length cs →
    Web.workers s !! i = Some (Web.Alive w) →
    Web.is_recording s = true →
    Web.audio_queue s = cs ++ later →
    let s' := exec s (map (Web.Work i) cks) in
    let r := run w (Web.world s) (Queue.passes cs cks) in
    Web.world s' = r.1.2
    ∧ Web.workers s' = <[i := Web.Alive r.1.1]> (Web.workers s)
    ∧ Web.audio_queue s' = later
    ∧ Web.trace s' = Web.trace s ++ r.2
    ∧ Web.app s' = Web.app s
    ∧ Web.phase s' = Web.phase s
    ∧ (later = [] → ∀ ck, work s' i ck = s').
Proof.
  induction cs as [|c cs IH]; intros cks s i w later Hlen Hw Hrec Hq.
  - destruct cks; [|discriminate]. simpl in *.
    rewrite app_nil_r, (list_insert_id _ _ _ Hw).
    repeat split; auto.
    intros -> ck. unfold Web.work. now rewrite Hw, Hrec, Hq.
  - destruct cks as [|ck cks]; [discriminate|]. injection Hlen as Hlen.
    cbn [map Web.exec fold_left Web.step].
    fold (exec (work s i ck) (map (Web.Work i) cks)).
    unfold Queue.passes. cbn [zip_with Web.run].
    fold (Queue.passes cs cks).
    destruct (loop_body w (Web.world s) {| chunk := c; clock := ck |})
      as [[w1 g1] e1] eqn:Hl.
    set (s1 := {| Web.app := Web.app s; Web.is_recording := true;
                  Web.world := g1; Web.audio_queue := cs ++ later;
                  Web.phase := Web.phase s;
                  Web.workers := <[i:=Web.Alive w1]> (Web.workers s);
                  Web.replies := Web.replies s; Web.trace := Web.trace s ++ e1 |}).
    assert (Hstep : work s i ck = s1).
    { unfold Web.work. rewrite Hw, Hrec, Hq. cbn [app]. now rewrite Hl. }
    rewrite Hstep.
    assert (Hw1 : Web.workers s1 !! i = Some (Web.Alive w1)).
    { apply list_lookup_insert_eq. now apply lookup_lt_Some in Hw. }
    destruct (IH cks s1 i w1 later Hlen Hw1 eq_refl eq_refl)
      as (A1 & A2 & A3 & A4 & A5 & A6 & A7).
    cbn [Web.world Web.workers Web.trace Web.app Web.phase s1] in A1, A2, A4, A5, A6.
    destruct (run w1 g1 (Queue.passes cs cks)) as [[w2 g2] e2].
    cbn [fst snd] in *.
    rewrite A1, A2, A3, A4, A5, A6, list_insert_insert_eq, app_assoc.
    repeat split; auto.
Qed.

(** X12.  A start requested while a session runs is not lost and not refused: it
    stays pending, and once the stop has been taken the supervisor starts
    the next session at once, without a further request.  The new worker is
    spawned beside the threads of the session before, which were never
    retired and find [is_recording] up again; and the [recording] flag that
    the status request reports is down although a session runs. *)
Theorem start_during_session_is_served_after_stop
    (s : Web.System) (ck1 ck2 : Web.StopClock) :
  Web.flags s = (Web.AwaitStop, false, false) →
  let s' := exec s [Web.Request Web.POST "/api/start";
                    Web.Request Web.POST "/api/stop";
                    Web.Supervise ck1; Web.Supervise ck2] in
  Web.flags s' = (Web.AwaitStop, false, false)
  ∧ Web.is_recording s' = true
  ∧ Web.recording (Web.app s') = false
  ∧ Web.workers s' = Web.workers s ++ [Web.Alive Web.fresh]
  ∧ Web.audio_queue s' = Web.audio_queue s
  ∧ transcript (Web.world s') = [].
Proof.
  unfold Web.flags. intros [= Hp Hs Ht].
  unfold Web.exec. cbn [fold_left].
  set (s1 := step s (Web.Request Web.POST "/api/start")).
  set (s2 := step s1 (Web.Request Web.POST "/api/stop")).
  assert (E2 : s2
               = {| Web.app := {| Web.recording := false; Web.start_event := true;
                                  Web.stop_event := true |};
                    Web.is_recording := Web.is_recording s;
                    Web.world := Web.world s;
                    Web.audio_queue := Web.audio_queue s;
                    Web.phase := Web.phase s; Web.workers := Web.workers s;
                    Web.replies := Web.replies s2; Web.trace := Web.trace s |}).
  { reflexivity. }
  rewrite E2. clear E2. generalize (Web.replies s2). clear s2 s1. intros rs.
  cbn [Web.step]. rewrite Hp.
  destruct (Web.save_transcript_md (Web.world s) ck1) as [g1 e1] eqn:Emd.
  set (s2 := {| Web.app := _; Web.phase := Web.AwaitStop; Web.replies := rs |}).
  assert (E3 : Web.supervise s2 ck1
               = {| Web.app := {| Web.recording := false; Web.start_event := true;
                                  Web.stop_event := false |};
                    Web.is_recording := false;
                    Web.world := (save_transcript_json
                                    {| transcript := []; files := files g1 |}).1;
                    Web.audio_queue := Web.audio_queue s;
                    Web.phase := Web.AwaitStart; Web.workers := Web.workers s;
                    Web.replies := rs;
                    Web.trace := Web.trace (Web.supervise s2 ck1) |}).
  { unfold Web.supervise, s2.
    cbn [Web.phase Web.app Web.stop_event Web.world]. now rewrite Emd. }
  rewrite E3. clear E3. generalize (Web.trace (Web.supervise s2 ck1)).
  clear s2. intros tr.
  unfold Web.supervise.
  cbn [Web.phase Web.app Web.start_event Web.stop_event Web.recording
       Web.is_recording Web.workers Web.audio_queue Web.world].
  auto 10.
Qed.

End WebSessions.

(** ** The terminal program from start to end *)

Section TerminalSession.

Variable np_sqrt : Q → Q.
Variable transcribe : list Sample → Result (list string).

Local Abbreviation loop_body := (Terminal.loop_body np_sqrt transcribe).
Local Abbreviation finalize := (Terminal.finalize transcribe).
Local Abbreviation run := (Terminal.run np_sqrt transcribe).

Lemma terminal_finalize_keeps buffer g stamp :
  Store.kept g (finalize buffer g stamp).1.
Proof.
  destruct (terminal_finalize_outcomes transcribe buffer g stamp)
    as [[_ ->]|[(_ & e & _ & ->)|[(_ & segs & _ & _ & ->)
       |(_ & segs & _ & Hk & ->)]]]; try (now split).
  cbn [fst transcript files]. split.
  - intros name Hn. now apply lookup_insert_ne.
  - intros HF. apply Forall_app. split; [exact HF|].
    constructor; [|constructor]. cbn [text].
    unfold Terminal.keeps in Hk. apply andb_true_iff in Hk as [Hk _].
    split; [now apply truthy_nonempty|].
    unfold Terminal.text_of. apply strip_idempotent.
Qed.

Lemma terminal_loop_body_keeps w g tk : Store.kept g (loop_body w g tk).1.2.
Proof.
  unfold Terminal.loop_body.
  destruct (Terminal.meter _ _ _) as [wm out]. cbv beta iota zeta.
  destruct (Qlt_bool _ _); [|now split].
  destruct (Terminal.silence_start wm); [|now split].
  destruct (Qlt_bool _ _); [|now split].
  destruct (0 <? _)%nat; [|now split].
  pose proof (terminal_finalize_keeps (Terminal.audio_buffer w ++ [chunk tk]) g
                (timestamp (clock tk))) as H.
  now destruct (finalize _ _ _) as [g' evs].
Qed.

Lemma terminal_run_keeps ticks : ∀ w g, Store.kept g (run w g ticks).1.2.
Proof.
  induction ticks as [|tk rest IH]; intros w g; simpl; [now split|].
  pose proof (terminal_loop_body_keeps w g tk) as [A1 A2].
  destruct (loop_body w g tk) as [[w1 g1] e1]. cbn [fst snd] in *.
  pose proof (IH w1 g1) as [B1 B2].
  destruct (run w1 g1 rest) as [[w2 g2] e2]. cbn [fst snd] in *.
  split; [|auto]. intros name Hn. now rewrite B1, A1.
Qed.


End TerminalSession.

(** ** The command loop of the terminal program *)

Section Commands.

Lemma lower_char_q (c : ascii) :
  Text.lower_char c = "q"%char ↔ c = "q"%char ∨ c = "Q"%char.
Proof.
  split.
  - destruct c as [[] [] [] [] [] [] [] []]; vm_compute; intros H;
      try discriminate H; auto.
  - intros [->| ->]; reflexivity.
Qed.

Lemma lower_is_q (s : string) : Text.lower s = "q" ↔ s = "q" ∨ s = "Q".
Proof.
  split.
  - destruct s as [|c [|c' r]]; simpl; try discriminate.
    intros [= H]. apply lower_char_q in H as [->| ->]; auto.
  - intros [->| ->]; reflexivity.
Qed.

(** A line quits the terminal program exactly when it is the letter q, in
    either case, with nothing but whitespace around it. *)
Lemma quits_spec (line : string) :
  Lifecycle.quits line = true ↔ Text.strip line = "q" ∨ Text.strip line = "Q".
Proof.
  unfold Lifecycle.quits. rewrite String.eqb_eq. apply lower_is_q.
Qed.

(** X18.  The command loop reads lines up to the first one that is q or Q
    between whitespace and stops there: the lines after it are left
    unread, and every line before it was read and ignored, whatever it
    said.  When no line quits the loop reads all of the input and fails on
    its end. *)
Theorem command_loop_stops_at_first_q (lines : list string) :
  (∀ rest,
     Lifecycle.command_loop lines = Some rest ↔
     ∃ before line,
       lines = before ++ line :: rest
       ∧ Forall (λ l, Text.strip l ≠ "q" ∧ Text.strip l ≠ "Q") before
       ∧ (Text.strip line = "q" ∨ Text.strip line = "Q"))
  ∧ (Lifecycle.command_loop lines = None ↔
     Forall (λ l, Text.strip l ≠ "q" ∧ Text.strip l ≠ "Q") lines).
Proof.
  assert (Hno : ∀ l, Lifecycle.quits l = false
                     ↔ Text.strip l ≠ "q" ∧ Text.strip l ≠ "Q").
  { intros l. rewrite <- not_true_iff_false, quits_spec. tauto. }
  induction lines as [|l lines [IH1 IH2]].
  - split.
    + intros rest. split; [discriminate|].
      intros (before & line & E & _). now destruct before.
    + split; [constructor|reflexivity].
  - simpl. destruct (Lifecycle.quits l) eqn:Hq.
    + apply quits_spec in Hq. split.
      * intros rest. split.
        -- intros [= <-]. exists [], l. repeat split; auto.
        -- intros (before & line & E & HF & Hl).
           destruct before as [|b before].
           ++ simpl in E. now injection E as _ ->.
           ++ simpl in E. injection E as <- _.
              inversion HF as [|? ? [H1 H2] _]; subst. tauto.
      * split; [discriminate|].
        intros HF. inversion HF as [|? ? [H1 H2] _]; subst. tauto.
    + apply Hno in Hq. split.
      * intros rest. rewrite IH1. split.
        -- intros (before & line & -> & HF & Hl).
           exists (l :: before), line. repeat split; auto.
        -- intros (before & line & E & HF & Hl).
           destruct before as [|b before].
           ++ simpl in E. injection E as -> _. tauto.
           ++ simpl in E. injection E as <- ->.
              inversion HF; subst. exists before, line. auto.
      * rewrite IH2. split; intros HF.
        -- now constructor.
        -- now inversion HF.
Qed.

End Commands.

(** ** The microphone test *)

Section Microphone.

Lemma Qmax_cases (a b : Q) :
  (MicTest.Qmax a b = a ∨ MicTest.Qmax a b = b)
  ∧ (a <= MicTest.Qmax a b)%Q ∧ (b <= MicTest.Qmax a b)%Q.
Proof.
  unfold MicTest.Qmax. destruct (Qle_bool a b) eqn:E.
  - apply Qle_bool_true in E. repeat split; auto. apply Qle_refl.
  - apply Qle_bool_false in E. repeat split; auto; [apply Qle_refl|].
    now apply Qlt_le_weak.
Qed.

(** The running maximum is one of the values and bounds them all. *)
Lemma fold_Qmax (xs : list Q) : ∀ x,
  let p := fold_left MicTest.Qmax xs x in
  In p (x :: xs) ∧ Forall (λ y, (y <= p)%Q) (x :: xs).
Proof.
  induction xs as [|y xs IH]; intros x; simpl.
  - split; [now left|]. constructor; [apply Qle_refl|constructor].
  - destruct (IH (MicTest.Qmax x y)) as [Hin HF]. simpl in Hin.
    destruct (Qmax_cases x y) as (Hc & Hx & Hy).
    inversion HF as [|? ? Hm HF']; subst.
    split.
    + destruct Hin as [Hin|Hin]; [|auto].
      rewrite <- Hin. destruct Hc as [->| ->]; auto.
    + constructor; [eapply Qle_trans; eauto|].
      constructor; [eapply Qle_trans; eauto|exact HF'].
Qed.

Lemma sum_bound (ys : list Q) (p : Q) :
  Forall (λ y, (y <= p)%Q) ys →
  (fold_right Qplus 0 ys <= inject_Z (Z.of_nat (length ys)) * p)%Q.
Proof.
  induction 1 as [|y ys Hy HF IH].
  - unfold Qle. simpl. lia.
  - cbn [fold_right length]. rewrite Nat2Z.inj_succ, <- Z.add_1_r, inject_Z_plus.
    change (inject_Z 1) with 1%Q. lra.
Qed.

Lemma sum_nonneg (ys : list Q) :
  Forall (λ y, (0 <= y)%Q) ys → (0 <= fold_right Qplus 0 ys)%Q.
Proof.
  induction 1 as [|y ys Hy HF IH]; simpl; lra.
Qed.

(** X19.  On a recording that is not empty the script finds a peak, which is the
    magnitude of one of the samples and bounds them all; the average volume
    it prints lies between zero and the peak; and it reports a working
    microphone exactly when some sample exceeds 0.01 in magnitude, so in
    particular whenever the average volume does. *)
Theorem mic_test_verdict (audio : list Sample) :
  audio ≠ [] →
  ∃ p,
    MicTest.peak audio = Some p
    ∧ (∃ x, In x audio ∧ p = Qabs x)
    ∧ Forall (λ x, (Qabs x <= p)%Q) audio
    ∧ (0 <= MicTest.volume audio)%Q
    ∧ (MicTest.volume audio <= p)%Q
    ∧ (MicTest.working audio = Some true
       ↔ ∃ x, In x audio ∧ (1 # 100 < Qabs x)%Q)
    ∧ ((1 # 100 < MicTest.volume audio)%Q → MicTest.working audio = Some true).
Proof.
  intros Hne. destruct audio as [|a audio]; [congruence|]. clear Hne.
  unfold MicTest.peak, MicTest.working, MicTest.peak. cbn [map].
  set (p := fold_left MicTest.Qmax (map Qabs audio) (Qabs a)).
  destruct (fold_Qmax (map Qabs audio) (Qabs a)) as [Hin HF]. fold p in Hin, HF.
  change (Qabs a :: map Qabs audio) with (map Qabs (a :: audio)) in Hin, HF.
  assert (Hall : Forall (λ x, (Qabs x <= p)%Q) (a :: audio)).
  { apply List.Forall_forall. intros x Hx.
    rewrite List.Forall_forall in HF. apply HF. now apply in_map. }
  assert (Hlen : (0 < inject_Z (Z.of_nat (length (map Qabs (a :: audio)))))%Q).
  { simpl length. rewrite Nat2Z.inj_succ. unfold Qlt. simpl. lia. }
  assert (Hvol : (MicTest.volume (a :: audio) <= p)%Q).
  { unfold MicTest.volume, np_mean. apply Qle_shift_div_r; [exact Hlen|].
    rewrite Qmult_comm. now apply sum_bound. }
  assert (Hpos : (0 <= MicTest.volume (a :: audio))%Q).
  { unfold MicTest.volume, np_mean. apply Qle_shift_div_l; [exact Hlen|].
    rewrite Qmult_0_l. apply sum_nonneg.
    apply List.Forall_forall. intros y Hy. apply in_map_iff in Hy as (x & <- & _).
    apply Qabs_nonneg. }
  assert (Hwork : Qlt_bool (1 # 100) p = true
                  ↔ ∃ x, In x (a :: audio) ∧ (1 # 100 < Qabs x)%Q).
  { rewrite Qlt_bool_true. split.
    - intros Hp. apply in_map_iff in Hin as (x & Hx & Hi).
      exists x. split; [exact Hi|]. now rewrite Hx.
    - intros (x & Hi & Hx). rewrite List.Forall_forall in Hall.
      eapply Qlt_le_trans; [exact Hx|]. now apply Hall. }
  exists p. split; [reflexivity|]. split.
  { apply in_map_iff in Hin as (x & Hx & Hi). eauto. }
  split; [exact Hall|]. split; [exact Hpos|]. split; [exact Hvol|].
  cbn [mbind option_bind]. split.
  - rewrite <- Hwork. split; [now intros [= ->]|now intros ->].
  - intros Hv. f_equal. apply Qlt_bool_true.
    eapply Qlt_le_trans; [exact Hv|exact Hvol].
Qed.

(** The device list, from any first index. *)
Lemma listing_from_spec (devices : list MicTest.Device) :
  ∀ (k : nat) (default_input : Z) (i : nat) (n : string) (m : bool),
    In (i, n, m) (MicTest.listing_from k default_input devices)
    ↔ ∃ d j, devices !! j = Some d ∧ i = (k + j)%nat
             ∧ (0 < MicTest.max_input_channels d)%Z
             ∧ n = MicTest.name d ∧ m = (Z.of_nat i =? default_input)%Z.
Proof.
  induction devices as [|d devices IH]; intros k def i n m; simpl.
  - split; [tauto|]. intros (? & ? & H & _). discriminate.
  - destruct (0 <? MicTest.max_input_channels d)%Z eqn:Hd.
    + apply Z.ltb_lt in Hd. simpl. rewrite IH. split.
      * intros [[= <- <- <-]|(d' & j & H1 & -> & H2 & H3 & H4)].
        -- exists d, 0%nat. rewrite Nat.add_0_r. auto.
        -- exists d', (S j). rewrite <- plus_n_Sm. auto.
      * intros (d' & [|j] & H1 & -> & H2 & -> & ->).
        -- left. simpl in H1. injection H1 as ->. now rewrite Nat.add_0_r.
        -- right. exists d', j. rewrite <- plus_n_Sm. auto.
    + apply Z.ltb_ge in Hd. rewrite IH. split.
      * intros (d' & j & H1 & -> & H2 & H3 & H4).
        exists d', (S j). rewrite <- plus_n_Sm. auto.
      * intros (d' & [|j] & H1 & -> & H2 & -> & ->).
        -- simpl in H1. injection H1 as ->. lia.
        -- exists d', j. rewrite <- plus_n_Sm. auto.
Qed.

Lemma listing_from_sorted (devices : list MicTest.Device) :
  ∀ (k : nat) (default_input : Z),
    StronglySorted lt (map (λ l, l.1.1) (MicTest.listing_from k default_input devices))
    ∧ Forall (λ l, (k ≤ l.1.1)%nat) (MicTest.listing_from k default_input devices).
Proof.
  induction devices as [|d devices IH]; intros k def; simpl.
  - split; constructor.
  - destruct (IH (S k) def) as [S1 F1].
    assert (F2 : Forall (λ l, (k ≤ l.1.1)%nat)
                   (MicTest.listing_from (S k) def devices)).
    { eapply Forall_impl; [exact F1|]. simpl. intros; lia. }
    destruct (0 <? _)%Z; [|now split].
    split.
    + simpl. constructor; [exact S1|].
      apply List.Forall_forall. intros x Hx. apply in_map_iff in Hx as (l & <- & Hl).
      rewrite List.Forall_forall in F1. specialize (F1 l Hl). simpl in F1. lia.
    + constructor; [simpl; lia|exact F2].
Qed.

(** X20.  The device list of the script has one line for every device with an
    input channel and none for the others, under the index the device has
    among all devices, in that order; and the default marker is on the line
    of the default input device and on no other line (on no line at all
    when the default is -1 or an output device). *)
Theorem device_listing_spec (default_input : Z) (devices : list MicTest.Device) :
  (∀ i n m,
     In (i, n, m) (MicTest.listing default_input devices)
     ↔ ∃ d, devices !! i = Some d
            ∧ (0 < MicTest.max_input_channels d)%Z
            ∧ n = MicTest.name d ∧ m = (Z.of_nat i =? default_input)%Z)
  ∧ StronglySorted lt (map (λ l, l.1.1) (MicTest.listing default_input devices))
  ∧ (∀ i n, In (i, n, true) (MicTest.listing default_input devices) →
            Z.of_nat i = default_input).
Proof.
  assert (H : ∀ i n m,
     In (i, n, m) (MicTest.listing default_input devices)
     ↔ ∃ d, devices !! i = Some d
            ∧ (0 < MicTest.max_input_channels d)%Z
            ∧ n = MicTest.name d ∧ m = (Z.of_nat i =? default_input)%Z).
  { intros i n m. unfold MicTest.listing. rewrite listing_from_spec. split.
    - intros (d & j & H1 & -> & H2). eauto.
    - intros (d & H1 & H2). exists d, i. auto. }
  split; [exact H|]. split.
  - apply listing_from_sorted.
  - intros i n Hin. apply H in Hin as (d & _ & _ & _ & Hm).
    symmetry in Hm. now apply Z.eqb_eq in Hm.
Qed.

End Microphone.

(** ** The snapshot as a text file *)

Section SnapshotText.

Local Arguments String.append !s1 s2 : simpl nomatch.

Lemma printable_app (a b : string) :
  Printable.all (a +:+ b) = Printable.all a && Printable.all b.
Proof.
  induction a as [|c a IH]; simpl; [reflexivity|].
  now rewrite IH, andb_assoc.
Qed.

Lemma printable_escape_char (c : ascii) : Printable.all (Json.escape_char c) = true.
Proof. destruct c as [[] [] [] [] [] [] [] []]; reflexivity. Qed.

Lemma printable_escape (s : string) : Printable.all (Json.escape s) = true.
Proof.
  induction s as [|c s IH]; [reflexivity|].
  cbn [Json.escape]. now rewrite printable_app, printable_escape_char, IH.
Qed.

Lemma printable_quote (s : string) : Printable.all (Json.quote s) = true.
Proof.
  unfold Json.quote. cbn [Printable.all].
  now rewrite printable_app, printable_escape.
Qed.

Lemma printable_entry (e : Entry) :
  Printable.all (Json.dumps (Json.of_entry e)) = true.
Proof.
  unfold Json.of_entry. cbn [Json.dumps map fst snd Json.commas Text.join].
  rewrite !printable_app, !printable_quote. reflexivity.
Qed.

Lemma printable_commas (items : list string) :
  Forall (λ s, Printable.all s = true) items →
  Printable.all (Json.commas items) = true.
Proof.
  unfold Json.commas. induction 1 as [|s items Hs HF IH]; [reflexivity|].
  destruct items as [|s' items]; [exact Hs|].
  cbn [Text.join] in *. now rewrite !printable_app, Hs, IH.
Qed.

(** X21.  Whatever the recognition engine returns, the snapshot file is made of
    printable ASCII characters only, and it determines the transcript: two
    transcripts with the same snapshot are the same list of entries. *)
Theorem snapshot_is_ascii_and_lossless (log log' : list Entry) :
  Printable.all (Json.dumps (Json.of_transcript log)) = true
  ∧ (Json.dumps (Json.of_transcript log) = Json.dumps (Json.of_transcript log') →
     log = log').
Proof.
  split.
  - unfold Json.of_transcript. cbn [Json.dumps].
    rewrite !printable_app. cbn [Printable.all].
    change (Printable.char "[") with true. change (Printable.char "]") with true.
    cbn [andb]. rewrite andb_true_r.
    apply printable_commas.
    induction log as [|e log IH]; constructor; [apply printable_entry|exact IH].
  - intros E. apply (f_equal Json.loads_entries) in E.
    rewrite !loads_dumps in E. now injection E.
Qed.

End SnapshotText.

(** ** Worker threads after a stop *)

Section Retirement.

Variable np_sqrt : Q → Q.
Variable transcribe : list Sample → Result (list string).

Local Abbreviation work := (Web.work np_sqrt transcribe).

(** X13.  A worker thread that finds [is_recording] down ends without a last
    look at its buffer: what it had buffered is never finalized nor handed
    to the recognition engine, the transcript, the files and the trace stay
    as they are, and the chunks still queued stay queued.  An ended thread
    does nothing any more. *)
Theorem retired_worker_drops_its_buffer
    (s : Web.System) (i : nat) (w : Web.Worker) (ck : Clock) :
  Web.workers s !! i = Some (Web.Alive w) →
  Web.is_recording s = false →
  let s' := work s i ck in
  Web.workers s' = <[i := Web.Ended]> (Web.workers s)
  ∧ Web.workers s' !! i = Some Web.Ended
  ∧ Web.world s' = Web.world s
  ∧ Web.audio_queue s' = Web.audio_queue s
  ∧ Web.trace s' = Web.trace s
  ∧ ∀ acts, Forall (λ a, ∃ ck', a = Web.Work i ck') acts →
            Web.exec np_sqrt transcribe s' acts = s'.
Proof.
  intros Hw Hr s'. subst s'. unfold Web.work at 1 2 3 4 5. rewrite Hw, Hr.
  cbn [Web.workers Web.world Web.audio_queue Web.trace].
  assert (Hi : <[i:=Web.Ended]> (Web.workers s) !! i = Some Web.Ended).
  { apply list_lookup_insert_eq. now apply lookup_lt_Some in Hw. }
  repeat split; auto.
  intros acts. induction 1 as [|a acts [ck' ->] HF IH]; [reflexivity|].
  cbn [Web.exec fold_left Web.step].
  assert (E : work (work s i ck) i ck' = work s i ck).
  { unfold Web.work at 1. unfold Web.work at 1. rewrite Hw, Hr.
    cbn [Web.workers]. now rewrite Hi. }
  rewrite E. exact IH.
Qed.

End Retirement.

(** ** The further theorems at sample inputs *)

Lemma continuous_speech_is_never_dispatched_witness :
  recognized
    (Web.run sqrt_floor (Demo.says [" Hello"]) Web.fresh Demo.blank
       [Demo.loud 1024 0 "10:00:00"; Demo.loud 1024 2 "10:00:02";
        Demo.loud 1024 4 "10:00:04"]).2 = [].
Proof.
  refine (proj1 (proj2 (continuous_speech_is_never_dispatched sqrt_floor
                          (Demo.says [" Hello"]) _ Web.fresh Demo.blank _))).
  repeat constructor; vm_compute; discriminate.
Defined.

Lemma speech_then_pause_is_one_utterance_witness :
  recognized
    (Web.run sqrt_floor (Demo.says [" Hello"]) Web.fresh Demo.blank
       ([Demo.loud 4800 0 "10:00:00"]
        ++ Demo.hush 1024 1 "10:00:01"
           :: [Demo.hush 1024 2 "10:00:02"] ++ [Demo.hush 1024 3 "10:00:03"])).2
  = [repeat 1%Q 4800 ++ repeat 0%Q 3072].
Proof.
  destruct (speech_then_pause_is_one_utterance sqrt_floor (Demo.says [" Hello"])
              [Demo.loud 4800 0 "10:00:00"] [Demo.hush 1024 2 "10:00:02"]
              (Demo.hush 1024 1 "10:00:01") (Demo.hush 1024 3 "10:00:03")
              Demo.blank) as (_ & _ & H & _).
  - discriminate.
  - repeat constructor; vm_compute; discriminate.
  - vm_compute. reflexivity.
  - repeat constructor; vm_compute; try reflexivity; discriminate.
  - vm_compute. reflexivity.
  - vm_compute. reflexivity.
  - rewrite H; [reflexivity|]. vm_compute. discriminate.
Defined.

Lemma volume_bar_observes_delivered_chunks_witness :
  Forall2 Meter.same_but_meter Cases.utterance (map Cases.never_metered Cases.utterance)
  ∧ (Guarded.run sqrt_floor (Demo.says [" Hello"]) Web.fresh Demo.blank
       (map Cases.never_metered Cases.utterance)).1.2
    = Cases.one_entry
  ∧ Guarded.pass sqrt_floor (Demo.says [" Hello"]) (Demo.pausing 4800) Demo.blank
      (Demo.hush 0 1 "10:00:01")
    = (Demo.pausing 4800, Demo.blank, [Print (MsgError Guarded.NAN_TO_INT)]).
Proof.
  assert (HF : Forall2 Meter.same_but_meter Cases.utterance
                 (map Cases.never_metered Cases.utterance)).
  { repeat constructor. }
  assert (Hne : Forall (λ tk, chunk tk ≠ []) Cases.utterance).
  { repeat constructor; discriminate. }
  split; [exact HF|].
  destruct (volume_bar_observes_delivered_chunks sqrt_floor (Demo.says [" Hello"])
              _ _ Web.fresh Web.fresh Demo.blank HF Hne eq_refl)
    as ((_ & <- & _) & Hnan).
  split; [vm_compute; reflexivity|].
  apply (proj1 (Hnan (Demo.pausing 4800) (Demo.hush 0 1 "10:00:01")
                  eq_refl eq_refl)).
  vm_compute. reflexivity.
Defined.

Lemma volume_bar_is_rate_limited_witness :
  Meter.bars
    (Web.run sqrt_floor (Demo.says [" Hello"]) Web.fresh Demo.blank
       (map Cases.never_metered Cases.utterance)).2 = [].
Proof.
  refine (proj1 (proj1 (volume_bar_is_rate_limited sqrt_floor (Demo.says [" Hello"])
                          (map Cases.never_metered Cases.utterance)
                          Web.fresh Demo.blank) _)).
  repeat constructor; vm_compute; discriminate.
Defined.

Lemma export_writes_one_file_witness :
  files (Web.save_transcript_md Cases.one_entry Demo.now).1
    !! Web.md_name Demo.now
  = Some (Web.md_document "2026-01-01 10:00" [Cases.hello]).
Proof.
  destruct (export_writes_one_file Cases.one_entry Demo.now)
    as (_ & _ & _ & H & _).
  apply H. discriminate.
Defined.

Lemma exports_collide_on_equal_stamps_witness :
  Web.file_stamp Demo.now ≠ Web.file_stamp Demo.later
  ∧ files (Web.save_transcript_md
             {| transcript := [Cases.hello; Cases.hello];
                files := files (Web.save_transcript_md Cases.one_entry Demo.now).1 |}
             Demo.later).1 !! Web.md_name Demo.now
    = Some (Web.md_document "2026-01-01 10:00" [Cases.hello]).
Proof.
  assert (Hne : Web.file_stamp Demo.now ≠ Web.file_stamp Demo.later)
    by discriminate.
  split; [exact Hne|].
  destruct (exports_collide_on_equal_stamps Cases.one_entry
              [Cases.hello; Cases.hello] Demo.now Demo.later)
    as (_ & H & _); [discriminate|discriminate|].
  exact (H Hne).
Defined.

Lemma stop_ends_the_session_witness :
  Web.workers (Web.supervise Cases.stopping_session Demo.now)
  = [Web.Alive (Demo.pausing 4800)]
  ∧ files (Web.world (Web.supervise Cases.stopping_session Demo.now))
      !! Web.md_name Demo.now
    = Some (Web.md_document "2026-01-01 10:00" [Cases.hello]).
Proof.
  destruct (stop_ends_the_session Cases.stopping_session Demo.now eq_refl eq_refl)
    as (_ & _ & _ & _ & _ & H1 & _ & H2 & _).
  split; [exact H2|]. apply H1. discriminate.
Defined.

Lemma single_worker_is_fifo_witness :
  Web.world
    (Web.exec sqrt_floor (Demo.says [" Hello"])
       (Cases.running_session (map chunk Cases.utterance ++ [repeat 1%Q 1024]))
       (map (Web.Work 0) (map clock Cases.utterance)))
  = Cases.one_entry.
Proof.
  destruct (single_worker_is_fifo sqrt_floor (Demo.says [" Hello"])
              (map chunk Cases.utterance) (map clock Cases.utterance)
              (Cases.running_session (map chunk Cases.utterance ++ [repeat 1%Q 1024]))
              0%nat Web.fresh [repeat 1%Q 1024] eq_refl eq_refl eq_refl eq_refl)
    as (H & _).
  rewrite H. vm_compute. reflexivity.
Defined.

Lemma start_during_session_is_served_after_stop_witness :
  Web.workers
    (Web.exec sqrt_floor (Demo.says [" Hello"]) (Cases.running_session [])
       [Web.Request Web.POST "/api/start"; Web.Request Web.POST "/api/stop";
        Web.Supervise Demo.now; Web.Supervise Demo.later])
  = [Web.Alive Web.fresh; Web.Alive Web.fresh].
Proof.
  destruct (start_during_session_is_served_after_stop sqrt_floor
              (Demo.says [" Hello"]) (Cases.running_session [])
              Demo.now Demo.later eq_refl) as (_ & _ & _ & H & _).
  exact H.
Defined.


Lemma mic_test_verdict_witness :
  [1 # 2; -(3 # 4); 0]%Q ≠ []
  ∧ MicTest.working [1 # 2; -(3 # 4); 0]%Q = Some true.
Proof.
  assert (Hne : [1 # 2; -(3 # 4); 0]%Q ≠ []) by discriminate.
  split; [exact Hne|].
  destruct (mic_test_verdict [1 # 2; -(3 # 4); 0]%Q Hne)
    as (p & _ & _ & _ & _ & _ & _ & H).
  apply H. vm_compute. reflexivity.
Defined.

Lemma retired_worker_drops_its_buffer_witness :
  Web.world
    (Web.work sqrt_floor (Demo.says [" Hello"])
       (Web.supervise Cases.stopping_session Demo.now) 0
       (Demo.at_time 5 "10:00:05"))
  = Web.world (Web.supervise Cases.stopping_session Demo.now)
  ∧ Web.workers
      (Web.work sqrt_floor (Demo.says [" Hello"])
         (Web.supervise Cases.stopping_session Demo.now) 0
         (Demo.at_time 5 "10:00:05"))
    = [Web.Ended].
Proof.
  destruct (retired_worker_drops_its_buffer sqrt_floor (Demo.says [" Hello"])
              (Web.supervise Cases.stopping_session Demo.now) 0%nat
              (Demo.pausing 4800) (Demo.at_time 5 "10:00:05") eq_refl eq_refl)
    as (H1 & _ & H2 & _).
  split; [exact H2|exact H1].
Defined.

(** ** The file server of the terminal program *)

Section Endings.

Variable np_sqrt : Q → Q.
Variable transcribe : list Sample → Result (list string).


End Endings.


Lemma command_loop_stops_at_first_q_witness :
  Lifecycle.command_loop ["hello"; "quit"; "  Q "; "q"; "more"] = Some ["q"; "more"].
Proof.
  apply (proj1 (command_loop_stops_at_first_q
                  ["hello"; "quit"; "  Q "; "q"; "more"])).
  exists ["hello"; "quit"], "  Q ".
  split; [reflexivity|]. split.
  - repeat constructor; vm_compute; discriminate.
  - right. reflexivity.
Defined.

Lemma device_listing_spec_witness :
  In (1%nat, "Built-in Microphone", true) (MicTest.listing 1 Cases.devices).
Proof.
  apply (proj1 (device_listing_spec 1 Cases.devices)).
  eexists. split; [reflexivity|]. split; [reflexivity|]. split; reflexivity.
Defined.

Lemma snapshot_is_ascii_and_lossless_witness :
  Printable.all (Json.dumps (Json.of_transcript [Cases.hello; Cases.hello])) = true.
Proof.
  exact (proj1 (snapshot_is_ascii_and_lossless [Cases.hello; Cases.hello] [])).
Defined.

(** ** The process with calls of the engine that take time *)

Section Overlap.

Variable np_sqrt : Q → Q.
Variable transcribe : list Sample → Result (list string).

Local Abbreviation fstep := (Inflight.step np_sqrt transcribe).
Local Abbreviation fexec := (Inflight.exec np_sqrt transcribe).
Local Abbreviation take := (Inflight.take np_sqrt transcribe).
Local Abbreviation return_ := (Inflight.return_ transcribe).
Local Abbreviation call_of := (Inflight.call_of np_sqrt).
Local Abbreviation loop_body := (Web.loop_body np_sqrt transcribe).

(** The inner [try] is the call and what follows it. *)
Lemma after_call_attempt audio g stamp :
  Web.attempt transcribe audio g stamp
  = ((Inflight.after_call (transcribe audio) g stamp).1,
     Recognize audio :: (Inflight.after_call (transcribe audio) g stamp).2).
Proof.
  unfold Web.attempt, Inflight.after_call. now destruct (try_except _ _).
Qed.

Lemma after_call_kept segments g stamp :
  Web.keeps (Web.text_of segments) = true →
  let log := transcript g ++ [{| time := stamp; text := Web.text_of segments |}] in
  let content := Json.dumps (Json.of_transcript log) in
  Inflight.after_call (Ok segments) g stamp
  = ({| transcript := log; files := <[JSON_NAME := content]> (files g) |},
     [OpenW JSON_NAME; Wrote JSON_NAME content;
      Print (MsgEntry stamp (Web.text_of segments)); Print MsgBlank]).
Proof.
  intros Hk. unfold Inflight.after_call, try_except, bind. now rewrite Hk.
Qed.

(** What the rest of a pass does to the world, whatever the engine
    returned. *)
Lemma after_call_effects outcome g stamp :
  (in_step g → in_step (Inflight.after_call outcome g stamp).1)
  ∧ (∃ more,
       transcript (Inflight.after_call outcome g stamp).1 = transcript g ++ more
       ∧ Forall (λ e, Web.loggable (text e) ∧ Entries.trimmed (text e)) more)
  ∧ replay (files g) (Inflight.after_call outcome g stamp).2
    = files (Inflight.after_call outcome g stamp).1.
Proof.
  destruct outcome as [segments|e].
  - destruct (Web.keeps (Web.text_of segments)) eqn:Hk.
    + rewrite (after_call_kept segments g stamp Hk). cbn [fst snd transcript files].
      split; [|split].
      * intros _. unfold in_step. cbn [files transcript]. apply lookup_insert_eq.
      * eexists. split; [reflexivity|].
        constructor; [|constructor]. now apply text_of_trimmed.
      * simpl. now rewrite insert_insert_eq.
    + unfold Inflight.after_call, try_except, bind. rewrite Hk.
      cbn [fst snd]. split; [auto|]. split; [|reflexivity].
      exists []. rewrite app_nil_r. split; [reflexivity|constructor].
  - unfold Inflight.after_call, try_except, bind. cbn [fst snd].
    split; [auto|]. split; [|reflexivity].
    exists []. rewrite app_nil_r. split; [reflexivity|constructor].
Qed.

(** The guards under which a pass calls the engine. *)
Lemma call_of_guards w tk audio :
  call_of w tk = Some audio →
  Qle_bool Web.SILENCE_THRESHOLD (get_volume np_sqrt (chunk tk)) = false
  ∧ Web.heard_speech w = true
  ∧ (∃ since, Web.silence_start w = Some since
              ∧ Qlt_bool SILENCE_DURATION (t_silence (clock tk) - since) = true)
  ∧ audio = concat (Web.audio_buffer w ++ [chunk tk])
  ∧ Qle_bool MIN_AUDIO_LENGTH (duration_of audio) = true.
Proof.
  unfold Inflight.call_of, Web.branch.
  destruct (Qle_bool Web.SILENCE_THRESHOLD _) eqn:Hv; [discriminate|].
  destruct (Web.heard_speech w) eqn:Hh; [|discriminate].
  destruct (Web.silence_start w) as [since|] eqn:Hs; [|discriminate].
  destruct (Qlt_bool _ _) eqn:Ht; [|discriminate].
  destruct (Qle_bool MIN_AUDIO_LENGTH _) eqn:Hd; [|discriminate].
  intros [= <-]. eauto 10.
Qed.

(** A pass that calls the engine, as the loop body runs it in one piece. *)
Lemma loop_body_at_call w g tk audio wm out :
  call_of w tk = Some audio →
  Web.meter w (clock tk) (get_volume np_sqrt (chunk tk)) = (wm, out) →
  loop_body w g tk
  = ({| Web.audio_buffer := []; Web.silence_start := None;
        Web.last_vol_print := Web.last_vol_print wm; Web.heard_speech := false |},
     (Inflight.after_call (transcribe audio) g (timestamp (clock tk))).1,
     out ++ Print (MsgTranscribing (duration_of audio)) :: Recognize audio
         :: (Inflight.after_call (transcribe audio) g (timestamp (clock tk))).2).
Proof.
  intros Hc Hm.
  apply call_of_guards in Hc as (Hv & Hh & (since & Hs & Ht) & -> & Hd).
  unfold Web.loop_body. rewrite Hv, Hm.
  apply meter_fields in Hm as (Hb & Hs' & Hh' & _). cbv beta iota zeta.
  rewrite Hh', Hh, Hs', Hs, Ht, Hb.
  replace (0 <? length (Web.audio_buffer w ++ [chunk tk]))%nat with true.
  2:{ symmetry. apply Nat.ltb_lt. rewrite length_app. simpl. lia. }
  unfold Web.finalize. rewrite Hd, after_call_attempt.
  now destruct (Inflight.after_call _ _ _).
Qed.

(** A worker that is not waiting takes nothing, and one that is not inside
    the engine does not come back from it. *)
Lemma take_elsewhere (s : Inflight.System) (i : nat) (ck : Clock) :
  Inflight.places s !! i ≠ Some Inflight.Waiting → take s i ck = s.
Proof.
  intros H. unfold Inflight.take.
  destruct (Inflight.places s !! i) as [[|audio]|]; congruence.
Qed.

Lemma return_elsewhere (s : Inflight.System) (i : nat) (stamp : string) :
  (∀ audio, Inflight.places s !! i ≠ Some (Inflight.Calling audio)) →
  return_ s i stamp = s.
Proof.
  intros H. unfold Inflight.return_.
  destruct (Inflight.places s !! i) as [[|audio]|]; try reflexivity.
  now destruct (H audio).
Qed.

(** A pass of [Web.work] is the test, the chunk and the return of the
    engine with nothing in between. *)
Lemma whole_pass_is_work (s : Inflight.System) (i : nat) (ck : Clock) :
  Inflight.places s !! i = None →
  Inflight.base (Inflight.whole_pass np_sqrt transcribe s i ck)
  = Web.work np_sqrt transcribe (Inflight.base s) i ck
  ∧ Inflight.places (Inflight.whole_pass np_sqrt transcribe s i ck)
    = Inflight.places s.
Proof.
  intros Hn. unfold Inflight.whole_pass.
  assert (Hidle : ∀ s0, Inflight.places s0 !! i = None →
            return_ (take s0 i ck) i (timestamp ck) = s0).
  { intros s0 H0. rewrite take_elsewhere by congruence.
    apply return_elsewhere. congruence. }
  unfold Inflight.test, Web.work. rewrite Hn.
  destruct (Web.workers (Inflight.base s) !! i) as [[w|]|] eqn:Hw;
    [|now rewrite Hidle|now rewrite Hidle].
  destruct (Web.is_recording (Inflight.base s)) eqn:Hr;
    [|now rewrite Hidle].
  unfold Inflight.take. cbn [Inflight.places Inflight.base].
  rewrite lookup_insert_eq, Hw.
  destruct (Web.audio_queue (Inflight.base s)) as [|c queue] eqn:Hq.
  { rewrite return_elsewhere.
    - cbn [Inflight.places Inflight.base].
      split; [now rewrite ?Hr|]. now rewrite delete_insert_id.
    - intros audio. cbn [Inflight.places]. now rewrite lookup_delete_eq. }
  destruct (call_of w {| chunk := c; clock := ck |}) as [audio|] eqn:Hc.
  - destruct (Web.meter w ck (get_volume np_sqrt c)) as [wm out] eqn:Hm.
    rewrite (loop_body_at_call w (Web.world (Inflight.base s))
               {| chunk := c; clock := ck |} audio wm out Hc Hm).
    unfold Inflight.return_. cbn [Inflight.places Inflight.base Web.workers].
    rewrite lookup_insert_eq.
    rewrite list_lookup_insert_eq by (now apply lookup_lt_Some in Hw).
    cbn [Web.world timestamp clock].
    destruct (Inflight.after_call _ _ _) as [g' evs].
    cbn [Inflight.places Inflight.base fst snd Web.last_vol_print].
    split.
    + f_equal; cbn [Web.app Web.is_recording Web.audio_queue Web.phase
                      Web.workers Web.replies Web.trace]; auto.
      * now rewrite list_insert_insert_eq.
      * rewrite <- !app_assoc. reflexivity.
    + rewrite insert_insert_eq. now rewrite delete_insert_id.
  - destruct (loop_body w (Web.world (Inflight.base s)) {| chunk := c; clock := ck |})
      as [[w' g'] evs].
    rewrite return_elsewhere.
    + cbn [Inflight.places Inflight.base].
      split; [now rewrite ?Hr|]. now rewrite delete_insert_id.
    + intros audio. cbn [Inflight.places]. now rewrite lookup_delete_eq.
Qed.

(** Every step keeps the store sound. *)
Lemma fine_step_sound dir (s : Inflight.System) (a : Inflight.Action) :
  Store.sound dir (Inflight.base s) →
  Store.sound dir (Inflight.base (fstep s a)).
Proof.
  intros H. destruct a as [c|m path|ck|i|i ck|i stamp];
    cbn [Inflight.step Inflight.lift Inflight.base];
    try (now apply step_sound); unfold Store.sound in *.
  - unfold Inflight.test.
    destruct (Inflight.places s !! i); [exact H|].
    destruct (Web.workers (Inflight.base s) !! i) as [[w|]|]; try exact H.
    destruct (Web.is_recording (Inflight.base s)); exact H.
  - unfold Inflight.take.
    destruct (Inflight.places s !! i) as [[|audio0]|]; try exact H.
    destruct (Web.workers (Inflight.base s) !! i) as [[w|]|]; try exact H.
    destruct (Web.audio_queue (Inflight.base s)) as [|c queue]; [exact H|].
    destruct H as (H1 & H2 & H3).
    destruct (call_of w {| chunk := c; clock := ck |}) as [audio|].
    + pose proof (meter_replay (files (Web.world (Inflight.base s))) w ck
                    (get_volume np_sqrt c)) as Hm.
      destruct (Web.meter w ck (get_volume np_sqrt c)) as [wm out].
      cbn [snd] in Hm. cbn [Inflight.base].
      split; [exact H1|]. split; [exact H2|].
      cbn [Web.trace Web.world]. now rewrite !replay_app, H3, Hm.
    + pose proof (loop_body_tracks np_sqrt transcribe w (Web.world (Inflight.base s))
                    {| chunk := c; clock := ck |}) as (T1 & _ & T3).
      pose proof (loop_body_growth np_sqrt transcribe w (Web.world (Inflight.base s))
                    {| chunk := c; clock := ck |}) as (more & G1 & G2 & _).
      destruct (Web.loop_body _ _ _ _ _) as [[w' g'] evs].
      cbn [fst snd Inflight.base Web.world Web.trace] in *.
      split; [auto|]. split.
      * rewrite G1. apply Forall_app. split; [exact H2|].
        destruct G2 as [->|(text & -> & Hl & Ht)]; [constructor|].
        constructor; [now split|constructor].
      * now rewrite replay_app, H3.
  - unfold Inflight.return_.
    destruct (Inflight.places s !! i) as [[|audio]|]; try exact H.
    destruct (Web.workers (Inflight.base s) !! i) as [[w|]|]; try exact H.
    destruct H as (H1 & H2 & H3).
    destruct (after_call_effects (transcribe audio) (Web.world (Inflight.base s)) stamp)
      as (A1 & (more & A2 & A3) & A4).
    destruct (Inflight.after_call _ _ _) as [g' evs].
    cbn [fst snd Inflight.base Web.world Web.trace] in *.
    split; [auto|]. split.
    + rewrite A2. apply Forall_app. now split.
    + now rewrite replay_app, H3.
Qed.

Lemma fine_exec_sound dir (acts : list Inflight.Action) :
  Store.sound dir (Inflight.base (fexec (Inflight.boot dir) acts)).
Proof.
  assert (H0 : Store.sound dir (Inflight.base (Inflight.boot dir))).
  { apply boot_sound. }
  revert H0. generalize (Inflight.boot dir).
  induction acts as [|a acts IH]; intros s0 H0; simpl; [exact H0|].
  apply IH. now apply fine_step_sound.
Qed.

(** Every state of [Web.exec] is a state of this process, with all
    workers at the head of their loops. *)
Lemma coarse_step_is_fine (s : Inflight.System) (a : Web.Action) :
  Inflight.places s = ∅ →
  Inflight.base (fexec s (Inflight.refine a))
  = Web.step np_sqrt transcribe (Inflight.base s) a
  ∧ Inflight.places (fexec s (Inflight.refine a)) = ∅.
Proof.
  intros Hp. destruct a as [c|m path|ck|i ck];
    cbn [Inflight.refine Inflight.exec fold_left Inflight.step Inflight.lift
         Inflight.base Inflight.places]; auto.
  destruct (whole_pass_is_work s i ck) as [H1 H2].
  { rewrite Hp. apply lookup_empty. }
  unfold Inflight.whole_pass in H1, H2. cbn [Web.step]. split; congruence.
Qed.

Lemma coarse_exec_is_fine (acts : list Web.Action) : ∀ s,
  Inflight.places s = ∅ →
  Inflight.base (fexec s (concat (map Inflight.refine acts)))
  = Web.exec np_sqrt transcribe (Inflight.base s) acts
  ∧ Inflight.places (fexec s (concat (map Inflight.refine acts))) = ∅.
Proof.
  induction acts as [|a acts IH]; intros s Hp; [auto|].
  cbn [map concat]. unfold Inflight.exec. rewrite fold_left_app.
  destruct (coarse_step_is_fine s a Hp) as [H1 H2].
  destruct (IH _ H2) as [H3 H4]. unfold Inflight.exec in *.
  rewrite H3, H4, H1. auto.
Qed.

(** X10.  The process of [src/transcriber.py] with calls of the engine that take
    time, under any order of captured chunks, requests, turns of the
    supervisor, tests of [is_recording], chunks taken and returns of the
    engine.  Whenever no thread is inside a block that writes (a turn of
    the supervisor, the part of a pass after the return of the engine), so
    also while recognitions are under way: the snapshot file holds the
    whole transcript and reads back as it; every entry of the transcript
    has a text that is not empty, has no whitespace at its ends and is no
    noise token; and the files are exactly what the recorded writes produce
    from the initial directory. *)
Theorem process_keeps_store_sound
    (dir : gmap string string) (acts : list Inflight.Action) :
  let s := Inflight.base (fexec (Inflight.boot dir) acts) in
  (∃ content,
     files (Web.world s) !! JSON_NAME = Some content
     ∧ Json.loads_entries content = Some (transcript (Web.world s)))
  ∧ Forall (λ e, Web.loggable (text e) ∧ Entries.trimmed (text e))
      (transcript (Web.world s))
  ∧ replay dir (Web.trace s) = files (Web.world s).
Proof.
  intros s. destruct (fine_exec_sound dir acts) as (H1 & H2 & H3).
  split; [|auto].
  eexists. split; [exact H1|]. apply loads_dumps.
Qed.

Local Arguments String.append !s1 s2 : simpl nomatch.


(** What a stop that the supervisor takes does to the process. *)
Lemma stop_effects (s : Web.System) (ck : Web.StopClock) :
  Web.phase s = Web.AwaitStop →
  Web.stop_event (Web.app s) = true →
  let s' := Web.supervise s ck in
  Web.phase s' = Web.AwaitStart
  ∧ Web.is_recording s' = false
  ∧ Web.start_event (Web.app s') = Web.start_event (Web.app s)
  ∧ Web.world s'
    = {| transcript := [];
         files := <[JSON_NAME := "[]"]>
                    (files (Web.save_transcript_md (Web.world s) ck).1) |}
  ∧ Web.workers s' = Web.workers s.
Proof.
  intros Hp Hs s'. subst s'. unfold Web.supervise. rewrite Hp, Hs.
  destruct (Web.save_transcript_md (Web.world s) ck) as [g1 e1].
  cbn [fst]. unfold save_transcript_json.
  cbn [transcript files Web.phase Web.is_recording Web.app Web.world
       Web.workers Web.start_event].
  repeat split.
Qed.

(** At rest nothing is logged, as long as no session is asked for. *)
Lemma settled_step (s : Inflight.System) (a : Inflight.Action) :
  Inflight.settled s → Inflight.no_start a → Inflight.settled (fstep s a).
Proof.
  unfold Inflight.settled. intros (Hp & Hr & Hph & Hst & Ht) Ha.
  destruct a as [c|m path|ck|i|i ck|i stamp];
    cbn [Inflight.step Inflight.lift Inflight.base Inflight.places Web.step].
  - repeat split; auto.
  - destruct m; cbn [Web.handle].
    + repeat split; auto.
    + unfold Web.do_POST. cbn [Inflight.no_start] in Ha.
      apply String.eqb_neq in Ha. rewrite Ha.
      destruct (String.eqb path "/api/stop"); repeat split; auto.
  - unfold Web.supervise. rewrite Hph, Hst. repeat split; auto.
  - unfold Inflight.test. rewrite Hp, lookup_empty.
    destruct (Web.workers (Inflight.base s) !! i) as [[w|]|];
      rewrite ?Hr; repeat split; auto.
  - rewrite take_elsewhere; [repeat split; auto|].
    rewrite Hp, lookup_empty. discriminate.
  - rewrite return_elsewhere; [repeat split; auto|].
    intros audio. rewrite Hp, lookup_empty. discriminate.
Qed.

Lemma settled_exec (acts : list Inflight.Action) : ∀ s,
  Inflight.settled s → Forall Inflight.no_start acts →
  Inflight.settled (fexec s acts).
Proof.
  induction acts as [|a acts IH]; intros s Hs HF; [exact Hs|].
  inversion HF as [|? ? Ha HF']; subst. simpl.
  apply IH; [|exact HF']. now apply settled_step.
Qed.

(** X15.  The [finally] block of the web program takes [is_recording] down and
    exports what the transcript holds at that moment, leaving the
    transcript and the snapshot as they are; with an empty transcript it
    writes nothing.  After a stop block that has run to its end there is
    nothing left to export, and the shutdown writes no file, provided that
    at the stop every worker was at the head of its loop or had ended (none
    was waiting for a chunk or inside the engine), that no start was
    pending and that none has been requested since, whatever else the
    threads have done in between. *)
Theorem shutdown_exports_what_is_left (s : Inflight.System) (ck : Web.StopClock) :
  let g := Web.world (Inflight.base s) in
  let g' := Web.world (Inflight.base (Inflight.shutdown s ck)) in
  Web.is_recording (Inflight.base (Inflight.shutdown s ck)) = false
  ∧ transcript g' = transcript g
  ∧ files g' !! JSON_NAME = files g !! JSON_NAME
  ∧ (transcript g ≠ [] →
     files g' !! Web.md_name ck
     = Some (Web.md_document (Web.date_stamp ck) (transcript g)))
  ∧ (transcript g = [] → g' = g)
  ∧ ∀ (sck : Web.StopClock) (acts : list Inflight.Action),
      Inflight.places s = ∅ →
      Web.phase (Inflight.base s) = Web.AwaitStop →
      Web.stop_event (Web.app (Inflight.base s)) = true →
      Web.start_event (Web.app (Inflight.base s)) = false →
      Forall Inflight.no_start acts →
      let s1 := fexec (fstep s (Inflight.Supervise sck)) acts in
      transcript (Web.world (Inflight.base s1)) = []
      ∧ Web.world (Inflight.base (Inflight.shutdown s1 ck))
        = Web.world (Inflight.base s1).
Proof.
  intros g g'. subst g g'.
  unfold Inflight.shutdown at 1 2 3 4 5. cbn [Inflight.base].
  unfold Lifecycle.shutdown.
  destruct (export_effects (Web.world (Inflight.base s)) ck)
    as (E1 & E2 & _ & E4 & E5 & _).
  split; [now destruct (Web.save_transcript_md (Web.world (Inflight.base s)) ck)|].
  split; [now destruct (Web.save_transcript_md (Web.world (Inflight.base s)) ck)|].
  split; [now destruct (Web.save_transcript_md (Web.world (Inflight.base s)) ck)|].
  split; [now destruct (Web.save_transcript_md (Web.world (Inflight.base s)) ck)|].
  split.
  { intros Ht. now rewrite (E5 Ht). }
  intros sck acts Hpl Hp Hs Hst HF.
  set (s1 := fexec (fstep s (Inflight.Supervise sck)) acts).
  assert (Hset : Inflight.settled (fstep s (Inflight.Supervise sck))).
  { destruct (stop_effects (Inflight.base s) sck Hp Hs) as (S1 & S2 & S3 & S4 & _).
    unfold Inflight.settled.
    cbn [Inflight.step Inflight.lift Inflight.base Inflight.places Web.step].
    rewrite S4. repeat split; auto. congruence. }
  pose proof (settled_exec acts _ Hset HF) as (_ & _ & _ & _ & Ht).
  fold s1 in Ht. split; [exact Ht|].
  unfold Inflight.shutdown. cbn [Inflight.base]. unfold Lifecycle.shutdown.
  destruct (export_effects (Web.world (Inflight.base s1)) ck)
    as (_ & _ & _ & _ & E5' & _).
  now rewrite (E5' Ht).
Qed.

(** X22.  An utterance whose recognition is under way when the supervisor takes
    the stop is not lost and not exported with its session.  The stop
    block exports the session without it, empties the transcript and
    rewrites the snapshot; when the engine returns with a text that is
    kept, the worker, which does not look at [is_recording] again, appends
    the entry to the emptied transcript and rewrites the snapshot with it;
    and the shutdown then writes an export that holds this entry alone. *)
Theorem utterance_in_flight_at_stop_is_exported_later
    (s : Inflight.System) (i : nat) (w : Web.Worker) (audio : list Sample)
    (segments : list string) (sck ck : Web.StopClock) (stamp : string) :
  Inflight.places s !! i = Some (Inflight.Calling audio) →
  Web.workers (Inflight.base s) !! i = Some (Web.Alive w) →
  Web.phase (Inflight.base s) = Web.AwaitStop →
  Web.stop_event (Web.app (Inflight.base s)) = true →
  transcribe audio = Ok segments →
  Web.keeps (Web.text_of segments) = true →
  let entry := {| time := stamp; text := Web.text_of segments |} in
  let s1 := fstep s (Inflight.Supervise sck) in
  let s2 := fstep s1 (Inflight.Return i stamp) in
  let g0 := Web.world (Inflight.base s) in
  let g2 := Web.world (Inflight.base s2) in
  Web.is_recording (Inflight.base s1) = false
  ∧ transcript (Web.world (Inflight.base s1)) = []
  ∧ (transcript g0 ≠ [] →
     files g2 !! Web.md_name sck
     = Some (Web.md_document (Web.date_stamp sck) (transcript g0)))
  ∧ transcript g2 = [entry]
  ∧ files g2 !! JSON_NAME = Some (Json.dumps (Json.of_transcript [entry]))
  ∧ files (Web.world (Inflight.base (Inflight.shutdown s2 ck))) !! Web.md_name ck
    = Some (Web.md_document (Web.date_stamp ck) [entry]).
Proof.
  intros Hpl Hw Hp Hs Htr Hk entry s1 s2 g0 g2.
  destruct (stop_effects (Inflight.base s) sck Hp Hs) as (S1 & S2 & S3 & S4 & S5).
  destruct (export_effects g0 sck) as (_ & _ & _ & E4 & _).
  assert (Hg2 : g2 = {| transcript := [entry];
                        files := <[JSON_NAME := Json.dumps (Json.of_transcript [entry])]>
                                   (<[JSON_NAME := "[]"]>
                                      (files (Web.save_transcript_md g0 sck).1)) |}).
  { subst g2 s2 s1.
    cbn [Inflight.step]. unfold Inflight.return_, Inflight.lift.
    cbn [Inflight.places Inflight.base Web.step]. rewrite Hpl, S5, Hw, Htr, S4.
    rewrite (after_call_kept segments _ stamp Hk).
    cbn [Inflight.base Web.world transcript files app]. reflexivity. }
  split; [exact S2|]. split; [subst s1; cbn [Inflight.step Inflight.lift
    Inflight.base Web.step]; now rewrite S4|].
  split.
  { intros Hne. rewrite Hg2. cbn [files].
    rewrite !lookup_insert_ne by (intros E; symmetry in E;
                                  now apply md_name_not_json in E).
    now apply E4. }
  split; [now rewrite Hg2|].
  split; [rewrite Hg2; cbn [files]; apply lookup_insert_eq|].
  unfold Inflight.shutdown. cbn [Inflight.base]. unfold Lifecycle.shutdown.
  destruct (export_effects g2 ck) as (_ & _ & _ & E4' & _).
  fold g2. destruct (Web.save_transcript_md g2 ck) as [g3 e3].
  cbn [fst Web.world] in *. rewrite E4' by (rewrite Hg2; discriminate).
  now rewrite Hg2.
Qed.

End Overlap.

Lemma shutdown_exports_what_is_left_witness :
  Web.world
    (Inflight.base
       (Inflight.shutdown
          (Inflight.exec sqrt_floor (Demo.says [" Hello"])
             (Inflight.step sqrt_floor (Demo.says [" Hello"]) Cases.at_rest
                (Inflight.Supervise Demo.now))
             [Inflight.Capture (repeat 1%Q 1024); Inflight.Test 0;
              Inflight.Take 0 (Demo.at_time 5 "10:00:05");
              Inflight.Request Web.GET "/transcript.json"])
          Demo.later))
  = Web.world
      (Inflight.base
         (Inflight.exec sqrt_floor (Demo.says [" Hello"])
            (Inflight.step sqrt_floor (Demo.says [" Hello"]) Cases.at_rest
               (Inflight.Supervise Demo.now))
            [Inflight.Capture (repeat 1%Q 1024); Inflight.Test 0;
             Inflight.Take 0 (Demo.at_time 5 "10:00:05");
             Inflight.Request Web.GET "/transcript.json"])).
Proof.
  destruct (shutdown_exports_what_is_left sqrt_floor (Demo.says [" Hello"])
              Cases.at_rest Demo.later) as (_ & _ & _ & _ & _ & H).
  refine (proj2 (H Demo.now _ eq_refl eq_refl eq_refl eq_refl _)).
  repeat constructor.
Defined.

Lemma utterance_in_flight_at_stop_is_exported_later_witness :
  files
    (Web.world
       (Inflight.base
          (Inflight.shutdown
             (Inflight.step sqrt_floor (Demo.says [" Hello"])
                (Inflight.step sqrt_floor (Demo.says [" Hello"]) Cases.in_flight
                   (Inflight.Supervise Demo.now))
                (Inflight.Return 0 "10:00:09"))
             Demo.later)))
    !! Web.md_name Demo.later
  = Some (Web.md_document "2026-01-01 10:00"
            [{| time := "10:00:09"; text := "Hello" |}]).
Proof.
  refine (proj2 (proj2 (proj2 (proj2 (proj2
    (utterance_in_flight_at_stop_is_exported_later sqrt_floor
       (Demo.says [" Hello"]) Cases.in_flight 0%nat
       {| Web.audio_buffer := map chunk Cases.utterance;
          Web.silence_start := Some 1%Q; Web.last_vol_print := 3;
          Web.heard_speech := true |}
       (repeat 1%Q 4800 ++ repeat 0%Q 2048) [" Hello"]
       Demo.now Demo.later "10:00:09" _ _ _ _ _ _))))));
    vm_compute; reflexivity.
Defined.
